(** * Velox: decimal type, nested-vector flattening and DuckDB conversion

    A shallow embedding of three translation units of the repository:

    - the decimal header kept with
      [velox/connectors/hive/storage_adapters/s3fs/benchmark/S3ReadBenchmark.h]
      (the [Int128], [Decimal] and [DecimalCasts] classes),
    - [velox/functions/lib/LambdaFunctionUtil.cpp] ([flattenArray],
      [flattenMap] and their helpers),
    - [velox/duckdb/conversion/DuckWrapper.cpp] ([convert],
      [convertDuckToVeloxDecimal], [toVeloxVector]).

    Integers of the source are integers of [Z] with the range checks or
    the wrap-around of their C++ type written out; exceptions are values of
    [Outcome]; buffers are lists read with [!!] and written with
    [<[ i := x ]>]. *)

From Stdlib Require Import ZArith Ascii String Lia.
From stdpp Require Import base tactics option list.
From stdpp Require Import gmap.

Local Open Scope Z_scope.

(** ** Exceptions and outcomes *)

(** The exceptions the code throws: [VELOX_CHECK] raises a
    [VeloxRuntimeError], [VELOX_USER_CHECK] a [VeloxUserError],
    [VELOX_UNSUPPORTED] the unsupported-feature error, and [toVeloxVector]
    a plain [std::runtime_error]. *)
Inductive VeloxException : Type :=
  | VeloxRuntimeError (message : string)
  | VeloxUserError (message : string)
  | VeloxUnsupported (message : string)
  | StdRuntimeError (message : string).

(** What a call does: it returns, it throws, or the loop it runs has not
    finished within the steps granted. *)
Inductive Outcome (A : Type) : Type :=
  | Returns (a : A)
  | Throws (e : VeloxException)
  | OutOfFuel.

Arguments Returns {A} a.
Arguments Throws {A} e.
Arguments OutOfFuel {A}.

#[global] Instance Outcome_ret : MRet Outcome := fun A a => Returns a.

#[global] Instance Outcome_bind : MBind Outcome := fun A B k m =>
  match m with
  | Returns a => k a
  | Throws e => Throws e
  | OutOfFuel => OutOfFuel
  end.

(** ** The decimal header *)

Module DecimalH.

Definition INT128_MIN : Z := - 2 ^ 127.
Definition INT128_MAX : Z := 2 ^ 127 - 1.

Definition fitsInt128 (z : Z) : bool := (INT128_MIN <=? z) && (z <=? INT128_MAX).

(** Conversion of an unbounded integer to [__int128_t]: two's complement
    wrap-around. *)
Definition wrap128 (z : Z) : Z := (z + 2 ^ 127) mod 2 ^ 128 - 2 ^ 127.

(** GCC's [__builtin_add_overflow], [__builtin_sub_overflow] and
    [__builtin_mul_overflow]: the operation is done on unbounded integers,
    the result is stored converted to the result type, and the return value
    tells whether the stored value differs from the exact one. *)
Definition builtin_overflow (exact : Z) : Z * bool :=
  (wrap128 exact, negb (wrap128 exact =? exact)).

Definition builtin_add_overflow (a b : Z) : Z * bool := builtin_overflow (a + b).
Definition builtin_sub_overflow (a b : Z) : Z * bool := builtin_overflow (a - b).
Definition builtin_mul_overflow (a b : Z) : Z * bool := builtin_overflow (a * b).

Definition kMaxPrecisionInt128 : Z := 38.
Definition kDefaultScale : Z := 0.
Definition kDefaultPrecision : Z := kMaxPrecisionInt128.

(** [struct Int128]: a wrapper over [int128_t], zero by default. *)
Record Int128 : Type := mkInt128 { value : Z }.

Definition Int128_default : Int128 := mkInt128 0.

(** [VELOX_CHECK(cond)] with no message of its own. *)
Definition VELOX_CHECK {A : Type} (cond : bool) (a : A) : Outcome A :=
  if cond then Returns a else Throws (VeloxRuntimeError EmptyString).

Definition Int128_add (this rhs : Int128) : Outcome Int128 :=
  let '(sum, overflow) := builtin_add_overflow (value this) (value rhs) in
  VELOX_CHECK (negb overflow) (mkInt128 sum).

Definition Int128_mul (this rhs : Int128) : Outcome Int128 :=
  let '(product, overflow) := builtin_mul_overflow (value this) (value rhs) in
  VELOX_CHECK (negb overflow) (mkInt128 product).

Definition Int128_sub (this rhs : Int128) : Outcome Int128 :=
  let '(diff, overflow) := builtin_sub_overflow (value this) (value rhs) in
  VELOX_CHECK (negb overflow) (mkInt128 diff).

Definition Int128_eq (this other : Int128) : bool := value this =? value other.

(** [class Decimal]; [precision_] and [scale_] are [uint8_t]. *)
Record Decimal : Type := mkDecimal {
  unscaledValue_ : Int128;
  precision_ : Z;
  scale_ : Z
}.

Definition getPrecision (d : Decimal) : Z := precision_ d.
Definition getScale (d : Decimal) : Z := scale_ d.
Definition getUnscaledValue (d : Decimal) : Int128 := unscaledValue_ d.

Definition Decimal_eq (this other : Decimal) : bool :=
  Int128_eq (unscaledValue_ this) (getUnscaledValue other)
  && (precision_ this =? getPrecision other)
  && (scale_ this =? getScale other).

Definition Decimal_ne (this other : Decimal) : bool := true.
Definition Decimal_lt (this other : Decimal) : bool := true.
Definition Decimal_le (this other : Decimal) : bool := true.
Definition Decimal_gt (this other : Decimal) : bool := true.

(** *** DecimalCasts *)

Definition uint8_incr (n : Z) : Z := (n + 1) mod 256.

Definition isdigit (c : ascii) : bool :=
  (48 <=? Z.of_nat (nat_of_ascii c)) && (Z.of_nat (nat_of_ascii c) <=? 57).

Definition char_eqb (c d : ascii) : bool := Ascii.eqb c d.

(** [value.erase(0, value.find_first_not_of('0'))]: every leading ['0'] goes;
    a string of zeros only becomes empty ([find_first_not_of] gives [npos]). *)
Fixpoint erase_leading_zeros (v : list ascii) : list ascii :=
  match v with
  | c :: v' => if char_eqb c "0" then erase_leading_zeros v' else v
  | [] => []
  end.

(** The local variables of [parseToInt128] that its loop updates. *)
Record ParseState : Type := mkParseState {
  result : Int128;
  precision : Z;
  scale : Z;
  hasScale : bool;
  pos : Z
}.

Definition exponent : Int128 := mkInt128 10.

(** One run of the body of [while (pos < value.length())], for the character
    [c = value[pos]]. *)
Definition parse_step (isNegative : bool) (c : ascii) (st : ParseState)
  : Outcome ParseState :=
  if char_eqb c "." then
    Returns (mkParseState (result st) (precision st) (scale st) true
               (uint8_incr (pos st)))
  else if negb (isdigit c) then
    Throws (VeloxUserError "Invalid decimal string")
  else
    let digit := mkInt128 (Z.of_nat (nat_of_ascii c) - 48) in
    r ← (if isNegative
         then (p ← Int128_mul (result st) exponent; Int128_sub p digit)
         else (p ← Int128_mul (result st) exponent; Int128_add p digit));
    Returns (mkParseState r
               (uint8_incr (precision st))
               (if hasScale st then uint8_incr (scale st) else scale st)
               (hasScale st)
               (uint8_incr (pos st))).

(** The loop. [pos] is a [uint8_t]: past 255 it is 0 again, so on a string
    of 256 characters or more the test [pos < value.length()] never fails. *)
Fixpoint parse_loop (fuel : nat) (value : list ascii) (isNegative : bool)
    (st : ParseState) : Outcome ParseState :=
  match fuel with
  | O => OutOfFuel
  | S fuel' =>
      if pos st <? Z.of_nat (length value) then
        match value !! Z.to_nat (pos st) with
        | Some c =>
            st' ← parse_step isNegative c st;
            parse_loop fuel' value isNegative st'
        | None => Returns st
        end
      else Returns st
  end.

(** [parseToInt128(value, result, precision, scale)]: the three references
    are returned as a triple; [result] comes in with the caller's value. *)
Definition parseToInt128 (fuel : nat) (value : list ascii) (result0 : Int128)
  : Outcome (Int128 * Z * Z) :=
  let c0 := default "000"%char (value !! 0%nat) in
  '(isNegative, value1) ←
     (if negb (isdigit c0) then
        if char_eqb c0 "-" || char_eqb c0 "+" then
          Returns (char_eqb c0 "-", tail value)
        else
          Throws (VeloxUserError
                    ("Illegal decimal value " ++ string_of_list_ascii value))
      else Returns (false, value));
  let value2 := erase_leading_zeros value1 in
  st ← parse_loop fuel value2 isNegative (mkParseState result0 0 0 false 0);
  Returns (result st, precision st, scale st).

Definition parseStringToDecimal (fuel : nat) (value : string) : Outcome Decimal :=
  if (String.length value =? 0)%nat then
    Throws (VeloxRuntimeError "Decimal string must have at least 1 char")
  else
    match parseToInt128 fuel (list_ascii_of_string value) Int128_default with
    | Returns (unscaledValue, precision, scale) =>
        Returns (mkDecimal unscaledValue precision scale)
    | Throws (VeloxRuntimeError _) => Throws (VeloxUserError "Decimal overflow")
    | Throws e => Throws e
    | OutOfFuel => OutOfFuel
    end.

(** *** Vocabulary of the properties *)

(** What a checked operation gives, from the exact result alone. *)
Definition checked (exact : Z) : Outcome Int128 :=
  if fitsInt128 exact then Returns (mkInt128 exact)
  else Throws (VeloxRuntimeError EmptyString).

(** [parseToInt128]'s loop when [pos] does not wrap: the body run on each
    character in turn. *)
Fixpoint parse_chars (isNegative : bool) (cs : list ascii) (st : ParseState)
  : Outcome ParseState :=
  match cs with
  | [] => Returns st
  | c :: cs' => st' ← parse_step isNegative c st; parse_chars isNegative cs' st'
  end.

(** The exact value the body leaves in [result] for the digit [c]. *)
Definition accumulate (isNegative : bool) (c : ascii) (r : Z) : Z :=
  if isNegative then r * 10 - (Z.of_nat (nat_of_ascii c) - 48)
  else r * 10 + (Z.of_nat (nat_of_ascii c) - 48).

(** What holds of the loop's variables with [n] characters left to read. *)
Definition parseInv (isNegative : bool) (n : nat) (st : ParseState) : Prop :=
  0 <= scale st <= precision st
  /\ precision st + Z.of_nat n <= 255
  /\ Z.abs (value (result st)) < 10 ^ precision st
  /\ (if isNegative then value (result st) <= 0 else 0 <= value (result st)).

Definition digitsOf (cs : list ascii) : nat :=
  length (filter (fun c => isdigit c = true) cs).

(** The loop's variables on entry, [result] being the caller's zero. *)
Definition parseStart : ParseState := mkParseState Int128_default 0 0 false 0.

(** The characters left once an optional single leading sign is taken off. *)
Definition bodyOf (v : list ascii) : list ascii :=
  match v with
  | c :: v' => if char_eqb c "-" || char_eqb c "+" then v' else v
  | [] => []
  end.

Definition allowedChar (c : ascii) : bool := isdigit c || char_eqb c ".".

(** After the optional sign, every character is a digit or a dot. *)
Definition charsAllowed (s : string) : bool :=
  forallb allowedChar (bodyOf (list_ascii_of_string s)).

Definition dotCount (s : string) : nat :=
  length (filter (fun c => char_eqb c "." = true) (list_ascii_of_string s)).

(** The grammar of the specification: an optional sign, then digits with at
    most one dot among them. *)
Definition conformsToGrammar (s : string) : bool :=
  charsAllowed s && (dotCount s <=? 1)%nat.

(** A sign, 256 dots and a letter: 258 characters, of which the loop only
    ever sees the dots. *)
Definition signDotsLetter : string :=
  String "+" (string_of_list_ascii (replicate 256 "."%char ++ ["x"%char])).

(** The invariant the specification gives for a [Decimal]. *)
Definition decimalInvariant (d : Decimal) : Prop :=
  1 <= precision_ d <= 38
  /\ 0 <= scale_ d <= precision_ d
  /\ Z.abs (value (unscaledValue_ d)) < 10 ^ precision_ d.

(** The digits of a string, counted as the specification counts them. *)
Definition digitCount (s : string) : nat :=
  digitsOf (list_ascii_of_string s).

(** *** What a string denotes *)

(** [Int128 operator~()]: the bitwise complement of the value. *)
Definition Int128_not (this : Int128) : Int128 := mkInt128 (Z.lnot (value this)).

Definition digitValue (c : ascii) : Z := Z.of_nat (nat_of_ascii c) - 48.

Definition sgn (neg : bool) : Z := if neg then -1 else 1.

(** The number the digits of [cs] spell after the digits that gave [acc],
    dots being passed over. *)
Fixpoint digitsValueFrom (acc : Z) (cs : list ascii) : Z :=
  match cs with
  | [] => acc
  | c :: cs' =>
      if isdigit c then digitsValueFrom (acc * 10 + digitValue c) cs'
      else digitsValueFrom acc cs'
  end.

(** The digits of [cs] that stand after a dot, [seen] telling whether a
    dot has been met already. *)
Fixpoint scaleFrom (seen : bool) (cs : list ascii) : nat :=
  match cs with
  | [] => 0%nat
  | c :: cs' =>
      if char_eqb c "." then scaleFrom true cs'
      else if isdigit c then ((if seen then 1 else 0) + scaleFrom seen cs')%nat
      else scaleFrom seen cs'
  end.

Definition firstChar (s : string) : ascii :=
  default "000"%char (list_ascii_of_string s !! 0%nat).

Definition startsWithDigitOrSign (s : string) : bool :=
  isdigit (firstChar s) || char_eqb (firstChar s) "-" || char_eqb (firstChar s) "+".

Definition startsNegative (s : string) : bool := char_eqb (firstChar s) "-".

(** The characters that count: the sign and the leading zeros taken off. *)
Definition significant (s : string) : list ascii :=
  erase_leading_zeros (bodyOf (list_ascii_of_string s)).

Definition signedValue (s : string) : Z :=
  sgn (startsNegative s) * digitsValueFrom 0 (significant s).

(** The decimal a string denotes. *)
Definition denoted (s : string) : Decimal :=
  mkDecimal (mkInt128 (signedValue s))
    (Z.of_nat (digitsOf (significant s)))
    (Z.of_nat (scaleFrom false (significant s))).

(** The place of the first character of [cs] that is neither a digit nor a
    dot, counted from 0. *)
Fixpoint firstDisallowed (cs : list ascii) : option nat :=
  match cs with
  | [] => None
  | c :: cs' =>
      if allowedChar c then
        match firstDisallowed cs' with
        | Some k => Some (S k)
        | None => None
        end
      else Some 0%nat
  end.

End DecimalH.

(** ** LambdaFunctionUtil.cpp *)

Module LambdaFunctionUtil.

(** [vector_size_t] is [int32_t]. Signed overflow and out-of-bounds or
    uninitialised reads are undefined behaviour in the source: the model
    computes in [option], and [None] stands for such a run. *)
Abbreviation vector_size_t := Z (only parsing).
Definition INT32_MIN : Z := - 2 ^ 31.
Definition INT32_MAX : Z := 2 ^ 31 - 1.

Definition int32_add (a b : Z) : option Z :=
  if decide (INT32_MIN <= a + b <= INT32_MAX) then Some (a + b) else None.

(** A buffer of [A]: one slot per element, [None] in a slot that was
    allocated and never written. *)
Abbreviation Buffer A := (list (option A)) (only parsing).

(** [AlignedBuffer::allocate<A>(n, pool)]: [n] slots, none of them written. *)
Definition allocate {A : Type} (n : nat) : Buffer A := replicate n None.

Definition buf_read {A : Type} (b : Buffer A) (i : Z) : option A :=
  if decide (0 <= i) then mjoin (b !! Z.to_nat i) else None.

Definition buf_write {A : Type} (b : Buffer A) (i : Z) (x : A) : option (Buffer A) :=
  if decide (0 <= i < Z.of_nat (length b))
  then Some (<[Z.to_nat i := Some x]> b) else None.

(** [BufferPtr]: [None] is [BufferPtr(nullptr)]. *)
Abbreviation BufferPtr A := (option (Buffer A)) (only parsing).

Inductive VectorPtr : Type :=
  | nullptr
  | ptr (address : nat).

(** The vectors the flattening code meets; children are held by pointer
    and may be shared. A nulls buffer holds one bit per row, set when the
    row is not null. *)
Inductive Vector : Type :=
  | FlatVector (nulls : BufferPtr bool) (size : Z) (values : Buffer Z)
  | DictionaryVector (nulls : BufferPtr bool) (indices : Buffer vector_size_t)
      (size : Z) (base : VectorPtr)
  | ArrayVector (nulls : BufferPtr bool) (size : Z)
      (offsets sizes : Buffer vector_size_t) (elements : VectorPtr)
  | MapVector (nulls : BufferPtr bool) (size : Z)
      (offsets sizes : Buffer vector_size_t) (mapKeys mapValues : VectorPtr).

(** The vectors alive, by address. *)
Abbreviation Heap := (list Vector) (only parsing).

Definition deref (h : Heap) (p : VectorPtr) : option Vector :=
  match p with
  | nullptr => None
  | ptr a => h !! a
  end.

Definition make_shared (h : Heap) (v : Vector) : VectorPtr * Heap :=
  (ptr (length h), h ++ [v]).

(** The template parameter [T] of [flattenBuffers] and [countElements]. *)
Inductive VectorKind : Type := ArrayKind | MapKind.

Definition isKind (T : VectorKind) (v : Vector) : bool :=
  match T, v with
  | ArrayKind, ArrayVector _ _ _ _ _ => true
  | MapKind, MapVector _ _ _ _ _ _ => true
  | _, _ => false
  end.

(** [std::dynamic_pointer_cast<T>(vector)]: the same pointer when it points
    to a [T], the null pointer otherwise. *)
Definition dynamic_pointer_cast (T : VectorKind) (h : Heap) (p : VectorPtr)
  : VectorPtr :=
  match deref h p with
  | Some v => if isKind T v then p else nullptr
  | None => nullptr
  end.

(** [base()->as<T>()] followed by [rawSizes()] and [rawOffsets()]. *)
Definition rawSizesOffsets (T : VectorKind) (h : Heap) (p : VectorPtr)
  : option (Buffer vector_size_t * Buffer vector_size_t) :=
  v ← deref h p;
  match T, v with
  | ArrayKind, ArrayVector _ _ offsets sizes _ => Some (sizes, offsets)
  | MapKind, MapVector _ _ offsets sizes _ _ => Some (sizes, offsets)
  | _, _ => None
  end.

(** Modelled from the spec: [bits::setNull] and [bits::isBitNull] of
    BitUtil.h, on a validity bitmap (a row's bit is set when the row is not
    null). *)
Definition setNull (rawNulls : Buffer bool) (row : Z) (isNull : bool)
  : option (Buffer bool) :=
  buf_write rawNulls row (negb isNull).

Definition isBitNull (rawNulls : Buffer bool) (row : Z) : option bool :=
  negb <$> buf_read rawNulls row.

(** Modelled from the spec: [SelectivityVector], an ordered set of active
    row positions in [0, size()); [end()] is one past the largest of them and
    [applyToSelected] visits them in ascending order. *)
Record SelectivityVector : Type := mkSelectivityVector { bits : list bool }.

Fixpoint selectedFrom (i : nat) (bs : list bool) : list nat :=
  match bs with
  | [] => []
  | b :: bs' => if b then i :: selectedFrom (S i) bs' else selectedFrom (S i) bs'
  end.

Definition selectedRows (rows : SelectivityVector) : list nat :=
  selectedFrom 0 (bits rows).

Definition rows_size (rows : SelectivityVector) : nat := length (bits rows).

Definition rows_end (rows : SelectivityVector) : nat :=
  foldr (fun r e => Nat.max (S r) e) 0%nat (selectedRows rows).

Fixpoint forEachRow {St : Type} (f : vector_size_t -> St -> option St)
    (rs : list nat) (s : St) : option St :=
  match rs with
  | [] => Some s
  | r :: rs' => s' ← f (Z.of_nat r) s; forEachRow f rs' s'
  end.

Definition applyToSelected {St : Type} (rows : SelectivityVector)
    (f : vector_size_t -> St -> option St) (s : St) : option St :=
  forEachRow f (selectedRows rows) s.

(** Modelled from the spec: [DecodedVector], the view of a vector with its
    dictionary wrappers resolved: the non-dictionary [base], the [indices]
    from rows to rows of the base, the identity flag, and the validity of
    each row seen through the same indices (absent when there are no
    nulls). *)
Record DecodedVector : Type := mkDecodedVector {
  base : VectorPtr;
  indices : Buffer vector_size_t;
  isIdentityMapping : bool;
  decodedNulls : BufferPtr bool
}.

Definition mayHaveNulls (d : DecodedVector) : bool :=
  match decodedNulls d with Some _ => true | None => false end.

Definition isNullAt (d : DecodedVector) (row : Z) : option bool :=
  match decodedNulls d with
  | None => Some false
  | Some raw => isBitNull raw row
  end.

Definition flattenNulls (rows : SelectivityVector) (decodedVector : DecodedVector)
  : option (BufferPtr bool) :=
  if negb (mayHaveNulls decodedVector) then Some None
  else
    rawNulls ← applyToSelected rows
      (fun row rawNulls =>
         isNull ← isNullAt decodedVector row;
         setNull rawNulls row isNull)
      (allocate (rows_size rows));
    Some (Some rawNulls).

(** [for (auto i = 0; i < size; i++) rawElementIndices[elementIndex++] =
    offset + i;] with [n] runs of the body left. *)
Fixpoint fillElementIndices (n : nat) (i offset : Z)
    (rawElementIndices : Buffer vector_size_t) (elementIndex : Z)
  : option (Buffer vector_size_t * Z) :=
  match n with
  | O => Some (rawElementIndices, elementIndex)
  | S n' =>
      v ← int32_add offset i;
      rawElementIndices' ← buf_write rawElementIndices elementIndex v;
      elementIndex' ← int32_add elementIndex 1;
      fillElementIndices n' (i + 1) offset rawElementIndices' elementIndex'
  end.

(** What the second pass of [flattenBuffers] updates: the three raw
    buffers and the cursor [elementIndex]. *)
Record FlattenState : Type := mkFlattenState {
  rawElementIndices : Buffer vector_size_t;
  rawNewSizes : Buffer vector_size_t;
  rawNewOffsets : Buffer vector_size_t;
  elementIndex : Z
}.

(** The body of the lambda given to [rows.applyToSelected] in
    [flattenBuffers]. *)
Definition flattenRow (rawNewNulls : BufferPtr bool)
    (indices rawSizes rawOffsets : Buffer vector_size_t)
    (row : vector_size_t) (st : FlattenState) : option FlattenState :=
  isNull ← match rawNewNulls with
           | Some raw => isBitNull raw row
           | None => Some false
           end;
  if (isNull : bool) then Some st
  else
    idx ← buf_read indices row;
    size ← buf_read rawSizes idx;
    idx' ← buf_read indices row;
    offset ← buf_read rawOffsets idx';
    newSizes' ← buf_write (rawNewSizes st) row size;
    newOffsets' ← buf_write (rawNewOffsets st) row (elementIndex st);
    '(elementIndices', elementIndex') ←
      fillElementIndices (Z.to_nat size) 0 offset
        (rawElementIndices st) (elementIndex st);
    Some (mkFlattenState elementIndices' newSizes' newOffsets' elementIndex').

(** The four buffers [flattenBuffers] hands back through its reference
    parameters. *)
Record FlattenedBuffers : Type := mkFlattenedBuffers {
  newNulls : BufferPtr bool;
  elementIndices : Buffer vector_size_t;
  newSizes : Buffer vector_size_t;
  newOffsets : Buffer vector_size_t
}.

(** [allocateIndices] takes its count as a [size_t]: no buffer is had for a
    negative [newNumElements]. *)
Definition flattenBuffers (T : VectorKind) (h : Heap) (rows : SelectivityVector)
    (newNumElements : vector_size_t) (decodedVector : DecodedVector)
  : option FlattenedBuffers :=
  newNulls ← flattenNulls rows decodedVector;
  if decide (newNumElements < 0) then None
  else
    let elementIndices0 := allocate (Z.to_nat newNumElements) in
    let newSizes0 := allocate (rows_end rows) in
    let newOffsets0 := allocate (rows_end rows) in
    '(rawSizes, rawOffsets) ← rawSizesOffsets T h (base decodedVector);
    st ← applyToSelected rows
      (flattenRow newNulls (indices decodedVector) rawSizes rawOffsets)
      (mkFlattenState elementIndices0 newSizes0 newOffsets0 0);
    Some (mkFlattenedBuffers newNulls (rawElementIndices st)
            (rawNewSizes st) (rawNewOffsets st)).

(** Modelled from the spec: [countElements<T>] of LambdaFunctionUtil.h, the
    first pass, which sums the sizes of the selected rows that are not
    null. *)
Definition countElements (T : VectorKind) (h : Heap) (rows : SelectivityVector)
    (decodedVector : DecodedVector) : option vector_size_t :=
  '(rawSizes, _) ← rawSizesOffsets T h (base decodedVector);
  applyToSelected rows
    (fun row count =>
       isNull ← isNullAt decodedVector row;
       if (isNull : bool) then Some count
       else
         idx ← buf_read (indices decodedVector) row;
         size ← buf_read rawSizes idx;
         int32_add count size)
    0.

(** Modelled from the spec: [BaseVector::wrapInDictionary], which builds a
    dictionary vector over [base] and copies no element. *)
Definition wrapInDictionary (h : Heap) (nulls : BufferPtr bool)
    (indices : Buffer vector_size_t) (size : Z) (base : VectorPtr)
  : VectorPtr * Heap :=
  make_shared h (DictionaryVector nulls indices size base).

Definition flattenArray (h : Heap) (rows : SelectivityVector)
    (vector : VectorPtr) (decodedVector : DecodedVector)
  : option (VectorPtr * Heap) :=
  if isIdentityMapping decodedVector then
    Some (dynamic_pointer_cast ArrayKind h vector, h)
  else
    newNumElements ← countElements ArrayKind h rows decodedVector;
    b ← flattenBuffers ArrayKind h rows newNumElements decodedVector;
    array ← deref h (base decodedVector);
    match array with
    | ArrayVector _ _ _ _ elements =>
        let '(wrapped, h1) :=
          wrapInDictionary h None (elementIndices b) newNumElements elements in
        Some (make_shared h1
                (ArrayVector (newNulls b) (Z.of_nat (rows_size rows))
                   (newOffsets b) (newSizes b) wrapped))
    | _ => None
    end.

Definition flattenMap (h : Heap) (rows : SelectivityVector)
    (vector : VectorPtr) (decodedVector : DecodedVector)
  : option (VectorPtr * Heap) :=
  if isIdentityMapping decodedVector then
    Some (dynamic_pointer_cast MapKind h vector, h)
  else
    newNumElements ← countElements MapKind h rows decodedVector;
    b ← flattenBuffers MapKind h rows newNumElements decodedVector;
    map ← deref h (base decodedVector);
    match map with
    | MapVector _ _ _ _ mapKeys mapValues =>
        let '(wrappedKeys, h1) :=
          wrapInDictionary h None (elementIndices b) newNumElements mapKeys in
        let '(wrappedValues, h2) :=
          wrapInDictionary h1 None (elementIndices b) newNumElements mapValues in
        Some (make_shared h2
                (MapVector (newNulls b) (Z.of_nat (rows_size rows))
                   (newOffsets b) (newSizes b) wrappedKeys wrappedValues))
    | _ => None
    end.

(** *** Vocabulary of the properties *)

(** [flattenArray] or [flattenMap], by the kind of vector flattened. *)
Definition flatten (T : VectorKind) (h : Heap) (rows : SelectivityVector)
    (vector : VectorPtr) (decodedVector : DecodedVector)
  : option (VectorPtr * Heap) :=
  match T with
  | ArrayKind => flattenArray h rows vector decodedVector
  | MapKind => flattenMap h rows vector decodedVector
  end.

(** Whether a row is null, by a nulls buffer that may be absent. *)
Definition rowNull (nulls : BufferPtr bool) (row : Z) : option bool :=
  match nulls with
  | Some raw => isBitNull raw row
  | None => Some false
  end.

(** The offset and the size of a row, resolved through the dictionary. *)
Definition rowOffsetSize (indices rawSizes rawOffsets : Buffer vector_size_t)
    (row : Z) : option (Z * Z) :=
  idx ← buf_read indices row;
  size ← buf_read rawSizes idx;
  offset ← buf_read rawOffsets idx;
  Some (offset, size).

Definition decodedOffsetSize (T : VectorKind) (h : Heap) (d : DecodedVector)
    (row : Z) : option (Z * Z) :=
  '(rawSizes, rawOffsets) ← rawSizesOffsets T h (base d);
  rowOffsetSize (indices d) rawSizes rawOffsets row.

(** A row the loops can treat: it is null, or it is not and its offset and
    size can be read and delimit a range of element positions. *)
Definition rowReady (nulls : BufferPtr bool)
    (indices rawSizes rawOffsets : Buffer vector_size_t) (r : nat) : Prop :=
  rowNull nulls (Z.of_nat r) = Some true
  \/ (rowNull nulls (Z.of_nat r) = Some false
      /\ exists offset size,
           rowOffsetSize indices rawSizes rawOffsets (Z.of_nat r)
             = Some (offset, size)
           /\ 0 <= offset /\ 0 <= size /\ offset + size <= INT32_MAX).

(** The number of elements of a row: its size, or nothing when it is
    null. *)
Definition rowCount (nulls : BufferPtr bool)
    (indices rawSizes rawOffsets : Buffer vector_size_t) (r : nat) : Z :=
  match rowNull nulls (Z.of_nat r) with
  | Some false =>
      default 0 (snd <$> rowOffsetSize indices rawSizes rawOffsets (Z.of_nat r))
  | _ => 0
  end.

Definition totalCount (nulls : BufferPtr bool)
    (indices rawSizes rawOffsets : Buffer vector_size_t) (rs : list nat) : Z :=
  foldr (fun r acc => rowCount nulls indices rawSizes rawOffsets r + acc) 0 rs.

(** The selected rows that are not null. *)
Definition nonNullSelected (rows : SelectivityVector) (d : DecodedVector)
  : list nat :=
  filter (fun r => isNullAt d (Z.of_nat r) = Some false) (selectedRows rows).

(** The sum of what a buffer holds at the rows [rs]. *)
Definition sumAt (b : Buffer vector_size_t) (rs : list nat) : option Z :=
  foldr (fun r acc => x ← buf_read b (Z.of_nat r); s ← acc; Some (x + s))
    (Some 0) rs.

(** The buffers of an array or map vector and its children. *)
Definition outputBuffers (h : Heap) (p : VectorPtr)
  : option (BufferPtr bool * Z * Buffer vector_size_t * Buffer vector_size_t) :=
  match deref h p with
  | Some (ArrayVector nulls size offsets sizes _) =>
      Some (nulls, size, offsets, sizes)
  | Some (MapVector nulls size offsets sizes _ _) =>
      Some (nulls, size, offsets, sizes)
  | _ => None
  end.

Definition children (h : Heap) (p : VectorPtr) : list VectorPtr :=
  match deref h p with
  | Some (ArrayVector _ _ _ _ elements) => [elements]
  | Some (MapVector _ _ _ _ mapKeys mapValues) => [mapKeys; mapValues]
  | _ => []
  end.

(** A dictionary-encoded array or map, as [flatten] expects it: the base
    is a vector of kind [T], every selected row is null or resolves to a
    range of elements, and the ranges of the selected rows together count
    no more elements than a vector can hold. *)
Record WellFormed (T : VectorKind) (h : Heap) (rows : SelectivityVector)
    (d : DecodedVector) : Prop := mkWellFormed {
  wf_dictionary : isIdentityMapping d = false;
  wf_base : exists rawSizes rawOffsets,
    rawSizesOffsets T h (base d) = Some (rawSizes, rawOffsets)
    /\ (forall r, r ∈ selectedRows rows ->
          rowReady (decodedNulls d) (indices d) rawSizes rawOffsets r)
    /\ totalCount (decodedNulls d) (indices d) rawSizes rawOffsets
         (selectedRows rows) <= INT32_MAX
}.

(** *** A small input

    An array vector of three rows over six elements, [[1,2], [3,4,5], [6]],
    under a dictionary of four rows with indices [2,0,2,1] whose row 1 is
    null, and the selection of rows 0, 1 and 3 out of five. *)
Definition exampleHeap : Heap :=
  [ FlatVector None 6 [Some 1; Some 2; Some 3; Some 4; Some 5; Some 6];
    ArrayVector None 3 [Some 0; Some 2; Some 5] [Some 2; Some 3; Some 1] (ptr 0);
    DictionaryVector (Some [Some true; Some false; Some true; Some true])
      [Some 2; Some 0; Some 2; Some 1] 4 (ptr 1) ].

Definition exampleDecoded : DecodedVector :=
  mkDecodedVector (ptr 1) [Some 2; Some 0; Some 2; Some 1] false
    (Some [Some true; Some false; Some true; Some true]).

Definition exampleRows : SelectivityVector :=
  mkSelectivityVector [true; true; false; true; false].

(** The same array decoded without a dictionary. *)
Definition exampleIdentity : DecodedVector :=
  mkDecodedVector (ptr 1) [Some 0; Some 1; Some 2] true None.

(** *** generateSet *)

(** [SetWithNull<T>] of LambdaFunctionUtil.h: the values met and whether a
    null was met. *)
Record SetWithNull : Type := mkSetWithNull { set : gset Z; hasNull : bool }.

(** The body of the loop of [generateSet] run [n] times from position [i],
    over the nulls and the values of a flat vector of elements. *)
Fixpoint generateSetLoop (n : nat) (i : Z) (nulls : BufferPtr bool)
    (values : Buffer Z) (rightSet : SetWithNull) : option SetWithNull :=
  match n with
  | O => Some rightSet
  | S n' =>
      isNull ← rowNull nulls i;
      rightSet' ←
        (if (isNull : bool) then Some (mkSetWithNull (set rightSet) true)
         else
           v ← buf_read values i;
           Some (mkSetWithNull ({[v]} ∪ set rightSet) (hasNull rightSet)));
      generateSetLoop n' (i + 1) nulls values rightSet'
  end.

(** [generateSet], for elements held in a flat vector. [reset] is
    [SetWithNull::reset], which LambdaFunctionUtil.h defines. *)
Definition generateSet (reset : SetWithNull -> SetWithNull) (h : Heap)
    (arrayVector arrayElements : VectorPtr) (idx : vector_size_t)
    (rightSet : SetWithNull) : option SetWithNull :=
  array ← deref h arrayVector;
  match array with
  | ArrayVector _ _ offsets sizes _ =>
      size ← buf_read sizes idx;
      offset ← buf_read offsets idx;
      elements ← deref h arrayElements;
      match elements with
      | FlatVector nulls _ values =>
          _ ← int32_add offset size;
          generateSetLoop (Z.to_nat size) offset nulls values (reset rightSet)
      | _ => None
      end
  | _ => None
  end.

End LambdaFunctionUtil.

(** ** DuckWrapper.cpp *)

Module DuckWrapper.

Inductive LogicalTypeId : Type :=
  | BOOLEAN | TINYINT | SMALLINT | INTEGER | BIGINT | HUGEINT
  | FLOAT | DOUBLE | DECIMAL | VARCHAR | DATE | TIMESTAMP
  | OTHER_LOGICAL_TYPE.

Inductive PhysicalType : Type :=
  | BOOL | INT8 | INT16 | INT32 | INT64 | INT128
  | PHYSICAL_FLOAT | PHYSICAL_DOUBLE | PHYSICAL_VARCHAR | OTHER_PHYSICAL_TYPE.

(** [duckdb::LogicalType]: the type id, the physical type that stores it and,
    for a DECIMAL, its width and scale. *)
Record LogicalType : Type := mkLogicalType {
  id : LogicalTypeId;
  InternalType : PhysicalType;
  decimalWidth : Z;
  decimalScale : Z
}.

Inductive VectorType : Type :=
  | FLAT_VECTOR | DICTIONARY_VECTOR | CONSTANT_VECTOR | SEQUENCE_VECTOR.

Definition LogicalTypeId_eqb (a b : LogicalTypeId) : bool :=
  match a, b with
  | BOOLEAN, BOOLEAN | TINYINT, TINYINT | SMALLINT, SMALLINT
  | INTEGER, INTEGER | BIGINT, BIGINT | HUGEINT, HUGEINT | FLOAT, FLOAT
  | DOUBLE, DOUBLE | DECIMAL, DECIMAL | VARCHAR, VARCHAR | DATE, DATE
  | TIMESTAMP, TIMESTAMP | OTHER_LOGICAL_TYPE, OTHER_LOGICAL_TYPE => true
  | _, _ => false
  end.

(** The type a column of DuckDB type [t] has on the Velox side
    ([toVeloxType], or [DECIMAL(width, scale)] for a decimal). *)
Inductive TypePtr : Type :=
  | toVeloxType (t : LogicalType)
  | DECIMAL_TYPE (width scale : Z).

Section Conversion.

(** The element types of the two engines and what DuckConversion.h gives
    for them: [OP::toVelox], and the reading of a DuckDB value in place as a
    Velox value where the two layouts agree. [zero] is the content of a
    vector fresh from [BaseVector::create]. *)
Variables DuckValue VeloxValue : Type.

Record Conversion : Type := mkConversion {
  toVelox : DuckValue -> VeloxValue
}.

Variable inPlace : DuckValue -> VeloxValue.
Variable zero : VeloxValue.

(** [duckdb::LogicalType::ToString], DuckDB's rendering of a type, which the
    error messages quote. *)
Variable ToString : LogicalType -> string.

(** A DuckDB validity mask: absent when every row is valid. *)
Definition ValidityMask : Type := option (list bool).

Definition AllValid (m : ValidityMask) : bool :=
  match m with None => true | Some _ => false end.

Definition RowIsValid (m : ValidityMask) (i : nat) : bool :=
  match m with
  | None => true
  | Some mask => default false (mask !! i)
  end.

(** A DuckDB vector. The data of a flat vector has a slot per element of
    its buffer, [None] where DuckDB has written nothing; a dictionary vector
    is a selection over a child and has the child's type. *)
Inductive DuckVector : Type :=
  | DuckFlat (type : LogicalType) (validity : ValidityMask)
      (data : list (option DuckValue))
  | DuckDictionary (child : DuckVector) (selection : list Z)
  | DuckOther (vectorType : VectorType) (type : LogicalType).

Definition GetVectorType (v : DuckVector) : VectorType :=
  match v with
  | DuckFlat _ _ _ => FLAT_VECTOR
  | DuckDictionary _ _ => DICTIONARY_VECTOR
  | DuckOther vt _ => vt
  end.

Fixpoint GetType (v : DuckVector) : LogicalType :=
  match v with
  | DuckFlat t _ _ => t
  | DuckDictionary child _ => GetType child
  | DuckOther _ t => t
  end.

(** [selection.get_index(i)]. *)
Definition get_index (selection : list Z) (i : nat) : Z :=
  default 0 (selection !! i).

(** The vectors the conversion builds. A slot of [values] is [None] when
    it shows memory DuckDB has not written. *)
Inductive VeloxVector : Type :=
  | FlatVector (type : option TypePtr) (nulls : option (list bool))
      (size : nat) (values : list (option VeloxValue))
  | DictionaryVector (nulls : option (list bool)) (indices : list Z)
      (size : nat) (base : VeloxVector).

(** Modelled from the spec: [BaseVector::wrapInDictionary], which builds a
    dictionary vector of [size] rows over [base]. *)
Definition wrapInDictionary (nulls : option (list bool)) (indices : list Z)
    (size : nat) (base : VeloxVector) : VeloxVector :=
  DictionaryVector nulls indices size base.

(** Modelled from the spec: reading row [i] of a vector; a dictionary
    resolves it through [indices[i]] into its base. *)
Fixpoint valueAt (v : VeloxVector) (i : nat) : option VeloxValue :=
  match v with
  | FlatVector _ _ size values =>
      if (i <? size)%nat then mjoin (values !! i) else None
  | DictionaryVector _ indices size base =>
      if (i <? size)%nat then
        idx ← indices !! i;
        if decide (0 <= idx) then valueAt base (Z.to_nat idx) else None
      else None
  end.

Definition vectorSize (v : VeloxVector) : nat :=
  match v with
  | FlatVector _ _ size _ => size
  | DictionaryVector _ _ size _ => size
  end.

Definition readAll (v : VeloxVector) : list (option VeloxValue) :=
  (fun i => valueAt v i) <$> seq 0 (vectorSize v).

(** [bits::isBitSet] on the bitmap of used dictionary slots. *)
Definition isBitSet (bitmap : list bool) (i : nat) : bool :=
  default false (bitmap !! i).

(** The loop that computes [maxIndex] from the first [size] entries of the
    selection. *)
Definition maxIndexOf (selection : list Z) (size : nat) : Z :=
  foldl (fun maxIndex i => Z.max maxIndex (get_index selection i)) 0 (seq 0 size).

(** The bitmap of used values: [maxIndex + 1] cleared bits, then the bit of
    every selected index set. *)
Definition usedValues (selection : list Z) (size : nat) (maxIndex : Z)
  : list bool :=
  foldl (fun bitmap i => <[Z.to_nat (get_index selection i) := true]> bitmap)
    (replicate (Z.to_nat (maxIndex + 1)) false) (seq 0 size).

(** The row-by-row copy into a vector fresh from [BaseVector::create],
    followed by the copy of the validity mask when there is one. *)
Definition copyRows (OP : Conversion) (veloxType : TypePtr) (size : nat)
    (duckValidity : ValidityMask) (duckData : list (option DuckValue))
    (validity : option (list bool)) : VeloxVector :=
  let values :=
    (fun i =>
       if RowIsValid duckValidity i
          && match validity with None => true | Some bm => isBitSet bm i end
       then toVelox OP <$> mjoin (duckData !! i)
       else Some zero) <$> seq 0 size in
  let nulls :=
    match duckValidity with
    | None => None
    | Some mask => Some (take size mask)
    end in
  FlatVector (Some veloxType) nulls size values.

(** The zero-copy case: views over DuckDB's data and validity. *)
Definition viewRows (type : option TypePtr) (size : nat)
    (duckValidity : ValidityMask) (duckData : list (option DuckValue))
  : VeloxVector :=
  let valuesView :=
    (fun i => inPlace <$> mjoin (duckData !! i)) <$> seq 0 size in
  let nullsView :=
    match duckValidity with
    | None => None
    | Some mask => Some (take size mask)
    end in
  FlatVector type nullsView size valuesView.

Definition needsCopy (t : LogicalType) : bool :=
  LogicalTypeId_eqb (id t) HUGEINT
  || LogicalTypeId_eqb (id t) TIMESTAMP
  || LogicalTypeId_eqb (id t) VARCHAR.

Definition VectorTypeToString (vt : VectorType) : string :=
  match vt with
  | FLAT_VECTOR => "FLAT"
  | DICTIONARY_VECTOR => "DICTIONARY"
  | CONSTANT_VECTOR => "CONSTANT"
  | SEQUENCE_VECTOR => "SEQUENCE"
  end.

Definition VELOX_UNSUPPORTED {A : Type} (message : string) : Outcome A :=
  Throws (VeloxUnsupported message).

Fixpoint convert (OP : Conversion) (duckVector : DuckVector)
    (veloxType : TypePtr) (size : nat) (validity : option (list bool))
  : Outcome VeloxVector :=
  match duckVector with
  | DuckFlat type duckValidity duckData =>
      if needsCopy type then
        Returns (copyRows OP veloxType size duckValidity duckData validity)
      else
        Returns (viewRows None size duckValidity duckData)
  | DuckDictionary child selection =>
      let maxIndex := maxIndexOf selection size in
      base ←
        (if needsCopy (GetType child) then
           convert OP child veloxType (Z.to_nat (maxIndex + 1))
             (Some (usedValues selection size maxIndex))
         else
           convert OP child veloxType (Z.to_nat (maxIndex + 1)) None);
      let indices := take size selection in
      Returns (wrapInDictionary None indices size base)
  | DuckOther vectorType _ =>
      VELOX_UNSUPPORTED
        ("Unsupported DuckDB vector encoding: " ++ VectorTypeToString vectorType)
  end.

Fixpoint convertDuckToVeloxDecimal (OP : Conversion) (duckVector : DuckVector)
    (veloxType : TypePtr) (size : nat) (validity : option (list bool))
  : Outcome VeloxVector :=
  match duckVector with
  | DuckFlat type duckValidity duckData =>
      match InternalType type with
      | INT16 | INT32 =>
          Returns (copyRows OP veloxType size duckValidity duckData validity)
      | INT64 | INT128 =>
          Returns (viewRows (Some veloxType) size duckValidity duckData)
      | _ =>
          VELOX_UNSUPPORTED
            ("Unsupported DuckDB LogicalType:" ++ ToString type
             ++ " to ShortDecimal conversion")
      end
  | DuckDictionary child selection =>
      let maxIndex := maxIndexOf selection size in
      convertDuckToVeloxDecimal OP child veloxType size None
  | DuckOther vectorType _ =>
      VELOX_UNSUPPORTED
        ("Unsupported DuckDB vector encoding: " ++ VectorTypeToString vectorType)
  end.

(** The conversions of DuckConversion.h that [toVeloxVector] picks from. *)
Variables DuckNumericConversion DuckHugeintConversion DuckStringConversion
  DuckDateConversion DuckTimestampConversion DuckShortDecimalConversion
  DuckLongDecimalConversion : Conversion.

Definition toVeloxVector (size : nat) (duckVector : DuckVector)
    (veloxType : TypePtr) : Outcome VeloxVector :=
  let type := GetType duckVector in
  match id type with
  | BOOLEAN | TINYINT | SMALLINT | INTEGER | BIGINT | FLOAT | DOUBLE =>
      convert DuckNumericConversion duckVector veloxType size None
  | HUGEINT => convert DuckHugeintConversion duckVector veloxType size None
  | DECIMAL =>
      let veloxDecimalType := DECIMAL_TYPE (decimalWidth type) (decimalScale type) in
      match InternalType type with
      | INT16 | INT32 | INT64 =>
          convertDuckToVeloxDecimal DuckShortDecimalConversion duckVector
            veloxDecimalType size None
      | INT128 =>
          convertDuckToVeloxDecimal DuckLongDecimalConversion duckVector
            veloxDecimalType size None
      | _ =>
          Throws (StdRuntimeError
                    "unrecognized internal type for decimal (this shouldn't happen")
      end
  | VARCHAR => convert DuckStringConversion duckVector veloxType size None
  | DATE => convert DuckDateConversion duckVector veloxType size None
  | TIMESTAMP => convert DuckTimestampConversion duckVector veloxType size None
  | OTHER_LOGICAL_TYPE =>
      Throws (StdRuntimeError
                ("Unsupported vector type for conversion: " ++ ToString type))
  end.

End Conversion.

(** *** A small column

    Integers stand for the values of both engines, every conversion being
    the identity: a dictionary column over the flat child [[10, 20, 30]]. *)
Definition identityConversion : Conversion Z Z := mkConversion Z Z (fun x => x).

(** The name of a type's id, for [ToString] in the examples. *)
Definition idName (t : LogicalType) : string :=
  match id t with
  | BOOLEAN => "BOOLEAN" | TINYINT => "TINYINT" | SMALLINT => "SMALLINT"
  | INTEGER => "INTEGER" | BIGINT => "BIGINT" | HUGEINT => "HUGEINT"
  | FLOAT => "FLOAT" | DOUBLE => "DOUBLE" | DECIMAL => "DECIMAL"
  | VARCHAR => "VARCHAR" | DATE => "DATE" | TIMESTAMP => "TIMESTAMP"
  | OTHER_LOGICAL_TYPE => "INVALID"
  end.

Definition toVeloxVectorZ (size : nat) (duckVector : DuckVector Z)
    (veloxType : TypePtr) : Outcome (VeloxVector Z) :=
  toVeloxVector Z Z (fun x => x) 0 idName
    identityConversion identityConversion identityConversion
    identityConversion identityConversion identityConversion
    identityConversion size duckVector veloxType.

Definition integerType : LogicalType := mkLogicalType INTEGER INT32 0 0.

Definition decimalType (p : PhysicalType) : LogicalType :=
  mkLogicalType DECIMAL p 10 2.

Definition dictionaryColumn (t : LogicalType) (selection : list Z)
  : DuckVector Z :=
  DuckDictionary Z (DuckFlat Z t None [Some 10; Some 20; Some 30]) selection.

(** The rows of a converted column, read in order. *)
Definition rowsOf (o : Outcome (VeloxVector Z)) : option (list (option Z)) :=
  match o with
  | Returns v => Some (readAll Z v)
  | _ => None
  end.

(** *** What a DuckDB vector holds *)

Section Reading.

Variables DuckValue VeloxValue : Type.
Variable inPlace : DuckValue -> VeloxValue.
Variable zero : VeloxValue.
Variable OP : Conversion DuckValue VeloxValue.

(** The Velox value of row [i] of a DuckDB vector, the selections resolved
    down to the flat vector: the slot read in place where the layouts agree,
    and otherwise its conversion, or the zero of a fresh vector when the row
    is not valid. *)
Fixpoint expectedAt (v : DuckVector DuckValue) (i : nat) : option VeloxValue :=
  match v with
  | DuckFlat _ type validity data =>
      if needsCopy type then
        if RowIsValid validity i
        then toVelox DuckValue VeloxValue OP <$> mjoin (data !! i)
        else Some zero
      else inPlace <$> mjoin (data !! i)
  | DuckDictionary _ child selection =>
      idx ← selection !! i;
      if decide (0 <= idx) then expectedAt child (Z.to_nat idx) else None
  | DuckOther _ _ _ => None
  end.

(** Whether row [i] of a DuckDB vector is null, the selections resolved. *)
Fixpoint expectedNullAt (v : DuckVector DuckValue) (i : nat) : option bool :=
  match v with
  | DuckFlat _ _ validity _ => Some (negb (RowIsValid validity i))
  | DuckDictionary _ child selection =>
      idx ← selection !! i;
      if decide (0 <= idx) then expectedNullAt child (Z.to_nat idx) else None
  | DuckOther _ _ _ => None
  end.

(** Modelled from the spec: whether row [i] of a vector is null, by its
    validity bitmap (absent when there is no null) and, for a dictionary,
    through its indices. *)
Fixpoint isNullAt (v : VeloxVector VeloxValue) (i : nat) : option bool :=
  match v with
  | FlatVector _ _ nulls _ _ =>
      match nulls with
      | None => Some false
      | Some bitmap => Some (negb (default false (bitmap !! i)))
      end
  | DictionaryVector _ nulls indices _ base =>
      if match nulls with
         | None => false
         | Some bitmap => negb (default false (bitmap !! i))
         end
      then Some true
      else
        idx ← indices !! i;
        if decide (0 <= idx) then isNullAt base (Z.to_nat idx) else None
  end.

(** A vector of flat and dictionary encodings only, each selection holding
    an index that is not negative for every row asked of it. *)
Fixpoint wellSelected (v : DuckVector DuckValue) (size : nat) : Prop :=
  match v with
  | DuckFlat _ _ _ _ => True
  | DuckDictionary _ child selection =>
      (forall i, (i < size)%nat -> exists idx, selection !! i = Some idx /\ 0 <= idx)
      /\ wellSelected child (Z.to_nat (maxIndexOf selection size + 1))
  | DuckOther _ _ _ => False
  end.

(** The vector under all the selections. *)
Fixpoint innermost (v : DuckVector DuckValue) : DuckVector DuckValue :=
  match v with
  | DuckDictionary _ child _ => innermost child
  | _ => v
  end.

(** The rows the copy may read, when it is given a bitmap of used slots. *)
Definition usedOk (v : DuckVector DuckValue) (validity : option (list bool))
    (i : nat) : Prop :=
  match v, validity with
  | DuckFlat _ _ _ _, Some bitmap => isBitSet bitmap i = true
  | _, _ => True
  end.

End Reading.

(** A column of 128-bit integers, which are copied row by row: a
    dictionary over a dictionary over the flat child [[10, 20, 30]] whose
    row 1 is not valid. *)
Definition hugeintType : LogicalType := mkLogicalType HUGEINT INT128 0 0.

Definition nestedColumn : DuckVector Z :=
  DuckDictionary Z
    (DuckDictionary Z
       (DuckFlat Z hugeintType (Some [true; false; true])
          [Some 10; Some 20; Some 30])
       [1; 2; 0])
    [2; 0; 2; 1].

End DuckWrapper.

(** * Properties of the decimal header *)

Section DecimalProperties.

Import DecimalH.

Local Open Scope string_scope.

Lemma wrap128_fits (z : Z) : fitsInt128 z = true -> wrap128 z = z.
Proof.
  unfold fitsInt128, INT128_MIN, INT128_MAX, wrap128. intros H.
  apply andb_true_iff in H as [Hlo Hhi].
  apply Z.leb_le in Hlo, Hhi.
  rewrite Z.mod_small; lia.
Qed.

Lemma wrap128_range (z : Z) : fitsInt128 (wrap128 z) = true.
Proof.
  unfold fitsInt128, INT128_MIN, INT128_MAX, wrap128.
  pose proof (Z.mod_pos_bound (z + 2 ^ 127) (2 ^ 128) ltac:(lia)) as Hb.
  apply andb_true_iff. split; apply Z.leb_le; lia.
Qed.

Lemma builtin_overflow_flag (z : Z) :
  snd (builtin_overflow z) = negb (fitsInt128 z).
Proof.
  unfold builtin_overflow; simpl.
  destruct (fitsInt128 z) eqn:Hfit.
  - rewrite wrap128_fits by done. by rewrite Z.eqb_refl.
  - destruct (Z.eqb_spec (wrap128 z) z) as [Heq|]; [|done].
    pose proof (wrap128_range z) as Hr. rewrite Heq in Hr. congruence.
Qed.

Lemma checked_overflow (z : Z) :
  (let '(r, overflow) := builtin_overflow z in
   VELOX_CHECK (negb overflow) (mkInt128 r)) = checked z.
Proof.
  pose proof (builtin_overflow_flag z) as Hflag.
  unfold checked. destruct (builtin_overflow z) as [r o] eqn:Hb. simpl in Hflag.
  subst o. rewrite negb_involutive. unfold VELOX_CHECK.
  destruct (fitsInt128 z) eqn:Hfit; [|done].
  unfold builtin_overflow in Hb. inversion Hb. by rewrite wrap128_fits.
Qed.

Lemma Int128_add_checked (a b : Int128) :
  Int128_add a b = checked (value a + value b).
Proof. apply checked_overflow. Qed.

Lemma Int128_sub_checked (a b : Int128) :
  Int128_sub a b = checked (value a - value b).
Proof. apply checked_overflow. Qed.

Lemma Int128_mul_checked (a b : Int128) :
  Int128_mul a b = checked (value a * value b).
Proof. apply checked_overflow. Qed.

(** C9: [Int128] addition, subtraction and multiplication return the exact
    integer result when it lies in the signed 128-bit range and fail the
    [VELOX_CHECK] exactly when it does not. Nothing but that range is
    looked at: a sum of 39 digits, beyond any declared precision, is
    returned. *)
Theorem C9_int128_arithmetic_checked_on_128_bits_only (a b : Int128) :
  Int128_add a b
    = (if fitsInt128 (value a + value b)
       then Returns (mkInt128 (value a + value b))
       else Throws (VeloxRuntimeError EmptyString))
  /\ Int128_sub a b
    = (if fitsInt128 (value a - value b)
       then Returns (mkInt128 (value a - value b))
       else Throws (VeloxRuntimeError EmptyString))
  /\ Int128_mul a b
    = (if fitsInt128 (value a * value b)
       then Returns (mkInt128 (value a * value b))
       else Throws (VeloxRuntimeError EmptyString))
  /\ (forall z, fitsInt128 z = true <-> - 2 ^ 127 <= z <= 2 ^ 127 - 1)
  /\ Int128_add (mkInt128 (10 ^ 38 - 1)) (mkInt128 1) = Returns (mkInt128 (10 ^ 38)).
Proof.
  rewrite Int128_add_checked, Int128_sub_checked, Int128_mul_checked.
  do 3 (split; [done|]). split; [|done].
  intros z. unfold fitsInt128, INT128_MIN, INT128_MAX.
  rewrite andb_true_iff, !Z.leb_le. lia.
Qed.

(** C8: [Decimal::operator==] holds exactly when the unscaled values, the
    precisions and the scales are the same; 12300 at scale 2 and 1230 at
    scale 1 are both 123.00 and are not equal under it. *)
Theorem C8_decimal_equality_compares_the_triple (a b : Decimal) :
  (Decimal_eq a b = true
   <-> value (unscaledValue_ a) = value (unscaledValue_ b)
       /\ precision_ a = precision_ b
       /\ scale_ a = scale_ b)
  /\ Decimal_eq (mkDecimal (mkInt128 12300) 5 2) (mkDecimal (mkInt128 1230) 4 1)
     = false
  /\ 12300 * 10 ^ 1 = 1230 * 10 ^ 2.
Proof.
  split; [|done].
  unfold Decimal_eq, Int128_eq, getUnscaledValue, getPrecision, getScale.
  rewrite !andb_true_iff, !Z.eqb_eq. tauto.
Qed.

(** C10: [operator!=], [operator<], [operator<=] and [operator>] of
    [Decimal] are the constant [true]; so [d != d] holds together with
    [d == d], and [!=] is not the negation of [==]. *)
Theorem C10_decimal_comparisons_are_constant_true :
  (forall a b : Decimal,
     Decimal_ne a b = true /\ Decimal_lt a b = true
     /\ Decimal_le a b = true /\ Decimal_gt a b = true)
  /\ (forall d : Decimal, Decimal_ne d d = true /\ Decimal_eq d d = true)
  /\ (exists a b : Decimal, Decimal_ne a b <> negb (Decimal_eq a b)).
Proof.
  split; [done|]. split.
  - intros d. split; [done|].
    unfold Decimal_eq, Int128_eq, getUnscaledValue, getPrecision, getScale.
    by rewrite !Z.eqb_refl.
  - exists (mkDecimal (mkInt128 0) 1 0), (mkDecimal (mkInt128 0) 1 0). done.
Qed.

(** C2: a string of 39 digits, a one and 38 zeros, is not refused:
    [parseStringToDecimal] returns the decimal of precision 39. *)
Theorem C2_thirty_nine_digits_are_accepted :
  digitCount "100000000000000000000000000000000000000" = 39%nat
  /\ parseStringToDecimal 64 "100000000000000000000000000000000000000"
     = Returns (mkDecimal (mkInt128 (10 ^ 38)) 39 0).
Proof. split; vm_compute; reflexivity. Qed.

End DecimalProperties.

(** * Properties of the decimal parser *)

Section ParserProperties.

Import DecimalH.

Local Open Scope string_scope.

(** ** One run of the loop body *)

Lemma isdigit_value (c : ascii) :
  isdigit c = true -> 0 <= Z.of_nat (nat_of_ascii c) - 48 <= 9.
Proof.
  unfold isdigit. rewrite andb_true_iff, !Z.leb_le. lia.
Qed.

Lemma isdigit_not_sign (c : ascii) :
  isdigit c = true -> char_eqb c "-" || char_eqb c "+" = false.
Proof.
  unfold char_eqb. intros Hd.
  destruct (Ascii.eqb_spec c "-") as [->|_]; [done|].
  destruct (Ascii.eqb_spec c "+") as [->|_]; done.
Qed.

Lemma isdigit_not_dot (c : ascii) : isdigit c = true -> char_eqb c "." = false.
Proof.
  unfold char_eqb. intros Hd. destruct (Ascii.eqb_spec c ".") as [->|_]; done.
Qed.

Lemma parse_step_dot (neg : bool) (st : ParseState) :
  parse_step neg "." st
  = Returns (mkParseState (result st) (precision st) (scale st) true
               (uint8_incr (pos st))).
Proof. reflexivity. Qed.

Lemma parse_step_bad (neg : bool) (c : ascii) (st : ParseState) :
  allowedChar c = false ->
  parse_step neg c st = Throws (VeloxUserError "Invalid decimal string").
Proof.
  unfold allowedChar, parse_step. intros H.
  apply orb_false_iff in H as [Hd Hdot]. by rewrite Hdot, Hd.
Qed.

Lemma parse_step_digit (neg : bool) (c : ascii) (st : ParseState) :
  isdigit c = true ->
  parse_step neg c st
  = if fitsInt128 (value (result st) * 10)
       && fitsInt128 (accumulate neg c (value (result st)))
    then Returns (mkParseState
                    (mkInt128 (accumulate neg c (value (result st))))
                    (uint8_incr (precision st))
                    (if hasScale st then uint8_incr (scale st) else scale st)
                    (hasScale st)
                    (uint8_incr (pos st)))
    else Throws (VeloxRuntimeError EmptyString).
Proof.
  intros Hd. unfold parse_step. rewrite (isdigit_not_dot c Hd), Hd. simpl negb.
  cbv iota. rewrite Int128_mul_checked. unfold checked, exponent, accumulate.
  simpl value.
  destruct neg;
    (destruct (fitsInt128 (value (result st) * 10)); simpl; [|done]);
    rewrite ?Int128_sub_checked, ?Int128_add_checked; unfold checked; simpl value;
    match goal with |- context [fitsInt128 ?z] => destruct (fitsInt128 z) end;
    done.
Qed.

Lemma parse_step_pos (neg : bool) (c : ascii) (st st' : ParseState) :
  parse_step neg c st = Returns st' -> pos st' = uint8_incr (pos st).
Proof.
  destruct (char_eqb c ".") eqn:Hdot.
  - unfold parse_step. rewrite Hdot. by intros [= <-].
  - destruct (isdigit c) eqn:Hd.
    + rewrite parse_step_digit by done.
      destruct (_ && _); [by intros [= <-]|done].
    + rewrite parse_step_bad; [done|]. unfold allowedChar. by rewrite Hd, Hdot.
Qed.

Lemma parse_step_not_out_of_fuel (neg : bool) (c : ascii) (st : ParseState) :
  parse_step neg c st <> OutOfFuel.
Proof.
  destruct (char_eqb c ".") eqn:Hdot.
  - unfold parse_step. by rewrite Hdot.
  - destruct (isdigit c) eqn:Hd.
    + rewrite parse_step_digit by done. by destruct (_ && _).
    + rewrite parse_step_bad; [done|]. unfold allowedChar. by rewrite Hd, Hdot.
Qed.

(** ** The loop and its unrolling *)

Lemma uint8_incr_small (n : Z) : 0 <= n < 255 -> uint8_incr n = n + 1.
Proof. intros H. unfold uint8_incr. apply Z.mod_small. lia. Qed.

Lemma uint8_incr_range (n : Z) : 0 <= uint8_incr n < 256.
Proof. unfold uint8_incr. apply Z.mod_pos_bound. lia. Qed.

(** On a string of at most 255 characters [pos] never wraps and the loop is
    the run of its body over the characters from [pos] on. *)
Lemma parse_loop_unrolls (fuel : nat) (v : list ascii) (neg : bool) :
  forall st : ParseState,
    (length v <= 255)%nat ->
    0 <= pos st ->
    (length v - Z.to_nat (pos st) < fuel)%nat ->
    parse_loop fuel v neg st = parse_chars neg (drop (Z.to_nat (pos st)) v) st.
Proof.
  induction fuel as [|fuel IH]; intros st Hlen Hpos Hfuel; [lia|].
  simpl. destruct (Z.ltb_spec (pos st) (Z.of_nat (length v))) as [Hlt|Hge].
  - destruct (lookup_lt_is_Some_2 v (Z.to_nat (pos st)) ltac:(lia)) as [c Hc].
    rewrite Hc, (drop_S _ _ _ Hc). simpl.
    destruct (parse_step neg c st) as [st'| |] eqn:Hstep; try done.
    simpl. apply parse_step_pos in Hstep.
    rewrite uint8_incr_small in Hstep by lia.
    rewrite IH by lia. by rewrite Hstep, Z2Nat.inj_add, Nat.add_1_r by lia.
  - by rewrite drop_ge by lia.
Qed.

(** On a string of 256 characters or more the loop has no normal exit. *)
Lemma parse_loop_long_never_returns (fuel : nat) (v : list ascii) (neg : bool) :
  forall st st' : ParseState,
    (256 <= length v)%nat ->
    0 <= pos st < 256 ->
    parse_loop fuel v neg st <> Returns st'.
Proof.
  induction fuel as [|fuel IH]; intros st st' Hlen Hpos; [done|].
  simpl. destruct (Z.ltb_spec (pos st) (Z.of_nat (length v))) as [Hlt|Hge]; [|lia].
  destruct (lookup_lt_is_Some_2 v (Z.to_nat (pos st)) ltac:(lia)) as [c Hc].
  rewrite Hc. destruct (parse_step neg c st) as [st1| |] eqn:Hstep; try done.
  simpl. apply IH; [done|]. apply parse_step_pos in Hstep. rewrite Hstep.
  apply uint8_incr_range.
Qed.

Lemma parse_chars_not_out_of_fuel (neg : bool) (cs : list ascii) :
  forall st, parse_chars neg cs st <> OutOfFuel.
Proof.
  induction cs as [|c cs IH]; intros st; [done|]. simpl.
  pose proof (parse_step_not_out_of_fuel neg c st).
  destruct (parse_step neg c st); simpl; auto.
Qed.

(** More fuel changes nothing once the loop has an outcome. *)
Lemma parse_loop_mono (fuel : nat) (v : list ascii) (neg : bool) :
  forall (st : ParseState) (fuel' : nat),
    (fuel <= fuel')%nat ->
    parse_loop fuel v neg st <> OutOfFuel ->
    parse_loop fuel' v neg st = parse_loop fuel v neg st.
Proof.
  induction fuel as [|fuel IH]; intros st fuel' Hle Hout; [done|].
  destruct fuel' as [|fuel']; [lia|]. simpl in *.
  destruct (pos st <? Z.of_nat (length v))%Z; [|done].
  destruct (v !! Z.to_nat (pos st)) as [c|]; [|done].
  destruct (parse_step neg c st) as [st1| |]; simpl in *; try done.
  apply IH; [lia|done].
Qed.

(** ** The invariant of the loop *)

Lemma parse_step_inv (neg : bool) (c : ascii) (n : nat) (st st' : ParseState) :
  parseInv neg (S n) st ->
  parse_step neg c st = Returns st' ->
  parseInv neg n st'.
Proof.
  intros (Hscale & Hprec & Habs & Hsign) Hstep.
  destruct (char_eqb c ".") eqn:Hdot.
  - unfold parse_step in Hstep. rewrite Hdot in Hstep. injection Hstep as <-.
    unfold parseInv; simpl. repeat split; try lia; done.
  - destruct (isdigit c) eqn:Hd.
    + rewrite parse_step_digit in Hstep by done.
      destruct (_ && _); [|done]. injection Hstep as <-.
      pose proof (isdigit_value c Hd) as Hdv.
      unfold parseInv; simpl.
      rewrite (uint8_incr_small (precision st)) by lia.
      assert (Hpow : 10 ^ (precision st + 1) = 10 * 10 ^ precision st).
      { rewrite Z.pow_add_r by lia. lia. }
      rewrite Hpow. unfold accumulate.
      destruct (hasScale st); [rewrite uint8_incr_small by lia|];
        destruct neg; repeat split; lia.
    + rewrite parse_step_bad in Hstep; [done|].
      unfold allowedChar. by rewrite Hd, Hdot.
Qed.

Lemma parse_chars_inv (neg : bool) (cs : list ascii) :
  forall st st' : ParseState,
    parseInv neg (length cs) st ->
    parse_chars neg cs st = Returns st' ->
    parseInv neg 0 st'.
Proof.
  induction cs as [|c cs IH]; intros st st' Hinv Hrun; simpl in *.
  - by injection Hrun as <-.
  - destruct (parse_step neg c st) as [st1| |] eqn:Hstep; simpl in Hrun; try done.
    eapply IH; [|done]. by eapply parse_step_inv.
Qed.

(** A character that is neither a digit nor a dot stops the loop: with the
    validation error, or with an overflow met on the digits before it. *)
Lemma parse_chars_bad (neg : bool) (cs : list ascii) :
  forall st : ParseState,
    forallb allowedChar cs = false ->
    parse_chars neg cs st = Throws (VeloxUserError "Invalid decimal string")
    \/ parse_chars neg cs st = Throws (VeloxRuntimeError EmptyString).
Proof.
  induction cs as [|c cs IH]; intros st Hbad; [done|]. simpl in *.
  destruct (allowedChar c) eqn:Hc.
  - simpl in Hbad. unfold allowedChar in Hc.
    destruct (isdigit c) eqn:Hd.
    + rewrite parse_step_digit by done.
      destruct (_ && _); simpl; [by apply IH|by right].
    + simpl in Hc. unfold char_eqb in Hc. apply Ascii.eqb_eq in Hc as ->.
      rewrite parse_step_dot. simpl. by apply IH.
  - rewrite parse_step_bad by done. by left.
Qed.

(** Up to 38 digits never overflow 128 bits. *)
Lemma parse_chars_no_overflow (neg : bool) (cs : list ascii) :
  forall (st : ParseState) (m : string),
    parseInv neg (length cs) st ->
    precision st + Z.of_nat (digitsOf cs) <= 38 ->
    parse_chars neg cs st <> Throws (VeloxRuntimeError m).
Proof.
  induction cs as [|c cs IH]; intros st m Hinv Hdigits; [done|]. simpl.
  destruct (parse_step neg c st) as [st1|e|] eqn:Hstep; simpl.
  - apply IH; [by eapply parse_step_inv|].
    destruct (char_eqb c ".") eqn:Hdot.
    + unfold parse_step in Hstep. rewrite Hdot in Hstep. injection Hstep as <-.
      simpl. unfold digitsOf in *. rewrite filter_cons in Hdigits.
      case_decide; simpl in Hdigits; lia.
    + destruct (isdigit c) eqn:Hd.
      * rewrite parse_step_digit in Hstep by done.
        destruct (_ && _); [|done]. injection Hstep as <-. simpl.
        destruct Hinv as (? & ? & ? & ?).
        rewrite uint8_incr_small by lia.
        unfold digitsOf in *. rewrite filter_cons in Hdigits.
        case_decide; [|done]. simpl in Hdigits. lia.
      * rewrite parse_step_bad in Hstep; [done|].
        unfold allowedChar. by rewrite Hd, Hdot.
  - destruct (char_eqb c ".") eqn:Hdot.
    + unfold parse_step in Hstep. by rewrite Hdot in Hstep.
    + destruct (isdigit c) eqn:Hd.
      * rewrite parse_step_digit in Hstep by done.
        destruct Hinv as (Hscale & Hprec & Habs & Hsign).
        pose proof (isdigit_value c Hd) as Hdv.
        unfold digitsOf in Hdigits. rewrite filter_cons in Hdigits.
        case_decide; [|done]. simpl in Hdigits.
        assert (Hpow : 10 * 10 ^ precision st <= 10 ^ 38).
        { replace (10 * 10 ^ precision st) with (10 ^ (precision st + 1))
            by (rewrite Z.pow_add_r by lia; lia).
          apply Z.pow_le_mono_r; lia. }
        assert (Hfit1 : fitsInt128 (value (result st) * 10) = true).
        { unfold fitsInt128, INT128_MIN, INT128_MAX.
          apply andb_true_iff; split; apply Z.leb_le; lia. }
        assert (Hfit2 : fitsInt128 (accumulate neg c (value (result st))) = true).
        { unfold fitsInt128, INT128_MIN, INT128_MAX, accumulate.
          apply andb_true_iff; split; apply Z.leb_le; destruct neg; lia. }
        by rewrite Hfit1, Hfit2 in Hstep.
      * rewrite parse_step_bad in Hstep; [|unfold allowedChar; by rewrite Hd, Hdot].
        by injection Hstep as <-.
  - done.
Qed.

(** ** Leading zeros *)

Lemma erase_leading_zeros_length (v : list ascii) :
  (length (erase_leading_zeros v) <= length v)%nat.
Proof.
  induction v as [|c v IH]; simpl; [lia|].
  destruct (char_eqb c "0"); simpl; lia.
Qed.

Lemma erase_leading_zeros_bad (v : list ascii) :
  forallb allowedChar v = false ->
  forallb allowedChar (erase_leading_zeros v) = false.
Proof.
  induction v as [|c v IH]; simpl; [done|]. intros Hbad.
  destruct (char_eqb c "0") eqn:Hc; [|done].
  unfold char_eqb in Hc. apply Ascii.eqb_eq in Hc as ->. by apply IH.
Qed.

Lemma erase_leading_zeros_digits (v : list ascii) :
  (digitsOf (erase_leading_zeros v) <= digitsOf v)%nat.
Proof.
  induction v as [|c v IH]; simpl; [lia|].
  destruct (char_eqb c "0"); [|lia].
  unfold digitsOf in *. rewrite filter_cons. case_decide; simpl; lia.
Qed.

Lemma list_ascii_length (s : string) :
  length (list_ascii_of_string s) = String.length s.
Proof. induction s as [|c s IH]; simpl; congruence. Qed.

(** ** The whole loop, from its first character *)

Lemma parse_loop_returns_inv (fuel : nat) (v : list ascii) (neg : bool)
    (st : ParseState) :
  parse_loop fuel v neg parseStart = Returns st -> parseInv neg 0 st.
Proof.
  intros Hrun. destruct (le_lt_dec 256 (length v)) as [Hlong|Hshort].
  - by apply parse_loop_long_never_returns in Hrun.
  - pose proof (parse_loop_mono fuel v neg parseStart (fuel + S (length v))) as Hmono.
    rewrite Hrun in Hmono. specialize (Hmono ltac:(lia) ltac:(done)).
    rewrite parse_loop_unrolls in Hmono by (simpl; lia).
    change (drop _ v) with v in Hmono.
    eapply parse_chars_inv; [|done].
    unfold parseInv, parseStart, Int128_default; simpl. destruct neg; lia.
Qed.

Lemma parse_loop_on_bad (fuel : nat) (v : list ascii) (neg : bool) :
  (length v <= 255)%nat ->
  (length v < fuel)%nat ->
  forallb allowedChar v = false ->
  parse_loop fuel (erase_leading_zeros v) neg parseStart
    = Throws (VeloxUserError "Invalid decimal string")
  \/ (parse_loop fuel (erase_leading_zeros v) neg parseStart
        = Throws (VeloxRuntimeError EmptyString)
      /\ (38 < digitsOf v)%nat).
Proof.
  intros Hlen Hfuel Hbad.
  pose proof (erase_leading_zeros_length v) as Hel.
  pose proof (erase_leading_zeros_digits v) as Hed.
  rewrite parse_loop_unrolls by (simpl; lia).
  change (drop _ ?l) with l.
  destruct (parse_chars_bad neg _ parseStart (erase_leading_zeros_bad v Hbad))
    as [Hinvalid|Hoverflow]; [by left|right].
  split; [done|].
  destruct (le_lt_dec (digitsOf v) 38) as [Hfew|]; [|done].
  exfalso. revert Hoverflow. apply parse_chars_no_overflow.
  - unfold parseInv, parseStart, Int128_default; simpl. destruct neg; lia.
  - simpl. lia.
Qed.

(** C3 as stated fails: ["1.2.3"] has two dots, is outside the grammar, and
    is parsed to the decimal 123 of precision 3 and scale 2. *)
Lemma C3_two_dots_are_accepted :
  dotCount "1.2.3" = 2%nat
  /\ conformsToGrammar "1.2.3" = false
  /\ parseStringToDecimal 64 "1.2.3" = Returns (mkDecimal (mkInt128 123) 3 2).
Proof. repeat split; vm_compute; reflexivity. Qed.

(** What the loop's invariant gives for a returned [Decimal]. *)
Lemma parse_returns_invariant (fuel : nat) (s : string) (d : Decimal) :
  parseStringToDecimal fuel s = Returns d ->
  0 <= scale_ d <= precision_ d
  /\ Z.abs (value (unscaledValue_ d)) < 10 ^ precision_ d.
Proof.
  unfold parseStringToDecimal, parseToInt128.
  destruct (String.length s =? 0)%nat; [done|].
  set (v := list_ascii_of_string s).
  set (c0 := default "000"%char (v !! 0%nat)).
  assert (Hloop : forall neg v',
    match
      (st ← parse_loop fuel (erase_leading_zeros v') neg
              (mkParseState Int128_default 0 0 false 0);
       Returns (result st, precision st, scale st))
    with
    | Returns (u, p, sc) => Returns (mkDecimal u p sc)
    | Throws (VeloxRuntimeError _) => Throws (VeloxUserError "Decimal overflow")
    | Throws e => Throws e
    | OutOfFuel => OutOfFuel
    end = Returns d ->
    0 <= scale_ d <= precision_ d
    /\ Z.abs (value (unscaledValue_ d)) < 10 ^ precision_ d).
  { intros neg v' Hrun.
    destruct (parse_loop fuel (erase_leading_zeros v') neg _) as [st|e|] eqn:Hl;
      simpl in Hrun; [|by destruct e|done].
    injection Hrun as <-. simpl.
    apply parse_loop_returns_inv in Hl as (? & ? & ? & ?). done. }
  destruct (negb (isdigit c0)).
  - destruct (char_eqb c0 "-" || char_eqb c0 "+"); [|done]. apply Hloop.
  - apply Hloop.
Qed.

(** C4 as stated fails: ["0"] is parsed to a decimal of precision 0, below
    the least precision of the invariant. *)
Lemma C4_zero_has_precision_zero :
  parseStringToDecimal 64 "0" = Returns (mkDecimal (mkInt128 0) 0 0)
  /\ ~ decimalInvariant (mkDecimal (mkInt128 0) 0 0).
Proof.
  split; [reflexivity|]. unfold decimalInvariant; simpl. lia.
Qed.

(** When overflow comes before the offending character, overflow it is. *)
Example overflow_before_bad_character :
  parseStringToDecimal 64 "9999999999999999999999999999999999999999x"
  = Throws (VeloxUserError "Decimal overflow").
Proof. vm_compute. reflexivity. Qed.

(** Over 256 dots [pos] goes round for ever. *)
Lemma parse_loop_dots_never_stops (fuel : nat) (v : list ascii) (neg : bool) :
  forall st : ParseState,
    (256 <= length v)%nat ->
    (forall i, (i < 256)%nat -> v !! i = Some "."%char) ->
    0 <= pos st < 256 ->
    parse_loop fuel v neg st = OutOfFuel.
Proof.
  induction fuel as [|fuel IH]; intros st Hlen Hdots Hpos; [done|].
  simpl. destruct (Z.ltb_spec (pos st) (Z.of_nat (length v))) as [_|Hge]; [|lia].
  rewrite Hdots by lia. rewrite parse_step_dot. simpl.
  apply IH; [done|done|]. simpl. apply uint8_incr_range.
Qed.

(** A string of 258 characters whose last is a letter: no validation error
    comes, nor any other outcome, however many steps are granted. *)
Example long_string_is_never_refused (fuel : nat) :
  charsAllowed signDotsLetter = false
  /\ parseStringToDecimal fuel signDotsLetter = OutOfFuel.
Proof.
  split; [vm_compute; reflexivity|].
  unfold parseStringToDecimal, parseToInt128, signDotsLetter.
  change (String.length _ =? 0)%nat with false. cbv iota.
  change (list_ascii_of_string (String "+" ?s)) with ("+"%char :: list_ascii_of_string s).
  rewrite list_ascii_of_string_of_list_ascii.
  change (("+"%char :: ?l) !! 0%nat) with (Some "+"%char). simpl default.
  change (negb (isdigit "+")) with true.
  change (char_eqb "+" "-" || char_eqb "+" "+") with true. cbv iota.
  cbn [mbind Outcome_bind tail].
  change (erase_leading_zeros (replicate 256 "."%char ++ ["x"%char])%list)
    with (replicate 256 "."%char ++ ["x"%char])%list.
  rewrite parse_loop_dots_never_stops; [done| | |simpl; lia].
  - rewrite length_app, length_replicate. simpl. lia.
  - intros i Hi. rewrite lookup_app_l by (rewrite length_replicate; lia).
    by apply lookup_replicate_2.
Qed.

(** A string of fewer than 256 characters is parsed to the end, or
    refused, within as many steps as it has characters and one more. *)
Lemma parseStringToDecimal_terminates (fuel : nat) (s : string) :
  (String.length s < 256)%nat ->
  (String.length s < fuel)%nat ->
  parseStringToDecimal fuel s <> OutOfFuel.
Proof.
  intros Hlen Hfuel. unfold parseStringToDecimal, parseToInt128.
  destruct (String.length s =? 0)%nat; [done|].
  rewrite <- (list_ascii_length s) in Hlen, Hfuel.
  set (v := list_ascii_of_string s) in *.
  set (c0 := default "000"%char (v !! 0%nat)).
  assert (Hloop : forall neg v',
    (length v' <= length v)%nat ->
    match
      (st ← parse_loop fuel (erase_leading_zeros v') neg
              (mkParseState Int128_default 0 0 false 0);
       Returns (result st, precision st, scale st))
    with
    | Returns (u, p, sc) => Returns (mkDecimal u p sc)
    | Throws (VeloxRuntimeError _) => Throws (VeloxUserError "Decimal overflow")
    | Throws e => Throws e
    | OutOfFuel => OutOfFuel
    end <> OutOfFuel).
  { intros neg v' Hv'. pose proof (erase_leading_zeros_length v').
    rewrite parse_loop_unrolls by (simpl; lia).
    change (drop _ ?l) with l.
    pose proof (parse_chars_not_out_of_fuel neg (erase_leading_zeros v')
                  (mkParseState Int128_default 0 0 false 0)) as Hne.
    destruct (parse_chars neg _ _) as [st|e|]; simpl; [done|by destruct e|done]. }
  destruct (negb (isdigit c0)).
  - destruct (char_eqb c0 "-" || char_eqb c0 "+"); [|done].
    apply Hloop. destruct v; simpl; lia.
  - by apply Hloop.
Qed.

End ParserProperties.

(** * Properties of the flattening of arrays and maps *)

Section BufferProperties.

Import LambdaFunctionUtil.

Context {A : Type}.
Implicit Types (b : Buffer A) (i j : Z) (x : A).

Lemma buf_read_nat b (r : nat) : buf_read b (Z.of_nat r) = mjoin (b !! r).
Proof.
  unfold buf_read. rewrite decide_True by lia. by rewrite Nat2Z.id.
Qed.

Lemma buf_write_length b b' i x :
  buf_write b i x = Some b' -> length b' = length b.
Proof.
  unfold buf_write. case_decide; [|done]. intros [= <-]. apply length_insert.
Qed.

Lemma buf_write_in_range b i x :
  0 <= i < Z.of_nat (length b) ->
  buf_write b i x = Some (<[Z.to_nat i := Some x]> b).
Proof. intros H. unfold buf_write. by rewrite decide_True. Qed.

Lemma buf_read_write_eq b i x :
  0 <= i < Z.of_nat (length b) ->
  buf_read (<[Z.to_nat i := Some x]> b) i = Some x.
Proof.
  intros H. unfold buf_read. rewrite decide_True by lia.
  by rewrite list_lookup_insert_eq by lia.
Qed.

Lemma buf_read_write_ne b i j x :
  0 <= i -> i <> j -> buf_read (<[Z.to_nat i := Some x]> b) j = buf_read b j.
Proof.
  intros Hi H. unfold buf_read. case_decide; [|done].
  by rewrite list_lookup_insert_ne by lia.
Qed.

Lemma buf_read_allocate (n : nat) i : buf_read (allocate (A:=A) n) i = None.
Proof.
  unfold buf_read, allocate. case_decide; [|done].
  destruct (replicate n None !! Z.to_nat i) as [o|] eqn:Hl; [|done].
  apply lookup_replicate in Hl as [-> _]. done.
Qed.

End BufferProperties.

Section SelectivityProperties.

Import LambdaFunctionUtil.

Lemma selectedFrom_bounds (bs : list bool) :
  forall (i r : nat), r ∈ selectedFrom i bs -> (i <= r < i + length bs)%nat.
Proof.
  induction bs as [|b bs IH]; intros i r Hr; simpl in *.
  - by apply elem_of_nil in Hr.
  - destruct b.
    + apply elem_of_cons in Hr as [->|Hr]; [lia|]. apply IH in Hr. lia.
    + apply IH in Hr. lia.
Qed.

Lemma selectedFrom_NoDup (bs : list bool) : forall i, NoDup (selectedFrom i bs).
Proof.
  induction bs as [|b bs IH]; intros i; simpl; [constructor|].
  destruct b; [|apply IH].
  constructor; [|apply IH]. intros Hi. apply selectedFrom_bounds in Hi. lia.
Qed.

Lemma selectedRows_NoDup (rows : SelectivityVector) : NoDup (selectedRows rows).
Proof. apply selectedFrom_NoDup. Qed.

Lemma selectedRows_size (rows : SelectivityVector) (r : nat) :
  r ∈ selectedRows rows -> (r < rows_size rows)%nat.
Proof. intros Hr. apply selectedFrom_bounds in Hr. unfold rows_size. lia. Qed.

Lemma selectedRows_end (rows : SelectivityVector) (r : nat) :
  r ∈ selectedRows rows -> (r < rows_end rows)%nat.
Proof.
  unfold rows_end. induction (selectedRows rows) as [|r' rs IH]; intros Hr.
  - by apply elem_of_nil in Hr.
  - simpl. apply elem_of_cons in Hr as [->|Hr]; [lia|]. apply IH in Hr. lia.
Qed.

End SelectivityProperties.

Section FlattenLoops.

Import LambdaFunctionUtil.

(** ** The inner loop *)

Lemma int32_add_in_range (a b : Z) :
  INT32_MIN <= a + b <= INT32_MAX -> int32_add a b = Some (a + b).
Proof. intros H. unfold int32_add. by rewrite decide_True. Qed.

Lemma fillElementIndices_spec (n : nat) :
  forall (i offset : Z) (ei : Buffer Z) (k : Z),
    0 <= i -> 0 <= offset ->
    offset + i + Z.of_nat n <= INT32_MAX + 1 ->
    0 <= k ->
    k + Z.of_nat n <= Z.of_nat (length ei) ->
    k + Z.of_nat n <= INT32_MAX ->
    exists ei',
      fillElementIndices n i offset ei k = Some (ei', k + Z.of_nat n)
      /\ length ei' = length ei
      /\ (forall j, j < k \/ k + Z.of_nat n <= j -> buf_read ei' j = buf_read ei j)
      /\ (forall t, 0 <= t < Z.of_nat n ->
            buf_read ei' (k + t) = Some (offset + i + t)).
Proof.
  induction n as [|n IH]; intros i offset ei k Hi Ho Hmax Hk Hlen Hint.
  - exists ei. simpl. rewrite Z.add_0_r. repeat split; try done. lia.
  - simpl. unfold INT32_MAX, INT32_MIN in *.
    rewrite !int32_add_in_range by (unfold INT32_MAX, INT32_MIN; lia). simpl.
    rewrite buf_write_in_range by lia. simpl.
    destruct (IH (i + 1) offset (<[Z.to_nat k := Some (offset + i)]> ei) (k + 1))
      as (ei' & Hrun & Hlen' & Hout & Hin);
      try (rewrite ?length_insert; lia).
    exists ei'. split; [rewrite Hrun; do 2 f_equal; lia|].
    split; [by rewrite Hlen', length_insert|]. split.
    + intros j Hj. rewrite Hout by lia. apply buf_read_write_ne; lia.
    + intros t Ht. destruct (decide (t = 0)) as [->|Hne].
      * rewrite Hout by lia. rewrite Z.add_0_r.
        rewrite buf_read_write_eq by lia. f_equal; lia.
      * replace (k + t) with (k + 1 + (t - 1)) by lia.
        rewrite Hin by lia. f_equal; lia.
Qed.

Variable nulls : BufferPtr bool.
Variables ind rawSizes rawOffsets : Buffer Z.

Local Abbreviation ready := (rowReady nulls ind rawSizes rawOffsets).
Local Abbreviation count := (rowCount nulls ind rawSizes rawOffsets).
Local Abbreviation total := (totalCount nulls ind rawSizes rawOffsets).
Local Abbreviation offsetSize := (rowOffsetSize ind rawSizes rawOffsets).

Lemma rowCount_null (r : nat) :
  rowNull nulls (Z.of_nat r) = Some true -> count r = 0.
Proof. intros H. unfold rowCount. by rewrite H. Qed.

Lemma rowCount_size (r : nat) (offset size : Z) :
  rowNull nulls (Z.of_nat r) = Some false ->
  offsetSize (Z.of_nat r) = Some (offset, size) ->
  count r = size.
Proof. intros Hn Hos. unfold rowCount. by rewrite Hn, Hos. Qed.

Lemma rowCount_nonneg (r : nat) : ready r -> 0 <= count r.
Proof.
  intros [Hnull|(Hnn & offset & size & Hos & ? & ? & ?)].
  - by rewrite rowCount_null.
  - by rewrite (rowCount_size r offset size).
Qed.

Lemma totalCount_nonneg (rs : list nat) :
  (forall r, r ∈ rs -> ready r) -> 0 <= total rs.
Proof.
  induction rs as [|r rs IH]; intros Hready; simpl; [done|].
  pose proof (rowCount_nonneg r (Hready r ltac:(left))).
  specialize (IH (fun r' Hr' => Hready r' ltac:(by right))). lia.
Qed.

(** ** The first pass *)

Lemma count_pass (rs : list nat) :
  forall c : Z,
    (forall r, r ∈ rs -> ready r) ->
    0 <= c -> c + total rs <= INT32_MAX ->
    forEachRow
      (fun row count =>
         isNull ← rowNull nulls row;
         if (isNull : bool) then Some count
         else
           idx ← buf_read ind row;
           size ← buf_read rawSizes idx;
           int32_add count size)
      rs c
    = Some (c + total rs).
Proof.
  induction rs as [|r rs IH]; intros c Hready Hc Hmax; simpl.
  - f_equal; lia.
  - assert (Hrs : forall r', r' ∈ rs -> ready r')
      by (intros r' Hr'; apply Hready; by right).
    pose proof (totalCount_nonneg rs Hrs). simpl in Hmax.
    destruct (Hready r ltac:(left)) as [Hnull|(Hnn & offset & size & Hos & ? & ? & ?)].
    + rewrite Hnull. simpl. rewrite (rowCount_null r Hnull) in *.
      rewrite IH; [f_equal; lia|done|lia|lia].
    + rewrite Hnn. simpl. rewrite (rowCount_size r offset size Hnn Hos) in *.
      unfold rowOffsetSize in Hos.
      destruct (buf_read ind (Z.of_nat r)) as [idx|]; [|done]. simpl in *.
      destruct (buf_read rawSizes idx) as [size'|]; [|done]. simpl in *.
      destruct (buf_read rawOffsets idx) as [offset'|]; [|done]. simpl in *.
      injection Hos as -> ->.
      rewrite int32_add_in_range by (unfold INT32_MIN, INT32_MAX in *; lia).
      simpl.
      rewrite IH; [f_equal; lia|done|lia|lia].
Qed.

(** ** The second pass *)

Lemma flattenRow_null (r : nat) (st : FlattenState) :
  rowNull nulls (Z.of_nat r) = Some true ->
  flattenRow nulls ind rawSizes rawOffsets (Z.of_nat r) st = Some st.
Proof.
  intros Hnull. unfold flattenRow. fold (rowNull nulls (Z.of_nat r)).
  by rewrite Hnull.
Qed.

Lemma flattenRow_not_null (r : nat) (st : FlattenState) (offset size : Z) :
  rowNull nulls (Z.of_nat r) = Some false ->
  offsetSize (Z.of_nat r) = Some (offset, size) ->
  0 <= offset -> 0 <= size -> offset + size <= INT32_MAX ->
  (r < length (rawNewSizes st))%nat ->
  (r < length (rawNewOffsets st))%nat ->
  0 <= elementIndex st ->
  elementIndex st + size <= Z.of_nat (length (rawElementIndices st)) ->
  elementIndex st + size <= INT32_MAX ->
  exists ei',
    flattenRow nulls ind rawSizes rawOffsets (Z.of_nat r) st
      = Some (mkFlattenState ei'
                (<[r := Some size]> (rawNewSizes st))
                (<[r := Some (elementIndex st)]> (rawNewOffsets st))
                (elementIndex st + size))
    /\ length ei' = length (rawElementIndices st)
    /\ (forall j, j < elementIndex st \/ elementIndex st + size <= j ->
          buf_read ei' j = buf_read (rawElementIndices st) j)
    /\ (forall t, 0 <= t < size ->
          buf_read ei' (elementIndex st + t) = Some (offset + t)).
Proof.
  intros Hnn Hos Ho Hs Hmax Hns Hno Hk Hlen Hint.
  unfold flattenRow. fold (rowNull nulls (Z.of_nat r)). rewrite Hnn. simpl.
  unfold rowOffsetSize in Hos.
  destruct (buf_read ind (Z.of_nat r)) as [idx|]; [|done]. simpl in *.
  destruct (buf_read rawSizes idx) as [size'|]; [|done]. simpl in *.
  destruct (buf_read rawOffsets idx) as [offset'|]; [|done]. simpl in *.
  injection Hos as -> ->.
  rewrite !buf_write_in_range by lia. simpl. rewrite Nat2Z.id.
  destruct (fillElementIndices_spec (Z.to_nat size) 0 offset
              (rawElementIndices st) (elementIndex st))
    as (ei' & Hrun & Hlen' & Hout & Hin); try lia.
  rewrite Z2Nat.id in * by lia.
  exists ei'. rewrite Hrun. simpl. repeat split; [done|done|].
  intros t Ht. rewrite Hin by lia. f_equal; lia.
Qed.

(** The second pass over the rows [rs], from any state: the cursor moves
    by the number of elements of the rows, nothing before the cursor and no
    slot of another row is touched, and each row that is not null gets its
    size, the cursor as its offset, and its range of element positions. *)
Lemma flatten_pass (rs : list nat) :
  forall st : FlattenState,
    NoDup rs ->
    (forall r, r ∈ rs -> ready r) ->
    (forall r, r ∈ rs ->
       (r < length (rawNewSizes st))%nat /\ (r < length (rawNewOffsets st))%nat) ->
    0 <= elementIndex st ->
    elementIndex st + total rs <= Z.of_nat (length (rawElementIndices st)) ->
    elementIndex st + total rs <= INT32_MAX ->
    exists st',
      forEachRow (flattenRow nulls ind rawSizes rawOffsets) rs st = Some st'
      /\ elementIndex st' = elementIndex st + total rs
      /\ length (rawElementIndices st') = length (rawElementIndices st)
      /\ length (rawNewSizes st') = length (rawNewSizes st)
      /\ length (rawNewOffsets st') = length (rawNewOffsets st)
      /\ (forall j, j < elementIndex st ->
            buf_read (rawElementIndices st') j = buf_read (rawElementIndices st) j)
      /\ (forall r, r ∉ rs ->
            rawNewSizes st' !! r = rawNewSizes st !! r
            /\ rawNewOffsets st' !! r = rawNewOffsets st !! r)
      /\ (forall r offset size,
            r ∈ rs ->
            rowNull nulls (Z.of_nat r) = Some false ->
            offsetSize (Z.of_nat r) = Some (offset, size) ->
            buf_read (rawNewSizes st') (Z.of_nat r) = Some size
            /\ exists o,
                 buf_read (rawNewOffsets st') (Z.of_nat r) = Some o
                 /\ elementIndex st <= o
                 /\ forall t, 0 <= t < size ->
                      buf_read (rawElementIndices st') (o + t) = Some (offset + t)).
Proof.
  induction rs as [|r rs IH]; intros st Hnodup Hready Hslots Hk Hlen Hint.
  - exists st. simpl in *.
    split; [done|]. split; [lia|]. do 5 (split; [done|]).
    intros r offset size Hr. by apply elem_of_nil in Hr.
  - apply NoDup_cons in Hnodup as [Hfresh Hnodup].
    assert (Hrs : forall r', r' ∈ rs -> ready r')
      by (intros r' Hr'; apply Hready; by right).
    assert (Hslots' : forall r', r' ∈ rs ->
              (r' < length (rawNewSizes st))%nat
              /\ (r' < length (rawNewOffsets st))%nat)
      by (intros r' Hr'; apply Hslots; by right).
    pose proof (totalCount_nonneg rs Hrs) as Hnonneg.
    destruct (Hslots r ltac:(left)) as [Hns Hno].
    simpl in Hlen, Hint. simpl forEachRow.
    destruct (Hready r ltac:(left))
      as [Hnull|(Hnn & offset & size & Hos & Ho & Hs & Hmax)].
    + rewrite (flattenRow_null r st Hnull). simpl.
      rewrite (rowCount_null r Hnull) in Hlen, Hint.
      destruct (IH st Hnodup Hrs Hslots' Hk ltac:(lia) ltac:(lia))
        as (st' & Hrun & Hcursor & Hl1 & Hl2 & Hl3 & Hbefore & Hother & Hrows).
      exists st'. simpl. rewrite (rowCount_null r Hnull).
      split; [done|]. split; [lia|]. do 4 (split; [done|]). split.
      * intros r' Hr'. apply not_elem_of_cons in Hr' as [_ Hr']. by apply Hother.
      * intros r' offset size Hr' Hnn Hos.
        apply elem_of_cons in Hr' as [->|Hr']; [congruence|]. by apply Hrows.
    + rewrite (rowCount_size r offset size Hnn Hos) in Hlen, Hint.
      destruct (flattenRow_not_null r st offset size Hnn Hos Ho Hs Hmax Hns Hno Hk
                  ltac:(lia) ltac:(lia))
        as (ei1 & Hrow & Hlen1 & Hout1 & Hin1).
      rewrite Hrow. simpl.
      set (st1 := mkFlattenState ei1 (<[r:=Some size]> (rawNewSizes st))
                    (<[r:=Some (elementIndex st)]> (rawNewOffsets st))
                    (elementIndex st + size)).
      destruct (IH st1 Hnodup Hrs) as
        (st' & Hrun & Hcursor & Hl1 & Hl2 & Hl3 & Hbefore & Hother & Hrows);
        try (simpl; rewrite ?length_insert; lia).
      { intros r' Hr'. simpl. rewrite !length_insert. by apply Hslots'. }
      exists st'. simpl in *. rewrite (rowCount_size r offset size Hnn Hos).
      rewrite length_insert in Hl2, Hl3.
      split; [done|]. split; [lia|]. split; [congruence|].
      split; [done|]. split; [done|]. split; [|split].
      * intros j Hj. rewrite Hbefore by lia. apply Hout1. lia.
      * intros r' Hr'. apply not_elem_of_cons in Hr' as [Hne Hr'].
        destruct (Hother r' Hr') as [-> ->].
        by rewrite !list_lookup_insert_ne.
      * intros r' offset' size' Hr' Hnn' Hos'.
        apply elem_of_cons in Hr' as [->|Hr'].
        -- assert (offset' = offset /\ size' = size) as [-> ->]
             by (split; congruence).
           destruct (Hother r Hfresh) as [Hsz Hof].
           rewrite !buf_read_nat, Hsz, Hof.
           rewrite !list_lookup_insert_eq by done. simpl.
           split; [done|]. exists (elementIndex st). split; [done|].
           split; [lia|]. intros t Ht. rewrite Hbefore by lia. by apply Hin1.
        -- destruct (Hrows r' offset' size' Hr' Hnn' Hos')
             as (Hsz & o & Hof & Hle & Hrange).
           split; [done|]. exists o. split; [done|]. split; [lia|done].
Qed.

(** ** The pass that copies the nulls *)

Lemma nulls_pass (decoded : Buffer bool) (rs : list nat) :
  forall raw : Buffer bool,
    NoDup rs ->
    (forall r, r ∈ rs ->
       (r < length raw)%nat /\ is_Some (isBitNull decoded (Z.of_nat r))) ->
    exists raw',
      forEachRow
        (fun row rawNulls =>
           isNull ← isBitNull decoded row; setNull rawNulls row isNull)
        rs raw
      = Some raw'
      /\ length raw' = length raw
      /\ (forall r, r ∉ rs -> raw' !! r = raw !! r)
      /\ (forall r, r ∈ rs ->
            isBitNull raw' (Z.of_nat r) = isBitNull decoded (Z.of_nat r)).
Proof.
  induction rs as [|r rs IH]; intros raw Hnodup Hrows.
  - exists raw. simpl. do 3 (split; [done|]).
    intros r Hr. by apply elem_of_nil in Hr.
  - apply NoDup_cons in Hnodup as [Hfresh Hnodup].
    destruct (Hrows r ltac:(left)) as [Hlt [isNull HisNull]].
    simpl. rewrite HisNull. simpl. unfold setNull.
    rewrite buf_write_in_range by lia. simpl. rewrite Nat2Z.id.
    destruct (IH (<[r:=Some (negb isNull)]> raw) Hnodup)
      as (raw' & Hrun & Hlen & Hother & Hsame).
    { intros r' Hr'. rewrite length_insert. apply Hrows. by right. }
    exists raw'. rewrite length_insert in Hlen.
    split; [done|]. split; [done|]. split.
    + intros r' Hr'. apply not_elem_of_cons in Hr' as [Hne Hr'].
      rewrite Hother by done. by rewrite list_lookup_insert_ne.
    + intros r' Hr'. apply elem_of_cons in Hr' as [->|Hr']; [|by apply Hsame].
      rewrite HisNull. unfold isBitNull. rewrite buf_read_nat.
      rewrite Hother by done. rewrite list_lookup_insert_eq by done. simpl.
      by rewrite negb_involutive.
Qed.

End FlattenLoops.

Section FlattenProperties.

Import LambdaFunctionUtil.

Lemma rowReady_ext (n1 n2 : BufferPtr bool) (ind sz off : Buffer Z) (r : nat) :
  rowNull n1 (Z.of_nat r) = rowNull n2 (Z.of_nat r) ->
  rowReady n1 ind sz off r -> rowReady n2 ind sz off r.
Proof. unfold rowReady. by intros ->. Qed.

Lemma totalCount_ext (n1 n2 : BufferPtr bool) (ind sz off : Buffer Z)
    (rs : list nat) :
  (forall r, r ∈ rs -> rowNull n1 (Z.of_nat r) = rowNull n2 (Z.of_nat r)) ->
  totalCount n1 ind sz off rs = totalCount n2 ind sz off rs.
Proof.
  induction rs as [|r rs IH]; intros Hext; simpl; [done|].
  rewrite IH by (intros r' Hr'; apply Hext; by right).
  unfold rowCount. by rewrite (Hext r ltac:(left)).
Qed.

Lemma flattenNulls_spec (rows : SelectivityVector) (d : DecodedVector) :
  (forall r, r ∈ selectedRows rows -> is_Some (isNullAt d (Z.of_nat r))) ->
  exists nn,
    flattenNulls rows d = Some nn
    /\ forall r, r ∈ selectedRows rows ->
         rowNull nn (Z.of_nat r) = isNullAt d (Z.of_nat r).
Proof.
  destruct d as [b ind ident [decoded|]];
    unfold flattenNulls, mayHaveNulls, isNullAt, applyToSelected; simpl;
    intros Hrows.
  - destruct (nulls_pass decoded (selectedRows rows)
                (allocate (rows_size rows)))
      as (raw' & Hrun & _ & _ & Hsame).
    { apply selectedRows_NoDup. }
    { intros r Hr. split; [|by apply Hrows].
      unfold allocate. rewrite length_replicate. by apply selectedRows_size. }
    rewrite Hrun. simpl. by exists (Some raw').
  - by exists None.
Qed.

Lemma rowReady_is_Some (nulls : BufferPtr bool) (ind sz off : Buffer Z) (r : nat) :
  rowReady nulls ind sz off r -> is_Some (rowNull nulls (Z.of_nat r)).
Proof. intros [->|[-> _]]; by eexists. Qed.

(** The two passes on a well-formed input: the count is the number of
    elements of the selected rows, the buffer of element indices has that
    length, and every selected row that is not null has its size, an offset
    and its range of element positions. *)
Lemma flattenBuffers_spec (T : VectorKind) (h : Heap) (rows : SelectivityVector)
    (d : DecodedVector) (sz off : Buffer Z) :
  rawSizesOffsets T h (base d) = Some (sz, off) ->
  (forall r, r ∈ selectedRows rows ->
     rowReady (decodedNulls d) (indices d) sz off r) ->
  totalCount (decodedNulls d) (indices d) sz off (selectedRows rows)
    <= INT32_MAX ->
  let n := totalCount (decodedNulls d) (indices d) sz off (selectedRows rows) in
  exists b,
    countElements T h rows d = Some n
    /\ flattenBuffers T h rows n d = Some b
    /\ 0 <= n
    /\ length (elementIndices b) = Z.to_nat n
    /\ (forall r offset size,
          r ∈ selectedRows rows ->
          isNullAt d (Z.of_nat r) = Some false ->
          rowOffsetSize (indices d) sz off (Z.of_nat r) = Some (offset, size) ->
          buf_read (newSizes b) (Z.of_nat r) = Some size
          /\ exists o,
               buf_read (newOffsets b) (Z.of_nat r) = Some o
               /\ forall t, 0 <= t < size ->
                    buf_read (elementIndices b) (o + t) = Some (offset + t)).
Proof.
  intros Hbase Hready Hmax n.
  pose proof (totalCount_nonneg _ _ _ _ _ Hready) as Hnonneg. fold n in Hnonneg.
  destruct (flattenNulls_spec rows d) as (nn & Hnn & Hsame).
  { intros r Hr. by eapply rowReady_is_Some, Hready. }
  assert (Hready' : forall r, r ∈ selectedRows rows ->
            rowReady nn (indices d) sz off r).
  { intros r Hr. eapply rowReady_ext; [|by apply Hready]. by rewrite Hsame. }
  assert (Htotal : totalCount nn (indices d) sz off (selectedRows rows) = n).
  { apply totalCount_ext. intros r Hr. by rewrite Hsame. }
  destruct (flatten_pass nn (indices d) sz off (selectedRows rows)
              (mkFlattenState (allocate (Z.to_nat n))
                 (allocate (rows_end rows)) (allocate (rows_end rows)) 0))
    as (st' & Hrun & Hcursor & Hl1 & Hl2 & Hl3 & Hbefore & Hother & Hrows);
    try (simpl; unfold allocate; rewrite ?length_replicate, ?Htotal; lia).
  { apply selectedRows_NoDup. }
  { done. }
  { intros r Hr. simpl. unfold allocate. rewrite !length_replicate.
    split; by apply selectedRows_end. }
  exists (mkFlattenedBuffers nn (rawElementIndices st') (rawNewSizes st')
            (rawNewOffsets st')).
  split; [|split; [|split; [done|split]]].
  - unfold countElements. rewrite Hbase. simpl.
    unfold applyToSelected. apply (count_pass _ _ _ _ _ 0); [done|lia|lia].
  - unfold flattenBuffers. rewrite Hnn. simpl.
    rewrite decide_False by lia. rewrite Hbase. simpl.
    unfold applyToSelected. by rewrite Hrun.
  - simpl. rewrite Hl1. simpl. unfold allocate. by rewrite length_replicate.
  - intros r offset size Hr Hnull Hos. simpl.
    rewrite <- Hsame in Hnull by done.
    destruct (Hrows r offset size Hr Hnull Hos) as (Hsz & o & Hof & _ & Hrange).
    split; [done|]. by exists o.
Qed.

(** The part of [flattenBuffers_spec] the count law needs: the sizes
    written for the rows that are not null add up to the count. *)
Lemma sumAt_total (nulls : BufferPtr bool) (ind sz off : Buffer Z)
    (sizes' : Buffer Z) (rs : list nat) :
  (forall r, r ∈ rs -> rowReady nulls ind sz off r) ->
  (forall r offset size,
     r ∈ rs ->
     rowNull nulls (Z.of_nat r) = Some false ->
     rowOffsetSize ind sz off (Z.of_nat r) = Some (offset, size) ->
     buf_read sizes' (Z.of_nat r) = Some size) ->
  sumAt sizes' (filter (fun r => rowNull nulls (Z.of_nat r) = Some false) rs)
  = Some (totalCount nulls ind sz off rs).
Proof.
  induction rs as [|r rs IH]; intros Hready Hsizes; [done|].
  rewrite filter_cons. simpl totalCount.
  specialize (IH (fun r' Hr' => Hready r' ltac:(by right))
                 (fun r' o s Hr' => Hsizes r' o s ltac:(by right))).
  destruct (Hready r ltac:(left)) as [Hnull|(Hnn & offset & size & Hos & _)].
  - rewrite decide_False by congruence.
    by rewrite IH, (rowCount_null _ _ _ _ r Hnull).
  - rewrite decide_True by done. simpl.
    rewrite (Hsizes r offset size ltac:(left) Hnn Hos). simpl.
    rewrite IH. simpl. by rewrite (rowCount_size _ _ _ _ r offset size Hnn Hos).
Qed.

(** What [flattenArray] and [flattenMap] return on a well-formed input: a
    new vector of the same kind holding the four buffers, its children
    being the children of the base, each under a dictionary of the element
    indices. *)
Lemma flatten_result (T : VectorKind) (h : Heap) (rows : SelectivityVector)
    (vector : VectorPtr) (d : DecodedVector) (sz off : Buffer Z)
    (n : Z) (b : FlattenedBuffers) :
  isIdentityMapping d = false ->
  rawSizesOffsets T h (base d) = Some (sz, off) ->
  countElements T h rows d = Some n ->
  flattenBuffers T h rows n d = Some b ->
  exists out h',
    flatten T h rows vector d = Some (out, h')
    /\ outputBuffers h' out
       = Some (newNulls b, Z.of_nat (rows_size rows), newOffsets b, newSizes b)
    /\ children h' out <> []
    /\ Forall2
         (fun c orig =>
            deref h' c = Some (DictionaryVector None (elementIndices b) n orig))
         (children h' out) (children h (base d)).
Proof.
  intros Hdict Hbase Hcount Hbuf.
  unfold rawSizesOffsets in Hbase.
  destruct (deref h (base d)) as [v|] eqn:Hv; [|done]. simpl in Hbase.
  destruct T, v; try done; simpl in Hbase;
    unfold flatten, flattenArray, flattenMap;
    rewrite Hdict, Hcount; simpl; rewrite Hbuf; simpl; rewrite Hv; simpl;
    eexists _, _; (split; [reflexivity|]);
    unfold outputBuffers, children; simpl; rewrite Hv.
  - rewrite (list_lookup_middle _ [] _ _) by (by rewrite length_app).
    split; [done|]. split; [done|].
    constructor; [|constructor]. simpl.
    rewrite lookup_app_l by (rewrite length_app; simpl; lia).
    by rewrite (list_lookup_middle _ [] _ _).
  - rewrite (list_lookup_middle _ [] _ _) by (by rewrite !length_app).
    split; [done|]. split; [done|].
    constructor; [|constructor; [|constructor]]; simpl.
    + rewrite lookup_app_l by (rewrite !length_app; simpl; lia).
      rewrite lookup_app_l by (rewrite !length_app; simpl; lia).
      by rewrite (list_lookup_middle _ [] _ _).
    + rewrite lookup_app_l by (rewrite !length_app; simpl; lia).
      by rewrite (list_lookup_middle _ [] _ _) by (by rewrite length_app).
Qed.

(** The small input of the vocabulary is well formed. *)
Lemma example_WellFormed :
  WellFormed ArrayKind exampleHeap exampleRows exampleDecoded.
Proof.
  split; [reflexivity|].
  exists [Some 2; Some 3; Some 1], [Some 0; Some 2; Some 5].
  split; [reflexivity|]. split; [|vm_compute; discriminate].
  intros r Hr. change (selectedRows exampleRows) with [0; 1; 3]%nat in Hr.
  repeat (apply elem_of_cons in Hr as [->|Hr]).
  - right. split; [reflexivity|]. exists 5, 1. vm_compute. repeat split; discriminate.
  - left. reflexivity.
  - right. split; [reflexivity|]. exists 2, 3. vm_compute. repeat split; discriminate.
  - by apply elem_of_nil in Hr.
Qed.

(** C5: on a dictionary-encoded array or map, [flattenArray] and
    [flattenMap] return a new vector of the same kind whose children are
    the children of the decoded base, each wrapped in a dictionary over the
    element indices; and for every selected row [r] that is not null, with
    [offset] and [size] the offset and size of the base at [indices[r]],
    [newSizes[r] = size] and
    [elementIndices[newOffsets[r] + i] = offset + i] for every [i] below
    [size]. *)
Theorem C5_flatten_preserves_row_elements (T : VectorKind) (h : Heap)
    (rows : SelectivityVector) (vector : VectorPtr) (d : DecodedVector) :
  WellFormed T h rows d ->
  exists out h' nulls' offsets' sizes' ei n,
    flatten T h rows vector d = Some (out, h')
    /\ outputBuffers h' out
       = Some (nulls', Z.of_nat (rows_size rows), offsets', sizes')
    /\ children h' out <> []
    /\ Forall2
         (fun c orig => deref h' c = Some (DictionaryVector None ei n orig))
         (children h' out) (children h (base d))
    /\ forall r,
         r ∈ selectedRows rows ->
         isNullAt d (Z.of_nat r) = Some false ->
         exists offset size o,
           decodedOffsetSize T h d (Z.of_nat r) = Some (offset, size)
           /\ buf_read sizes' (Z.of_nat r) = Some size
           /\ buf_read offsets' (Z.of_nat r) = Some o
           /\ forall i, 0 <= i < size ->
                buf_read ei (o + i) = Some (offset + i).
Proof.
  intros [Hdict (sz & off & Hbase & Hready & Hmax)].
  destruct (flattenBuffers_spec T h rows d sz off Hbase Hready Hmax)
    as (b & Hcount & Hbuf & Hnonneg & Hlen & Hrows).
  destruct (flatten_result T h rows vector d sz off _ b Hdict Hbase Hcount Hbuf)
    as (out & h' & Hrun & Hout & Hkids & Hwrapped).
  exists out, h', (newNulls b), (newOffsets b), (newSizes b), (elementIndices b).
  eexists. do 4 (split; [done|]).
  intros r Hr Hnull.
  destruct (Hready r Hr) as [Hnull'|(_ & offset & size & Hos & _)].
  { unfold isNullAt in Hnull. unfold rowNull in Hnull'. congruence. }
  destruct (Hrows r offset size Hr Hnull Hos) as (Hsz & o & Hof & Hrange).
  exists offset, size, o. unfold decodedOffsetSize. rewrite Hbase. done.
Qed.

Lemma C5_flatten_preserves_row_elements_witness :
  WellFormed ArrayKind exampleHeap exampleRows exampleDecoded
  /\ exists out h' nulls' offsets' sizes' ei n,
    flatten ArrayKind exampleHeap exampleRows (ptr 2) exampleDecoded
      = Some (out, h')
    /\ outputBuffers h' out
       = Some (nulls', Z.of_nat (rows_size exampleRows), offsets', sizes')
    /\ children h' out <> []
    /\ Forall2
         (fun c orig => deref h' c = Some (DictionaryVector None ei n orig))
         (children h' out) (children exampleHeap (base exampleDecoded))
    /\ forall r,
         r ∈ selectedRows exampleRows ->
         isNullAt exampleDecoded (Z.of_nat r) = Some false ->
         exists offset size o,
           decodedOffsetSize ArrayKind exampleHeap exampleDecoded (Z.of_nat r)
             = Some (offset, size)
           /\ buf_read sizes' (Z.of_nat r) = Some size
           /\ buf_read offsets' (Z.of_nat r) = Some o
           /\ forall i, 0 <= i < size ->
                buf_read ei (o + i) = Some (offset + i).
Proof.
  split; [exact example_WellFormed|].
  apply (C5_flatten_preserves_row_elements ArrayKind exampleHeap exampleRows
           (ptr 2) exampleDecoded).
  exact example_WellFormed.
Defined.

(** C6: on a dictionary-encoded array or map, the sizes written for the
    selected rows that are not null add up to the length of the buffer of
    element indices, which is [newNumElements], the count of the first
    pass, and the size of the dictionary put over each child. *)
Theorem C6_flatten_sizes_sum_to_element_count (T : VectorKind) (h : Heap)
    (rows : SelectivityVector) (vector : VectorPtr) (d : DecodedVector) :
  WellFormed T h rows d ->
  exists out h' nulls' offsets' sizes' ei newNumElements,
    flatten T h rows vector d = Some (out, h')
    /\ outputBuffers h' out
       = Some (nulls', Z.of_nat (rows_size rows), offsets', sizes')
    /\ children h' out <> []
    /\ Forall2
         (fun c orig =>
            deref h' c = Some (DictionaryVector None ei newNumElements orig))
         (children h' out) (children h (base d))
    /\ countElements T h rows d = Some newNumElements
    /\ newNumElements = Z.of_nat (length ei)
    /\ sumAt sizes' (nonNullSelected rows d) = Some (Z.of_nat (length ei)).
Proof.
  intros [Hdict (sz & off & Hbase & Hready & Hmax)].
  destruct (flattenBuffers_spec T h rows d sz off Hbase Hready Hmax)
    as (b & Hcount & Hbuf & Hnonneg & Hlen & Hrows).
  destruct (flatten_result T h rows vector d sz off _ b Hdict Hbase Hcount Hbuf)
    as (out & h' & Hrun & Hout & Hkids & Hwrapped).
  exists out, h', (newNulls b), (newOffsets b), (newSizes b), (elementIndices b).
  eexists. do 5 (split; [done|]).
  rewrite Hlen, Z2Nat.id by done. split; [done|].
  unfold nonNullSelected.
  apply (sumAt_total (decodedNulls d) (indices d) sz off); [done|].
  intros r offset size Hr Hnull Hos.
  by destruct (Hrows r offset size Hr Hnull Hos) as [-> _].
Qed.

Lemma C6_flatten_sizes_sum_to_element_count_witness :
  WellFormed ArrayKind exampleHeap exampleRows exampleDecoded
  /\ exists out h' nulls' offsets' sizes' ei newNumElements,
    flatten ArrayKind exampleHeap exampleRows (ptr 2) exampleDecoded
      = Some (out, h')
    /\ outputBuffers h' out
       = Some (nulls', Z.of_nat (rows_size exampleRows), offsets', sizes')
    /\ children h' out <> []
    /\ Forall2
         (fun c orig =>
            deref h' c = Some (DictionaryVector None ei newNumElements orig))
         (children h' out) (children exampleHeap (base exampleDecoded))
    /\ countElements ArrayKind exampleHeap exampleRows exampleDecoded
       = Some newNumElements
    /\ newNumElements = Z.of_nat (length ei)
    /\ sumAt sizes' (nonNullSelected exampleRows exampleDecoded)
       = Some (Z.of_nat (length ei)).
Proof.
  split; [exact example_WellFormed|].
  apply (C6_flatten_sizes_sum_to_element_count ArrayKind exampleHeap
           exampleRows (ptr 2) exampleDecoded).
  exact example_WellFormed.
Defined.

(** C7: when the decoded vector is an identity mapping, [flattenArray]
    given a pointer to an array vector, and [flattenMap] given a pointer to
    a map vector, return that same pointer and leave the heap as it is:
    nothing is allocated. *)
Theorem C7_flatten_identity_returns_input (T : VectorKind) (h : Heap)
    (rows : SelectivityVector) (vector : VectorPtr) (d : DecodedVector)
    (v : Vector) :
  isIdentityMapping d = true ->
  deref h vector = Some v ->
  isKind T v = true ->
  flatten T h rows vector d = Some (vector, h).
Proof.
  intros Hid Hv Hkind.
  destruct T; unfold flatten, flattenArray, flattenMap;
    rewrite Hid; unfold dynamic_pointer_cast; by rewrite Hv, Hkind.
Qed.

Lemma C7_flatten_identity_returns_input_witness :
  (isIdentityMapping exampleIdentity = true
   /\ deref exampleHeap (ptr 1)
      = Some (ArrayVector None 3 [Some 0; Some 2; Some 5]
                [Some 2; Some 3; Some 1] (ptr 0)))
  /\ flatten ArrayKind exampleHeap exampleRows (ptr 1) exampleIdentity
     = Some (ptr 1, exampleHeap).
Proof.
  split; [split; reflexivity|].
  apply (C7_flatten_identity_returns_input ArrayKind exampleHeap exampleRows
           (ptr 1) exampleIdentity
           (ArrayVector None 3 [Some 0; Some 2; Some 5]
              [Some 2; Some 3; Some 1] (ptr 0)));
    reflexivity.
Defined.

(** On the small input the flattened array has rows [[6], null, -, [3,4,5]]
    over the element indices [[5, 2, 3, 4]]. *)
Example flatten_small_input :
  flatten ArrayKind exampleHeap exampleRows (ptr 2) exampleDecoded
  = Some (ptr 4,
          exampleHeap
          ++ [ DictionaryVector None [Some 5; Some 2; Some 3; Some 4] 4 (ptr 0);
               ArrayVector
                 (Some [Some true; Some false; None; Some true; None]) 5
                 [Some 0; None; None; Some 1] [Some 1; None; None; Some 3]
                 (ptr 3) ]).
Proof. reflexivity. Qed.

End FlattenProperties.

(** * Properties of the DuckDB conversion *)

Section ConversionProperties.

Import DuckWrapper.

Context {DuckValue VeloxValue : Type}.
Variable inPlace : DuckValue -> VeloxValue.
Variable zero : VeloxValue.

Local Abbreviation convert' := (convert DuckValue VeloxValue inPlace zero).
Local Abbreviation valueAt' := (valueAt VeloxValue).

(** [maxIndex] bounds every index the selection holds for the chunk. *)
Lemma maxIndexOf_bound (selection : list Z) (size i : nat) :
  (i < size)%nat ->
  0 <= maxIndexOf selection size
  /\ get_index selection i <= maxIndexOf selection size.
Proof.
  unfold maxIndexOf. intros Hi.
  assert (Hgen : forall (l : list nat) (m : Z),
    m <= foldl (fun maxIndex i => Z.max maxIndex (get_index selection i)) m l
    /\ (i ∈ l ->
        get_index selection i
        <= foldl (fun maxIndex i => Z.max maxIndex (get_index selection i)) m l)).
  { induction l as [|j l IH]; intros m; simpl.
    - split; [lia|]. intros H. by apply elem_of_nil in H.
    - destruct (IH (Z.max m (get_index selection j))) as [Hle Hin].
      split; [lia|]. intros H. apply elem_of_cons in H as [->|H]; [lia|auto]. }
  destruct (Hgen (seq 0 size) 0) as [H0 Hin]. split; [done|].
  apply Hin. apply elem_of_seq. lia.
Qed.

(** The generic conversion of a dictionary column: the child is converted
    with [maxIndex + 1] rows, the first [size] entries of the selection are
    the indices, and the result is the dictionary over the converted
    child. *)
Lemma convert_dictionary (OP : Conversion DuckValue VeloxValue)
    (child : DuckVector DuckValue) (selection : list Z) (veloxType : TypePtr)
    (size : nat) (validity : option (list bool)) (base : VeloxVector VeloxValue) :
  convert' OP child veloxType (Z.to_nat (maxIndexOf selection size + 1))
    (if needsCopy (GetType DuckValue child)
     then Some (usedValues selection size (maxIndexOf selection size))
     else None)
  = Returns base ->
  convert' OP (DuckDictionary DuckValue child selection) veloxType size validity
  = Returns (wrapInDictionary VeloxValue None (take size selection) size base).
Proof.
  intros Hbase. simpl. by destruct (needsCopy (GetType DuckValue child)); rewrite Hbase.
Qed.

(** Reading row [i] of the converted dictionary column gives the row
    [selection[i]] of the converted child. *)
Lemma convert_dictionary_reads_through_selection
    (OP : Conversion DuckValue VeloxValue)
    (child : DuckVector DuckValue) (selection : list Z) (veloxType : TypePtr)
    (size : nat) (validity : option (list bool))
    (base converted : VeloxVector VeloxValue) (i : nat) (idx : Z) :
  convert' OP child veloxType (Z.to_nat (maxIndexOf selection size + 1))
    (if needsCopy (GetType DuckValue child)
     then Some (usedValues selection size (maxIndexOf selection size))
     else None)
  = Returns base ->
  convert' OP (DuckDictionary DuckValue child selection) veloxType size validity
  = Returns converted ->
  (i < size)%nat ->
  selection !! i = Some idx ->
  0 <= idx ->
  valueAt' converted i = valueAt' base (Z.to_nat idx).
Proof.
  intros Hbase Hconv Hi Hsel Hidx.
  rewrite (convert_dictionary _ _ _ _ _ _ _ Hbase) in Hconv.
  injection Hconv as <-. simpl.
  destruct (Nat.ltb_spec i size); [|lia].
  rewrite lookup_take_lt by done. rewrite Hsel. simpl.
  by rewrite decide_True.
Qed.

(** A flat child of a type whose layout the engines share is viewed in
    place: row [j] of the converted child is slot [j] of DuckDB's data. *)
Lemma convert_flat_view (OP : Conversion DuckValue VeloxValue)
    (type : LogicalType) (duckValidity : ValidityMask)
    (data : list (option DuckValue)) (veloxType : TypePtr) (n j : nat)
    (validity : option (list bool)) (base : VeloxVector VeloxValue) :
  needsCopy type = false ->
  convert' OP (DuckFlat DuckValue type duckValidity data) veloxType n validity
  = Returns base ->
  (j < n)%nat ->
  valueAt' base j = inPlace <$> mjoin (data !! j).
Proof.
  intros Hview Hconv Hj. simpl in Hconv. rewrite Hview in Hconv.
  injection Hconv as <-. unfold viewRows. simpl.
  destruct (Nat.ltb_spec j n); [|lia].
  rewrite list_lookup_fmap, lookup_seq_lt by done. done.
Qed.

(** The bitmap of used values has the bit of every selected index set. *)
Lemma usedValues_marks_selected (selection : list Z) (size i : nat) :
  (i < size)%nat ->
  0 <= get_index selection i ->
  isBitSet (usedValues selection size (maxIndexOf selection size))
    (Z.to_nat (get_index selection i))
  = true.
Proof.
  intros Hi Hidx. destruct (maxIndexOf_bound selection size i Hi) as [Hmax Hle].
  unfold usedValues, isBitSet.
  assert (Hgen : forall (l : list nat) (bitmap : list bool) (k : nat),
    (k < length bitmap)%nat ->
    bitmap !! k = Some true
    \/ (exists j, j ∈ l /\ Z.to_nat (get_index selection j) = k) ->
    foldl (fun bitmap i => <[Z.to_nat (get_index selection i) := true]> bitmap)
      bitmap l !! k = Some true).
  { induction l as [|j l IH]; intros bitmap k Hk Hset; simpl.
    - destruct Hset as [Hset|(j & Hj & _)]; [done|by apply elem_of_nil in Hj].
    - apply IH; [by rewrite length_insert|].
      destruct (decide (Z.to_nat (get_index selection j) = k)) as [->|Hne].
      + left. by apply list_lookup_insert_eq.
      + destruct Hset as [Hset|(j' & Hj' & Hk')].
        * left. by rewrite list_lookup_insert_ne.
        * apply elem_of_cons in Hj' as [->|Hj']; [done|]. right. by exists j'. }
  rewrite (Hgen (seq 0 size) _ (Z.to_nat (get_index selection i))); [done| |].
  - rewrite length_replicate. lia.
  - right. exists i. split; [|done]. apply elem_of_seq. lia.
Qed.

(** A flat child of a type that must be copied: row [j] of the converted
    child is the conversion of slot [j], when the row is valid and used. *)
Lemma convert_flat_copy (OP : Conversion DuckValue VeloxValue)
    (type : LogicalType) (duckValidity : ValidityMask)
    (data : list (option DuckValue)) (veloxType : TypePtr) (n j : nat)
    (validity : option (list bool)) (base : VeloxVector VeloxValue) :
  needsCopy type = true ->
  convert' OP (DuckFlat DuckValue type duckValidity data) veloxType n validity
  = Returns base ->
  (j < n)%nat ->
  RowIsValid duckValidity j = true ->
  match validity with None => True | Some bm => isBitSet bm j = true end ->
  valueAt' base j = toVelox DuckValue VeloxValue OP <$> mjoin (data !! j).
Proof.
  intros Hcopy Hconv Hj Hvalid Hused. simpl in Hconv. rewrite Hcopy in Hconv.
  injection Hconv as <-. unfold copyRows. simpl.
  destruct (Nat.ltb_spec j n); [|lia].
  rewrite list_lookup_fmap, lookup_seq_lt by done. simpl. rewrite Hvalid.
  destruct validity as [bm|]; [by rewrite Hused|done].
Qed.

(** The generic path on a dictionary over a flat child, whatever the type:
    the conversion returns, and row [i] of what it returns is the value of
    the child at [selection[i]]. *)
Lemma convert_dictionary_over_flat (OP : Conversion DuckValue VeloxValue)
    (type : LogicalType) (duckValidity : ValidityMask)
    (data : list (option DuckValue)) (selection : list Z)
    (veloxType : TypePtr) (size : nat) (validity : option (list bool))
    (i : nat) (idx : Z) :
  (i < size)%nat ->
  selection !! i = Some idx ->
  0 <= idx ->
  RowIsValid duckValidity (Z.to_nat idx) = true ->
  exists converted,
    convert' OP
      (DuckDictionary DuckValue (DuckFlat DuckValue type duckValidity data)
         selection)
      veloxType size validity
    = Returns converted
    /\ valueAt' converted i
       = (if needsCopy type then toVelox DuckValue VeloxValue OP else inPlace)
         <$> mjoin (data !! Z.to_nat idx).
Proof.
  intros Hi Hsel Hidx Hvalid.
  assert (Hget : get_index selection i = idx) by (unfold get_index; by rewrite Hsel).
  destruct (maxIndexOf_bound selection size i Hi) as [Hmax Hle].
  rewrite Hget in Hle.
  set (child := DuckFlat DuckValue type duckValidity data).
  destruct (convert' OP child veloxType (Z.to_nat (maxIndexOf selection size + 1))
              (if needsCopy (GetType DuckValue child)
               then Some (usedValues selection size (maxIndexOf selection size))
               else None)) as [base| |] eqn:Hbase;
    [|simpl in Hbase; by destruct (needsCopy type)..].
  eexists. split; [by apply convert_dictionary|].
  rewrite (convert_dictionary_reads_through_selection OP child selection
             veloxType size validity base _ i idx Hbase
             (convert_dictionary _ _ _ _ _ validity _ Hbase) Hi Hsel Hidx).
  subst child. simpl GetType in Hbase.
  destruct (needsCopy type) eqn:Hcopy.
  - eapply convert_flat_copy; [done|done|lia|done|].
    rewrite <- Hget. apply usedValues_marks_selected; [done|lia].
  - eapply convert_flat_view; [done|done|lia].
Qed.

End ConversionProperties.

Section DecimalConversion.

Import DuckWrapper.

(** The example of the specification on the generic path: base
    [[10, 20, 30]] under the selection [[2, 0, 2, 1]] reads
    [[30, 10, 30, 20]]. *)
Example integer_dictionary_scenario :
  rowsOf (toVeloxVectorZ 4 (dictionaryColumn integerType [2; 0; 2; 1])
            (toVeloxType integerType))
  = Some [Some 30; Some 10; Some 30; Some 20].
Proof. reflexivity. Qed.

(** C1: for a decimal column the selection is computed with and then
    dropped. Whatever the physical width of the decimal, the dictionary
    column over [[10, 20, 30]] with the selection [[2, 0, 1]] converts to the
    flat vector [[10, 20, 30]]: no dictionary is built and row [i] reads
    [child[i]], where the same column of integers reads [[30, 10, 20]]. *)
Theorem C1_decimal_dictionary_drops_selection :
  Forall
    (fun p =>
       exists type nulls values,
         toVeloxVectorZ 3 (dictionaryColumn (decimalType p) [2; 0; 1])
           (toVeloxType (decimalType p))
         = Returns (FlatVector Z type nulls 3 values)
         /\ readAll Z (FlatVector Z type nulls 3 values)
            = [Some 10; Some 20; Some 30])
    [INT16; INT32; INT64; INT128]
  /\ rowsOf (toVeloxVectorZ 3 (dictionaryColumn integerType [2; 0; 1])
               (toVeloxType integerType))
     = Some [Some 30; Some 10; Some 20].
Proof.
  split; [|reflexivity].
  repeat constructor; eexists _, _, _; split; reflexivity.
Qed.

(** In general the decimal conversion of a dictionary vector is the
    conversion of its child with the size of the chunk. *)
Lemma convertDuckToVeloxDecimal_dictionary {DuckValue VeloxValue : Type}
    (inPlace : DuckValue -> VeloxValue) (zero : VeloxValue)
    (ToString : LogicalType -> string)
    (OP : Conversion DuckValue VeloxValue) (child : DuckVector DuckValue)
    (selection : list Z) (veloxType : TypePtr) (size : nat)
    (validity : option (list bool)) :
  convertDuckToVeloxDecimal DuckValue VeloxValue inPlace zero ToString OP
    (DuckDictionary DuckValue child selection) veloxType size validity
  = convertDuckToVeloxDecimal DuckValue VeloxValue inPlace zero ToString OP
      child veloxType size None.
Proof. reflexivity. Qed.

End DecimalConversion.

(** * Further properties of the decimal header *)

Section Int128Algebra.

Import DecimalH.

Lemma fitsInt128_spec (z : Z) :
  fitsInt128 z = true <-> - 2 ^ 127 <= z <= 2 ^ 127 - 1.
Proof.
  unfold fitsInt128, INT128_MIN, INT128_MAX.
  rewrite andb_true_iff, !Z.leb_le. lia.
Qed.

Lemma fitsInt128_false (z : Z) :
  fitsInt128 z = false <-> ~ (- 2 ^ 127 <= z <= 2 ^ 127 - 1).
Proof.
  rewrite <- fitsInt128_spec. destruct (fitsInt128 z); split; congruence.
Qed.

(** Addition and subtraction undo each other: when [a + b] is returned,
    taking [b] off the sum returns [a]; and when [a - b] is returned, adding
    [b] back returns [a]. *)
Theorem Int128_add_sub_round_trip (a b c : Int128) :
  fitsInt128 (value a) = true ->
  (Int128_add a b = Returns c -> Int128_sub c b = Returns a)
  /\ (Int128_sub a b = Returns c -> Int128_add c b = Returns a).
Proof.
  intros Ha. rewrite !Int128_add_checked, !Int128_sub_checked. unfold checked.
  destruct a as [va], b as [vb], c as [vc]; simpl in *.
  split; intros Hop.
  - destruct (fitsInt128 (va + vb)); [|done]. injection Hop as <-.
    replace (va + vb - vb) with va by lia. by rewrite Ha.
  - destruct (fitsInt128 (va - vb)); [|done]. injection Hop as <-.
    replace (va - vb + vb) with va by lia. by rewrite Ha.
Qed.

Lemma Int128_add_sub_round_trip_witness :
  fitsInt128 (value (mkInt128 (2 ^ 127 - 6))) = true
  /\ (Int128_add (mkInt128 (2 ^ 127 - 6)) (mkInt128 5) = Returns (mkInt128 (2 ^ 127 - 1)) ->
      Int128_sub (mkInt128 (2 ^ 127 - 1)) (mkInt128 5) = Returns (mkInt128 (2 ^ 127 - 6))).
Proof.
  split; [reflexivity|].
  apply (Int128_add_sub_round_trip (mkInt128 (2 ^ 127 - 6)) (mkInt128 5)
           (mkInt128 (2 ^ 127 - 1))).
  reflexivity.
Defined.

(** Addition and multiplication do not depend on the order of their
    operands, failures included. *)
Theorem Int128_add_mul_commute (a b : Int128) :
  Int128_add a b = Int128_add b a /\ Int128_mul a b = Int128_mul b a.
Proof.
  rewrite !Int128_add_checked, !Int128_mul_checked.
  by rewrite (Z.add_comm (value b)), (Z.mul_comm (value b)).
Qed.

(** The complement of a 128-bit value is a 128-bit value, complementing
    twice gives the value back, and a value added to its complement is
    always [-1], with no overflow. *)
Theorem Int128_not_involutive (a : Int128) :
  fitsInt128 (value a) = true ->
  fitsInt128 (value (Int128_not a)) = true
  /\ Int128_not (Int128_not a) = a
  /\ Int128_add a (Int128_not a) = Returns (mkInt128 (-1)).
Proof.
  intros Ha. apply fitsInt128_spec in Ha.
  destruct a as [v]. unfold Int128_not. simpl in *.
  split; [|split].
  - apply fitsInt128_spec. unfold Z.lnot. lia.
  - by rewrite Z.lnot_involutive.
  - rewrite Int128_add_checked. unfold checked. simpl.
    replace (v + Z.lnot v) with (-1) by (unfold Z.lnot; lia). done.
Qed.

Lemma Int128_not_involutive_witness :
  fitsInt128 (value (mkInt128 (2 ^ 127 - 1))) = true
  /\ fitsInt128 (value (Int128_not (mkInt128 (2 ^ 127 - 1)))) = true
  /\ Int128_not (Int128_not (mkInt128 (2 ^ 127 - 1))) = mkInt128 (2 ^ 127 - 1)
  /\ Int128_add (mkInt128 (2 ^ 127 - 1)) (Int128_not (mkInt128 (2 ^ 127 - 1)))
     = Returns (mkInt128 (-1)).
Proof.
  split; [reflexivity|].
  apply (Int128_not_involutive (mkInt128 (2 ^ 127 - 1))). reflexivity.
Defined.

End Int128Algebra.

(** * What the parser computes *)

Section ParserExactness.

Import DecimalH.

Local Open Scope string_scope.

Lemma digitsValueFrom_ge (cs : list ascii) :
  forall a, 0 <= a -> a <= digitsValueFrom a cs.
Proof.
  induction cs as [|c cs IH]; intros a Ha; simpl; [lia|].
  destruct (isdigit c) eqn:Hd; [|by apply IH].
  pose proof (isdigit_value c Hd). unfold digitValue.
  etransitivity; [|apply IH]; lia.
Qed.

(** The run of the loop body over allowed characters: the exact signed
    value when it fits 128 bits, with the count of digits and of digits
    after the dot; the failed check otherwise. *)
Lemma parse_chars_exact (neg : bool) (cs : list ascii) :
  forall (st : ParseState) (a : Z),
    forallb allowedChar cs = true ->
    0 <= a ->
    value (result st) = sgn neg * a ->
    fitsInt128 (value (result st)) = true ->
    0 <= scale st <= precision st ->
    precision st + Z.of_nat (length cs) <= 255 ->
    if fitsInt128 (sgn neg * digitsValueFrom a cs)
    then exists st',
           parse_chars neg cs st = Returns st'
           /\ value (result st') = sgn neg * digitsValueFrom a cs
           /\ precision st' = precision st + Z.of_nat (digitsOf cs)
           /\ scale st' = scale st + Z.of_nat (scaleFrom (hasScale st) cs)
    else parse_chars neg cs st = Throws (VeloxRuntimeError EmptyString).
Proof.
  induction cs as [|c cs IH]; intros st a Hall Ha Hres Hfit Hscale Hprec.
  - simpl. rewrite <- Hres, Hfit. exists st. unfold digitsOf. simpl.
    split; [done|]. split; [done|]. split; lia.
  - simpl in Hall. apply andb_true_iff in Hall as [Hc Hall].
    simpl length in Hprec. simpl parse_chars. simpl digitsValueFrom.
    unfold allowedChar in Hc. destruct (isdigit c) eqn:Hd.
    + pose proof (isdigit_value c Hd) as Hdv.
      pose proof (digitsValueFrom_ge cs (a * 10 + digitValue c)
                    ltac:(unfold digitValue; lia)) as Hge.
      rewrite parse_step_digit by done.
      assert (Hacc : accumulate neg c (value (result st))
                     = sgn neg * (a * 10 + digitValue c)).
      { unfold accumulate, digitValue, sgn. rewrite Hres. unfold sgn.
        destruct neg; lia. }
      specialize (IH (mkParseState
                        (mkInt128 (accumulate neg c (value (result st))))
                        (uint8_incr (precision st))
                        (if hasScale st then uint8_incr (scale st) else scale st)
                        (hasScale st) (uint8_incr (pos st)))
                     (a * 10 + digitValue c) Hall
                     ltac:(unfold digitValue; lia) Hacc).
      simpl in IH. rewrite (uint8_incr_small (precision st)) in IH by lia.
      destruct (fitsInt128 (value (result st) * 10)
                && fitsInt128 (accumulate neg c (value (result st)))) eqn:Hstep.
      * apply andb_true_iff in Hstep as [_ Hfit2].
        assert (Hsc : 0 <= (if hasScale st then uint8_incr (scale st) else scale st)
                      <= precision st + 1).
        { destruct (hasScale st); [rewrite uint8_incr_small by lia|]; lia. }
        specialize (IH Hfit2 Hsc ltac:(lia)). simpl.
        rewrite (uint8_incr_small (precision st)) by lia.
        destruct (fitsInt128 (sgn neg * digitsValueFrom (a * 10 + digitValue c) cs));
          [|done].
        destruct IH as (st' & Hrun & Hv & Hp & Hs). exists st'.
        split; [done|]. split; [done|].
        unfold digitsOf in *. rewrite filter_cons, decide_True by done.
        rewrite (isdigit_not_dot c Hd), Hd. simpl length.
        split; [lia|]. rewrite Hs.
        destruct (hasScale st); [rewrite uint8_incr_small by lia|]; lia.
      * destruct (fitsInt128 (sgn neg * digitsValueFrom (a * 10 + digitValue c) cs))
          eqn:Hfinal; [|done].
        exfalso. apply fitsInt128_spec in Hfinal, Hfit.
        apply andb_false_iff in Hstep as [Hbad|Hbad];
          apply fitsInt128_false in Hbad; apply Hbad;
          rewrite ?Hacc, ?Hres; unfold sgn, digitValue in *; destruct neg; lia.
    + simpl in Hc. unfold char_eqb in Hc. apply Ascii.eqb_eq in Hc as ->.
      rewrite parse_step_dot. simpl.
      specialize (IH (mkParseState (result st) (precision st) (scale st) true
                        (uint8_incr (pos st))) a Hall Ha Hres Hfit Hscale
                     ltac:(simpl; lia)).
      simpl in IH.
      destruct (fitsInt128 (sgn neg * digitsValueFrom a cs)); [|done].
      destruct IH as (st' & Hrun & Hv & Hp & Hs). exists st'.
      split; [done|]. split; [done|].
      unfold digitsOf in *. rewrite filter_cons, decide_False by done.
      split; [done|]. done.
Qed.

(** The parser seen from the string: past the first character, which
    decides the sign, the loop runs on the significant characters. *)
Lemma parseStringToDecimal_unfold (fuel : nat) (s : string) :
  String.length s <> 0%nat ->
  startsWithDigitOrSign s = true ->
  parseStringToDecimal fuel s
  = match parse_loop fuel (significant s) (startsNegative s) parseStart with
    | Returns st => Returns (mkDecimal (result st) (precision st) (scale st))
    | Throws (VeloxRuntimeError _) => Throws (VeloxUserError "Decimal overflow")
    | Throws e => Throws e
    | OutOfFuel => OutOfFuel
    end.
Proof.
  intros Hlen Hstart.
  unfold parseStringToDecimal, parseToInt128, startsWithDigitOrSign,
    startsNegative, significant, firstChar in *.
  destruct (Nat.eqb_spec (String.length s) 0) as [|_]; [done|].
  destruct (list_ascii_of_string s) as [|c0 rest] eqn:Hs.
  { apply (f_equal length) in Hs. rewrite list_ascii_length in Hs. done. }
  change ((c0 :: rest) !! 0%nat) with (Some c0) in *. simpl default in *.
  fold parseStart. unfold bodyOf.
  destruct (isdigit c0) eqn:Hd0; simpl negb; cbv iota.
  - rewrite (isdigit_not_sign c0 Hd0).
    assert (char_eqb c0 "-" = false) as ->.
    { pose proof (isdigit_not_sign c0 Hd0) as H.
      by apply orb_false_iff in H as [-> _]. }
    cbn [mbind Outcome_bind].
    by destruct (parse_loop fuel _ false parseStart) as [st|e|].
  - simpl in Hstart. rewrite Hstart. cbn [mbind Outcome_bind tail].
    by destruct (parse_loop fuel _ _ parseStart) as [st|e|].
Qed.

Lemma erase_leading_zeros_allowed (v : list ascii) :
  forallb allowedChar v = true ->
  forallb allowedChar (erase_leading_zeros v) = true.
Proof.
  induction v as [|c v IH]; simpl; [done|]. intros Hall.
  apply andb_true_iff in Hall as [Hc Hall].
  destruct (char_eqb c "0"); [by apply IH|]. simpl. by rewrite Hc, Hall.
Qed.

Lemma bodyOf_length (v : list ascii) : (length (bodyOf v) <= length v)%nat.
Proof.
  destruct v as [|c v]; simpl; [lia|].
  destruct (char_eqb c "-" || char_eqb c "+"); simpl; lia.
Qed.

Lemma significant_length (s : string) :
  (length (significant s) <= String.length s)%nat.
Proof.
  unfold significant. rewrite <- list_ascii_length.
  pose proof (erase_leading_zeros_length (bodyOf (list_ascii_of_string s))).
  pose proof (bodyOf_length (list_ascii_of_string s)). lia.
Qed.

(** The parser on the strings it is made for. *)
Lemma parse_exact_core (fuel : nat) (s : string) :
  (0 < String.length s < 256)%nat ->
  (String.length s < fuel)%nat ->
  startsWithDigitOrSign s = true ->
  charsAllowed s = true ->
  parseStringToDecimal fuel s
  = if fitsInt128 (signedValue s) then Returns (denoted s)
    else Throws (VeloxUserError "Decimal overflow").
Proof.
  intros Hlen Hfuel Hstart Hall.
  pose proof (significant_length s) as Hsig.
  rewrite parseStringToDecimal_unfold by (done || lia).
  rewrite parse_loop_unrolls by (simpl; lia).
  change (drop _ ?l) with l.
  pose proof (parse_chars_exact (startsNegative s) (significant s) parseStart 0)
    as Hexact.
  unfold signedValue, denoted.
  specialize (Hexact (erase_leading_zeros_allowed _ Hall) ltac:(lia)).
  unfold parseStart, Int128_default in Hexact. simpl in Hexact.
  specialize (Hexact ltac:(lia) ltac:(reflexivity) ltac:(lia) ltac:(lia)).
  unfold parseStart, Int128_default.
  destruct (fitsInt128 (sgn (startsNegative s) * digitsValueFrom 0 (significant s))).
  - destruct Hexact as (st' & -> & Hv & Hp & Hs).
    destruct st' as [[v] p sc hs ps]. simpl in *. by subst.
  - by rewrite Hexact.
Qed.

(** The parser is exact on the strings it is made for: a string of fewer
    than 256 characters that starts with a digit or a sign and goes on with
    digits and dots is parsed to the decimal it denotes (its signed value,
    its count of significant digits as precision, its count of digits
    after the first dot as scale) when the signed value fits 128 bits, and
    fails with ["Decimal overflow"] when it does not. *)
Theorem parseStringToDecimal_exact (fuel : nat) (s : string) :
  (0 < String.length s < 256)%nat ->
  (String.length s < fuel)%nat ->
  startsWithDigitOrSign s = true ->
  charsAllowed s = true ->
  parseStringToDecimal fuel s
  = if fitsInt128 (signedValue s) then Returns (denoted s)
    else Throws (VeloxUserError "Decimal overflow").
Proof. exact (parse_exact_core fuel s). Qed.

Lemma parseStringToDecimal_exact_witness :
  ((0 < String.length "-0012.50" < 256)%nat
   /\ (String.length "-0012.50" < 64)%nat
   /\ startsWithDigitOrSign "-0012.50" = true
   /\ charsAllowed "-0012.50" = true)
  /\ parseStringToDecimal 64 "-0012.50"
     = if fitsInt128 (signedValue "-0012.50") then Returns (denoted "-0012.50")
       else Throws (VeloxUserError "Decimal overflow").
Proof.
  split; [repeat split; try reflexivity; simpl; lia|].
  apply (parseStringToDecimal_exact 64 "-0012.50");
    [simpl; lia|simpl; lia|reflexivity|reflexivity].
Defined.

(** Up to 38 significant digits are always accepted: such a string is
    parsed to the decimal it denotes. *)
Theorem parseStringToDecimal_accepts_38_digits (fuel : nat) (s : string) :
  (0 < String.length s < 256)%nat ->
  (String.length s < fuel)%nat ->
  startsWithDigitOrSign s = true ->
  charsAllowed s = true ->
  (digitsOf (significant s) <= 38)%nat ->
  parseStringToDecimal fuel s = Returns (denoted s).
Proof.
  intros Hlen Hfuel Hstart Hall Hdigits.
  pose proof (significant_length s) as Hsig.
  rewrite (parse_exact_core fuel s Hlen Hfuel Hstart Hall).
  destruct (fitsInt128 (signedValue s)) eqn:Hfit; [done|]. exfalso.
  pose proof (parse_chars_exact (startsNegative s) (significant s) parseStart 0
                (erase_leading_zeros_allowed _ Hall) ltac:(lia)) as Hexact.
  unfold parseStart, Int128_default in Hexact. simpl in Hexact.
  specialize (Hexact ltac:(lia) ltac:(reflexivity) ltac:(lia) ltac:(lia)).
  unfold signedValue in Hfit. rewrite Hfit in Hexact.
  revert Hexact. apply parse_chars_no_overflow.
  - unfold parseInv. simpl. destruct (startsNegative s); lia.
  - simpl. lia.
Qed.

Lemma parseStringToDecimal_accepts_38_digits_witness :
  ((0 < String.length "00000000000000000000000000000000000000000.5" < 256)%nat
   /\ (digitsOf (significant "00000000000000000000000000000000000000000.5")
       <= 38)%nat)
  /\ parseStringToDecimal 64 "00000000000000000000000000000000000000000.5"
     = Returns (denoted "00000000000000000000000000000000000000000.5").
Proof.
  split; [split; [simpl; lia|vm_compute; lia]|].
  apply (parseStringToDecimal_accepts_38_digits 64);
    [simpl; lia|simpl; lia|reflexivity|reflexivity|vm_compute; lia].
Defined.

(** Only the sign and the significant characters matter: two strings that
    start with a digit or a sign, agree on being negative and have the same
    characters once the sign and the leading zeros are taken off are parsed
    alike, failures included. *)
Theorem parseStringToDecimal_sign_and_significant_only (fuel : nat)
    (s1 s2 : string) :
  String.length s1 <> 0%nat ->
  String.length s2 <> 0%nat ->
  startsWithDigitOrSign s1 = true ->
  startsWithDigitOrSign s2 = true ->
  startsNegative s1 = startsNegative s2 ->
  significant s1 = significant s2 ->
  parseStringToDecimal fuel s1 = parseStringToDecimal fuel s2.
Proof.
  intros Hl1 Hl2 Hs1 Hs2 Hneg Hsig.
  rewrite !parseStringToDecimal_unfold by done. by rewrite Hneg, Hsig.
Qed.

Lemma parseStringToDecimal_sign_and_significant_only_witness :
  (startsNegative "+007.50" = startsNegative "7.50"
   /\ significant "+007.50" = significant "7.50")
  /\ parseStringToDecimal 64 "+007.50" = parseStringToDecimal 64 "7.50".
Proof.
  split; [split; reflexivity|].
  apply (parseStringToDecimal_sign_and_significant_only 64 "+007.50" "7.50");
    (reflexivity || discriminate).
Defined.

(** A first character that is neither a digit nor a sign. *)
Lemma illegal_start_core (fuel : nat) (s : string) :
  String.length s <> 0%nat ->
  startsWithDigitOrSign s = false ->
  parseStringToDecimal fuel s
  = Throws (VeloxUserError ("Illegal decimal value " ++ s)).
Proof.
  intros Hlen Hstart.
  unfold parseStringToDecimal, parseToInt128, startsWithDigitOrSign, firstChar in *.
  destruct (Nat.eqb_spec (String.length s) 0) as [|_]; [done|].
  rewrite string_of_list_ascii_of_string.
  apply orb_false_iff in Hstart as [Hstart Hplus].
  apply orb_false_iff in Hstart as [Hdigit Hminus].
  by rewrite Hdigit, Hminus, Hplus.
Qed.

(** A first character that is neither a digit nor a sign, a dot included,
    is refused with ["Illegal decimal value"] and the string, whatever
    follows. *)
Theorem parseStringToDecimal_illegal_start (fuel : nat) (s : string) :
  String.length s <> 0%nat ->
  startsWithDigitOrSign s = false ->
  parseStringToDecimal fuel s
  = Throws (VeloxUserError ("Illegal decimal value " ++ s)).
Proof. exact (illegal_start_core fuel s). Qed.

Lemma parseStringToDecimal_illegal_start_witness :
  (String.length ".5" <> 0%nat /\ startsWithDigitOrSign ".5" = false)
  /\ parseStringToDecimal 64 ".5"
     = Throws (VeloxUserError ("Illegal decimal value " ++ ".5")).
Proof.
  split; [split; [discriminate|reflexivity]|].
  apply (parseStringToDecimal_illegal_start 64 ".5"); [discriminate|reflexivity].
Defined.

Lemma parse_step_throws (neg : bool) (c : ascii) (st : ParseState)
    (e : VeloxException) :
  parse_step neg c st = Throws e ->
  e = VeloxUserError "Invalid decimal string"
  \/ e = VeloxRuntimeError EmptyString.
Proof.
  destruct (char_eqb c ".") eqn:Hdot.
  - unfold parse_step. by rewrite Hdot.
  - destruct (isdigit c) eqn:Hd.
    + rewrite parse_step_digit by done.
      destruct (_ && _); [done|]. intros [= <-]. by right.
    + rewrite parse_step_bad by (unfold allowedChar; by rewrite Hd, Hdot).
      intros [= <-]. by left.
Qed.

Lemma parse_loop_throws (fuel : nat) (v : list ascii) (neg : bool) :
  forall (st : ParseState) (e : VeloxException),
    parse_loop fuel v neg st = Throws e ->
    e = VeloxUserError "Invalid decimal string"
    \/ e = VeloxRuntimeError EmptyString.
Proof.
  induction fuel as [|fuel IH]; intros st e; simpl; [done|].
  destruct (pos st <? Z.of_nat (length v))%Z; [|done].
  destruct (v !! Z.to_nat (pos st)) as [c|]; [|done].
  destruct (parse_step neg c st) as [st1|e1|] eqn:Hstep; simpl; [apply IH| |done].
  intros [= <-]. by eapply parse_step_throws.
Qed.

(** Every failure on a non-empty string is a user error with one of three
    messages: the runtime error of a failed overflow check never leaves
    [parseStringToDecimal]. *)
Theorem parseStringToDecimal_fails_with_user_errors (fuel : nat) (s : string)
    (e : VeloxException) :
  String.length s <> 0%nat ->
  parseStringToDecimal fuel s = Throws e ->
  e = VeloxUserError ("Illegal decimal value " ++ s)
  \/ e = VeloxUserError "Invalid decimal string"
  \/ e = VeloxUserError "Decimal overflow".
Proof.
  intros Hlen Hthrow. destruct (startsWithDigitOrSign s) eqn:Hstart.
  - rewrite parseStringToDecimal_unfold in Hthrow by done.
    destruct (parse_loop fuel _ _ parseStart) as [st|e1|] eqn:Hloop; [done| |done].
    apply parse_loop_throws in Hloop as [->| ->]; injection Hthrow as <-; auto.
  - rewrite illegal_start_core in Hthrow by done.
    injection Hthrow as <-. by left.
Qed.

Lemma parseStringToDecimal_fails_with_user_errors_witness :
  (String.length "340282366920938463463374607431768211456" <> 0%nat
   /\ parseStringToDecimal 64 "340282366920938463463374607431768211456"
      = Throws (VeloxUserError "Decimal overflow"))
  /\ (VeloxUserError "Decimal overflow"
      = VeloxUserError
          ("Illegal decimal value " ++ "340282366920938463463374607431768211456")
      \/ VeloxUserError "Decimal overflow" = VeloxUserError "Invalid decimal string"
      \/ VeloxUserError "Decimal overflow" = VeloxUserError "Decimal overflow").
Proof.
  split; [split; [discriminate|vm_compute; reflexivity]|].
  apply (parseStringToDecimal_fails_with_user_errors 64
           "340282366920938463463374607431768211456");
    [discriminate|vm_compute; reflexivity].
Defined.

(** A normal exit of the loop has tested the position once for each
    character left, and once more. *)
Lemma parse_loop_returns_fuel (fuel : nat) (v : list ascii) (neg : bool) :
  forall st st' : ParseState,
    (length v <= 255)%nat ->
    0 <= pos st ->
    parse_loop fuel v neg st = Returns st' ->
    (length v - Z.to_nat (pos st) < fuel)%nat.
Proof.
  induction fuel as [|fuel IH]; intros st st' Hlen Hpos; [done|].
  simpl. destruct (Z.ltb_spec (pos st) (Z.of_nat (length v))) as [Hlt|Hge];
    [|intros _; lia].
  destruct (lookup_lt_is_Some_2 v (Z.to_nat (pos st)) ltac:(lia)) as [c Hc].
  rewrite Hc. destruct (parse_step neg c st) as [st1| |] eqn:Hstep; try done.
  simpl. intros Hrun. apply parse_step_pos in Hstep.
  rewrite uint8_incr_small in Hstep by lia.
  apply IH in Hrun; [|done|lia]. rewrite Hstep in Hrun. lia.
Qed.

(** The loop up to a character that is neither a digit nor a dot and stands
    among the first 256: the body runs on the characters before it, and the
    character stops the loop if nothing did before. *)
Lemma parse_loop_stops_at (fuel : nat) (v : list ascii) (neg : bool)
    (k : nat) (c : ascii) :
  forall st : ParseState,
    v !! k = Some c ->
    allowedChar c = false ->
    (k < 256)%nat ->
    0 <= pos st ->
    (Z.to_nat (pos st) <= k)%nat ->
    (k - Z.to_nat (pos st) < fuel)%nat ->
    parse_loop fuel v neg st
    = (_ ← parse_chars neg
             (take (k - Z.to_nat (pos st)) (drop (Z.to_nat (pos st)) v)) st;
       Throws (VeloxUserError "Invalid decimal string")).
Proof.
  induction fuel as [|fuel IH]; intros st Hk Hc Hk256 Hpos Hle Hfuel; [lia|].
  pose proof (lookup_lt_Some _ _ _ Hk) as Hklen.
  simpl parse_loop.
  destruct (Z.ltb_spec (pos st) (Z.of_nat (length v))) as [Hlt|Hge]; [|lia].
  destruct (lookup_lt_is_Some_2 v (Z.to_nat (pos st)) ltac:(lia)) as [c0 Hc0].
  rewrite Hc0, (drop_S _ _ _ Hc0).
  destruct (decide (Z.to_nat (pos st) = k)) as [Heq|Hne].
  - rewrite Heq, Hk in Hc0. injection Hc0 as <-.
    rewrite Heq, Nat.sub_diag. simpl. by rewrite parse_step_bad.
  - replace (k - Z.to_nat (pos st))%nat with (S (k - S (Z.to_nat (pos st))))
      by lia.
    simpl. destruct (parse_step neg c0 st) as [st1| |] eqn:Hstep; try done.
    simpl. apply parse_step_pos in Hstep.
    rewrite uint8_incr_small in Hstep by lia.
    rewrite IH by (rewrite ?Hstep; (done || lia)).
    rewrite Hstep.
    by replace (Z.to_nat (pos st + 1)) with (S (Z.to_nat (pos st))) by lia.
Qed.

Lemma firstDisallowed_spec (cs : list ascii) :
  forallb allowedChar cs = false ->
  exists (k : nat) (c : ascii),
    firstDisallowed cs = Some k
    /\ cs !! k = Some c
    /\ allowedChar c = false
    /\ forallb allowedChar (take k cs) = true.
Proof.
  induction cs as [|c cs IH]; simpl; [done|].
  destruct (allowedChar c) eqn:Hc.
  - simpl. intros Hbad. destruct (IH Hbad) as (k & c' & -> & Hk & Hc' & Hpre).
    exists (S k), c'. simpl. by rewrite Hc.
  - intros _. by exists 0%nat, c.
Qed.

(** The parser on a string that starts with a digit or a sign and whose
    significant characters are digits and dots, at most 255 of them. *)
Lemma parse_exact_significant (fuel : nat) (s : string) :
  String.length s <> 0%nat ->
  startsWithDigitOrSign s = true ->
  (length (significant s) <= 255)%nat ->
  (length (significant s) < fuel)%nat ->
  forallb allowedChar (significant s) = true ->
  parseStringToDecimal fuel s
  = if fitsInt128 (signedValue s) then Returns (denoted s)
    else Throws (VeloxUserError "Decimal overflow").
Proof.
  intros Hlen Hstart Hsig Hfuel Hall.
  rewrite parseStringToDecimal_unfold by done.
  rewrite parse_loop_unrolls by (simpl; lia).
  change (drop _ ?l) with l.
  pose proof (parse_chars_exact (startsNegative s) (significant s) parseStart 0)
    as Hexact.
  unfold signedValue, denoted.
  specialize (Hexact Hall ltac:(lia)).
  unfold parseStart, Int128_default in Hexact. simpl in Hexact.
  specialize (Hexact ltac:(lia) ltac:(reflexivity) ltac:(lia) ltac:(lia)).
  unfold parseStart, Int128_default.
  destruct (fitsInt128 (sgn (startsNegative s) * digitsValueFrom 0 (significant s))).
  - destruct Hexact as (st' & -> & Hv & Hp & Hs).
    destruct st' as [[v] p sc hs ps]. simpl in *. by subst.
  - by rewrite Hexact.
Qed.

(** What a returned [Decimal] tells of the string: it starts with a digit
    or a sign, its significant characters are digits and dots, at most 255
    of them, all read within the steps granted, and the decimal is the one
    the string denotes. *)
Lemma parse_returns_core (fuel : nat) (s : string) (d : Decimal) :
  parseStringToDecimal fuel s = Returns d ->
  String.length s <> 0%nat
  /\ startsWithDigitOrSign s = true
  /\ (length (significant s) <= 255)%nat
  /\ (length (significant s) < fuel)%nat
  /\ forallb allowedChar (significant s) = true
  /\ fitsInt128 (signedValue s) = true
  /\ d = denoted s.
Proof.
  intros Hrun.
  assert (Hlen : String.length s <> 0%nat).
  { intros H0. unfold parseStringToDecimal in Hrun. by rewrite H0 in Hrun. }
  destruct (startsWithDigitOrSign s) eqn:Hstart;
    [|by rewrite illegal_start_core in Hrun].
  pose proof Hrun as Hloop.
  rewrite parseStringToDecimal_unfold in Hloop by done.
  destruct (parse_loop fuel _ _ parseStart) as [st|e|] eqn:Hl;
    [clear Hloop|by destruct e|done].
  destruct (le_lt_dec 256 (length (significant s))) as [Hlong|Hshort].
  { by apply parse_loop_long_never_returns in Hl. }
  pose proof (parse_loop_returns_fuel fuel (significant s) (startsNegative s)
                parseStart st ltac:(lia) ltac:(done) Hl) as Hfuel.
  simpl in Hfuel.
  rewrite parse_loop_unrolls in Hl by (simpl; lia).
  change (drop _ ?l) with l in Hl.
  destruct (forallb allowedChar (significant s)) eqn:Hall.
  2: { destruct (parse_chars_bad (startsNegative s) _ parseStart Hall) as [H|H];
         by rewrite H in Hl. }
  rewrite (parse_exact_significant fuel s) in Hrun by (done || lia).
  destruct (fitsInt128 (signedValue s)); [|done]. injection Hrun as <-.
  split; [done|]. split; [done|]. split; [lia|]. split; [lia|]. done.
Qed.

(** A minus sign negates: when the string with a plus sign is parsed to a
    decimal, the string with a minus sign is parsed to the decimal of the
    opposite unscaled value, with the same precision and scale. *)
Theorem parseStringToDecimal_minus_negates (fuel : nat) (body : string)
    (d : Decimal) :
  parseStringToDecimal fuel (String "+" body) = Returns d ->
  parseStringToDecimal fuel (String "-" body)
  = Returns (mkDecimal (mkInt128 (- value (unscaledValue_ d)))
               (precision_ d) (scale_ d)).
Proof.
  intros Hplus.
  apply parse_returns_core in Hplus as (_ & _ & Hsig & Hfuel & Hall & Hfit & ->).
  assert (Hsame : significant (String "-" body) = significant (String "+" body))
    by reflexivity.
  rewrite parse_exact_significant by (by rewrite ?Hsame).
  unfold signedValue, denoted in *. rewrite Hsame.
  change (startsNegative (String "+" body)) with false in *.
  change (startsNegative (String "-" body)) with true.
  pose proof (digitsValueFrom_ge (significant (String "+" body)) 0 ltac:(lia))
    as Hge.
  unfold sgn in *. apply fitsInt128_spec in Hfit.
  assert (Hneg : fitsInt128 (-1 * digitsValueFrom 0 (significant (String "+" body)))
                 = true) by (apply fitsInt128_spec; lia).
  rewrite Hneg. simpl. do 3 f_equal. unfold signedValue. rewrite Hsame.
  change (startsNegative (String "+" body)) with false.
  change (startsNegative (String "-" body)) with true.
  unfold sgn. lia.
Qed.

Lemma parseStringToDecimal_minus_negates_witness :
  parseStringToDecimal 64 (String "+" "12.5")
    = Returns (mkDecimal (mkInt128 125) 3 1)
  /\ parseStringToDecimal 64 (String "-" "12.5")
     = Returns (mkDecimal
                  (mkInt128 (- value (unscaledValue_ (mkDecimal (mkInt128 125) 3 1))))
                  (precision_ (mkDecimal (mkInt128 125) 3 1))
                  (scale_ (mkDecimal (mkInt128 125) 3 1))).
Proof.
  split; [reflexivity|].
  apply (parseStringToDecimal_minus_negates 64 "12.5"). reflexivity.
Defined.

(** With 256 significant characters or more no decimal is ever returned,
    however many steps are granted: the position is a [uint8_t] and the loop
    has no normal exit. *)
Theorem parseStringToDecimal_long_never_returns (fuel : nat) (s : string)
    (d : Decimal) :
  (256 <= length (significant s))%nat ->
  parseStringToDecimal fuel s <> Returns d.
Proof.
  intros Hlong.
  pose proof (significant_length s) as Hsig.
  destruct (startsWithDigitOrSign s) eqn:Hstart.
  - rewrite parseStringToDecimal_unfold by (done || lia).
    destruct (parse_loop fuel _ _ parseStart) as [st|e|] eqn:Hloop;
      [|by destruct e|done].
    by apply parse_loop_long_never_returns in Hloop.
  - by rewrite illegal_start_core by (done || lia).
Qed.

Lemma parseStringToDecimal_long_never_returns_witness :
  (256 <= length (significant signDotsLetter))%nat
  /\ parseStringToDecimal 1000 signDotsLetter
     <> Returns (mkDecimal (mkInt128 0) 0 0).
Proof.
  split; [apply Nat.leb_le; vm_compute; reflexivity|].
  apply (parseStringToDecimal_long_never_returns 1000 signDotsLetter).
  apply Nat.leb_le; vm_compute; reflexivity.
Defined.

(** ** The claims on refused and on returned strings *)

(** C3, as the code has it: a non-empty string in which, after an optional
    single leading sign, some character is neither a digit nor a dot is
    never parsed to a decimal. When its first character is neither a digit
    nor a sign the outcome is the validation error
    ["Illegal decimal value"] with the string. Otherwise, with [k] the place
    of the first such character among the characters left once the sign and
    the leading zeros are erased, and [k] below 256, the outcome is decided
    by the digits before that character, taken with the sign: the
    validation error ["Invalid decimal string"] when their value fits 128
    bits, ["Decimal overflow"] when it does not. *)
Theorem C3_disallowed_character_is_refused (fuel : nat) (s : string) :
  String.length s <> 0%nat ->
  charsAllowed s = false ->
  (forall d : Decimal, parseStringToDecimal fuel s <> Returns d)
  /\ (startsWithDigitOrSign s = false ->
      parseStringToDecimal fuel s
      = Throws (VeloxUserError ("Illegal decimal value " ++ s)))
  /\ (startsWithDigitOrSign s = true ->
      exists k : nat,
        firstDisallowed (significant s) = Some k
        /\ ((k < 256)%nat ->
            (k < fuel)%nat ->
            parseStringToDecimal fuel s
            = if fitsInt128 (sgn (startsNegative s)
                             * digitsValueFrom 0 (take k (significant s)))
              then Throws (VeloxUserError "Invalid decimal string")
              else Throws (VeloxUserError "Decimal overflow"))).
Proof.
  intros Hlen Hbad.
  assert (Hsig : forallb allowedChar (significant s) = false)
    by (by apply erase_leading_zeros_bad).
  split; [|split].
  - intros d Hrun.
    apply parse_returns_core in Hrun as (_ & _ & _ & _ & Hall & _). congruence.
  - by apply illegal_start_core.
  - intros Hstart.
    destruct (firstDisallowed_spec _ Hsig) as (k & c & Hk & Hc & Hcbad & Hpre).
    exists k. split; [done|]. intros Hk256 Hfuel.
    rewrite parseStringToDecimal_unfold by done.
    rewrite (parse_loop_stops_at fuel _ _ k c) by (simpl; (done || lia)).
    simpl (Z.to_nat (pos parseStart)). rewrite Nat.sub_0_r, drop_0.
    pose proof (parse_chars_exact (startsNegative s) (take k (significant s))
                  parseStart 0 Hpre ltac:(lia)) as Hexact.
    unfold parseStart, Int128_default in Hexact |- *. simpl in Hexact.
    pose proof (length_take_le (significant s) k
                  ltac:(apply lookup_lt_Some in Hc; lia)) as Htake.
    specialize (Hexact ltac:(lia) ltac:(reflexivity) ltac:(lia) ltac:(lia)).
    destruct (fitsInt128 (sgn (startsNegative s)
                          * digitsValueFrom 0 (take k (significant s)))).
    + by destruct Hexact as (st' & -> & _).
    + by rewrite Hexact.
Qed.

Lemma C3_disallowed_character_is_refused_witness :
  (String.length "-0012x5" <> 0%nat /\ charsAllowed "-0012x5" = false)
  /\ (forall d : Decimal, parseStringToDecimal 64 "-0012x5" <> Returns d)
  /\ (startsWithDigitOrSign "-0012x5" = false ->
      parseStringToDecimal 64 "-0012x5"
      = Throws (VeloxUserError ("Illegal decimal value " ++ "-0012x5")))
  /\ (startsWithDigitOrSign "-0012x5" = true ->
      exists k : nat,
        firstDisallowed (significant "-0012x5") = Some k
        /\ ((k < 256)%nat ->
            (k < 64)%nat ->
            parseStringToDecimal 64 "-0012x5"
            = if fitsInt128 (sgn (startsNegative "-0012x5")
                             * digitsValueFrom 0 (take k (significant "-0012x5")))
              then Throws (VeloxUserError "Invalid decimal string")
              else Throws (VeloxUserError "Decimal overflow"))).
Proof.
  split; [split; [discriminate|reflexivity]|].
  apply (C3_disallowed_character_is_refused 64 "-0012x5");
    [discriminate|reflexivity].
Defined.

(** C4, as the code has it: every [Decimal] that [parseStringToDecimal]
    returns has for precision the number of digits left in the string once
    the sign and the leading zeros are erased, for scale the number of
    those digits that stand after the first dot, a scale between 0 and its
    precision and an unscaled value below [10 ^ precision] in absolute
    value; its precision is between 0 and 38 when the string has at most 38
    such digits. *)
Theorem C4_parsed_decimal_scale_and_magnitude (fuel : nat) (s : string)
    (d : Decimal) :
  parseStringToDecimal fuel s = Returns d ->
  precision_ d = Z.of_nat (digitsOf (significant s))
  /\ scale_ d = Z.of_nat (scaleFrom false (significant s))
  /\ 0 <= scale_ d <= precision_ d
  /\ Z.abs (value (unscaledValue_ d)) < 10 ^ precision_ d
  /\ ((digitsOf (significant s) <= 38)%nat -> 0 <= precision_ d <= 38).
Proof.
  intros Hrun.
  destruct (parse_returns_invariant fuel s d Hrun) as [Hscale Habs].
  apply parse_returns_core in Hrun as (_ & _ & _ & _ & _ & _ & Hd).
  assert (Hp : precision_ d = Z.of_nat (digitsOf (significant s)))
    by (by rewrite Hd).
  assert (Hs : scale_ d = Z.of_nat (scaleFrom false (significant s)))
    by (by rewrite Hd).
  split; [done|]. split; [done|]. split; [done|]. split; [done|]. lia.
Qed.

Lemma C4_parsed_decimal_scale_and_magnitude_witness :
  parseStringToDecimal 64 "-0012.50" = Returns (mkDecimal (mkInt128 (-1250)) 4 2)
  /\ precision_ (mkDecimal (mkInt128 (-1250)) 4 2)
     = Z.of_nat (digitsOf (significant "-0012.50"))
  /\ scale_ (mkDecimal (mkInt128 (-1250)) 4 2)
     = Z.of_nat (scaleFrom false (significant "-0012.50"))
  /\ 0 <= scale_ (mkDecimal (mkInt128 (-1250)) 4 2)
       <= precision_ (mkDecimal (mkInt128 (-1250)) 4 2)
  /\ Z.abs (value (unscaledValue_ (mkDecimal (mkInt128 (-1250)) 4 2)))
     < 10 ^ precision_ (mkDecimal (mkInt128 (-1250)) 4 2)
  /\ ((digitsOf (significant "-0012.50") <= 38)%nat ->
      0 <= precision_ (mkDecimal (mkInt128 (-1250)) 4 2) <= 38).
Proof.
  split; [reflexivity|].
  apply (C4_parsed_decimal_scale_and_magnitude 64 "-0012.50"). reflexivity.
Defined.

End ParserExactness.

(** * Further properties of the flattening *)

Section FlattenPasses.

Import LambdaFunctionUtil.

Lemma forEachRow_app {St : Type} (f : Z -> St -> option St) (l1 l2 : list nat) :
  forall s : St,
    forEachRow f (l1 ++ l2) s = forEachRow f l1 s ≫= forEachRow f l2.
Proof.
  induction l1 as [|r l1 IH]; intros s; simpl; [done|].
  destruct (f (Z.of_nat r) s) as [s'|]; simpl; [apply IH|done].
Qed.

Lemma totalCount_app (nulls : BufferPtr bool) (ind sz off : Buffer Z)
    (l1 l2 : list nat) :
  totalCount nulls ind sz off (l1 ++ l2)
  = totalCount nulls ind sz off l1 + totalCount nulls ind sz off l2.
Proof. induction l1 as [|r l1 IH]; simpl; lia. Qed.

Variable nulls : BufferPtr bool.
Variables ind rawSizes rawOffsets : Buffer Z.

Local Abbreviation ready := (rowReady nulls ind rawSizes rawOffsets).
Local Abbreviation total := (totalCount nulls ind rawSizes rawOffsets).
Local Abbreviation offsetSize := (rowOffsetSize ind rawSizes rawOffsets).
Local Abbreviation pass := (forEachRow (flattenRow nulls ind rawSizes rawOffsets)).

(** What a run of the lambda on one row has done, read off its result. *)
Lemma flattenRow_inv (r : nat) (st st' : FlattenState) :
  flattenRow nulls ind rawSizes rawOffsets (Z.of_nat r) st = Some st' ->
  (rowNull nulls (Z.of_nat r) = Some true /\ st' = st)
  \/ (rowNull nulls (Z.of_nat r) = Some false
      /\ exists size,
           rawNewSizes st' = <[r := Some size]> (rawNewSizes st)
           /\ rawNewOffsets st'
              = <[r := Some (elementIndex st)]> (rawNewOffsets st)).
Proof.
  unfold flattenRow. fold (rowNull nulls (Z.of_nat r)).
  destruct (rowNull nulls (Z.of_nat r)) as [[|]|]; simpl; [| |done].
  { intros [= <-]. by left. }
  intros Hrun. right. split; [done|].
  destruct (buf_read ind (Z.of_nat r)) as [idx|]; [|done]; simpl in Hrun.
  destruct (buf_read rawSizes idx) as [size|]; [|done]; simpl in Hrun.
  destruct (buf_read rawOffsets idx) as [offset|]; [|done]; simpl in Hrun.
  destruct (buf_write (rawNewSizes st) _ _) as [ns'|] eqn:Hw1;
    simpl in Hrun; [|done].
  destruct (buf_write (rawNewOffsets st) _ _) as [no'|] eqn:Hw2;
    simpl in Hrun; [|done].
  destruct (fillElementIndices _ _ _ _ _) as [[ei' k']|]; simpl in Hrun; [|done].
  injection Hrun as <-. simpl. unfold buf_write in Hw1, Hw2.
  case_decide; [|done]. case_decide; [|done].
  injection Hw1 as <-. injection Hw2 as <-. rewrite Nat2Z.id. by exists size.
Qed.

(** The slots of the rows that are not visited, or are visited and null,
    are as they were. *)
Lemma flatten_pass_untouched (rs : list nat) :
  forall (st st' : FlattenState) (r : nat),
    pass rs st = Some st' ->
    r ∉ rs \/ rowNull nulls (Z.of_nat r) = Some true ->
    rawNewSizes st' !! r = rawNewSizes st !! r
    /\ rawNewOffsets st' !! r = rawNewOffsets st !! r.
Proof.
  induction rs as [|r0 rs IH]; intros st st' r Hrun Hr; simpl in Hrun.
  - by injection Hrun as <-.
  - destruct (flattenRow _ _ _ _ _ st) as [st1|] eqn:Hrow; [|done].
    simpl in Hrun.
    assert (Hr' : r ∉ rs \/ rowNull nulls (Z.of_nat r) = Some true).
    { destruct Hr as [Hr|Hr]; [left|by right].
      by apply not_elem_of_cons in Hr as [_ Hr]. }
    destruct (IH st1 st' r Hrun Hr') as [-> ->].
    apply flattenRow_inv in Hrow as [[_ ->]|(Hnn & size & -> & ->)]; [done|].
    assert (r0 <> r).
    { intros ->. destruct Hr as [Hr|Hr]; [|congruence].
      apply Hr. by left. }
    by rewrite !list_lookup_insert_ne.
Qed.

(** Every position the cursor passes is written, with the position of an
    element of one of the rows visited. *)
Lemma flatten_pass_fills (rs : list nat) :
  forall st : FlattenState,
    NoDup rs ->
    (forall r, r ∈ rs -> ready r) ->
    (forall r, r ∈ rs ->
       (r < length (rawNewSizes st))%nat /\ (r < length (rawNewOffsets st))%nat) ->
    0 <= elementIndex st ->
    elementIndex st + total rs <= Z.of_nat (length (rawElementIndices st)) ->
    elementIndex st + total rs <= INT32_MAX ->
    forall st' j,
      pass rs st = Some st' ->
      elementIndex st <= j < elementIndex st + total rs ->
      exists r offset size v,
        r ∈ rs
        /\ rowNull nulls (Z.of_nat r) = Some false
        /\ offsetSize (Z.of_nat r) = Some (offset, size)
        /\ buf_read (rawElementIndices st') j = Some v
        /\ offset <= v < offset + size.
Proof.
  induction rs as [|r rs IH];
    intros st Hnodup Hready Hslots Hk Hlen Hint st' j Hrun Hj.
  - simpl in Hj. lia.
  - apply NoDup_cons in Hnodup as [Hfresh Hnodup].
    assert (Hrs : forall r', r' ∈ rs -> ready r')
      by (intros r' Hr'; apply Hready; by right).
    assert (Hslots' : forall r', r' ∈ rs ->
              (r' < length (rawNewSizes st))%nat
              /\ (r' < length (rawNewOffsets st))%nat)
      by (intros r' Hr'; apply Hslots; by right).
    pose proof (totalCount_nonneg _ _ _ _ rs Hrs) as Hnonneg.
    destruct (Hslots r ltac:(left)) as [Hns Hno].
    simpl in Hlen, Hint, Hj, Hrun.
    destruct (Hready r ltac:(left))
      as [Hnull|(Hnn & offset & size & Hos & Ho & Hs & Hmax)].
    + rewrite (flattenRow_null _ _ _ _ r st Hnull) in Hrun. simpl in Hrun.
      rewrite (rowCount_null _ _ _ _ r Hnull) in Hlen, Hint, Hj.
      destruct (IH st Hnodup Hrs Hslots' Hk ltac:(lia) ltac:(lia) st' j Hrun
                  ltac:(lia))
        as (r' & o' & s' & v & Hr' & ?).
      exists r', o', s', v. split; [by right|done].
    + rewrite (rowCount_size _ _ _ _ r offset size Hnn Hos) in Hlen, Hint, Hj.
      destruct (flattenRow_not_null _ _ _ _ r st offset size Hnn Hos Ho Hs Hmax
                  Hns Hno Hk ltac:(lia) ltac:(lia))
        as (ei1 & Hrow & Hlen1 & Hout1 & Hin1).
      rewrite Hrow in Hrun. simpl in Hrun.
      set (st1 := mkFlattenState ei1 (<[r:=Some size]> (rawNewSizes st))
                    (<[r:=Some (elementIndex st)]> (rawNewOffsets st))
                    (elementIndex st + size)) in *.
      assert (Hslots1 : forall r', r' ∈ rs ->
                (r' < length (rawNewSizes st1))%nat
                /\ (r' < length (rawNewOffsets st1))%nat).
      { intros r' Hr'. simpl. rewrite !length_insert. by apply Hslots'. }
      destruct (decide (j < elementIndex st + size)) as [Hfirst|Hrest].
      * destruct (flatten_pass _ _ _ _ rs st1 Hnodup Hrs Hslots1)
          as (st2 & Hrun2 & _ & _ & _ & _ & Hbefore & _);
          try (simpl; lia).
        rewrite Hrun in Hrun2. injection Hrun2 as <-.
        exists r, offset, size, (offset + (j - elementIndex st)).
        split; [by left|]. split; [done|]. split; [done|].
        split; [|lia]. rewrite Hbefore by (simpl; lia). simpl.
        replace j with (elementIndex st + (j - elementIndex st)) at 1 by lia.
        apply Hin1. lia.
      * destruct (IH st1 Hnodup Hrs Hslots1) with (st' := st') (j := j)
          as (r' & o' & s' & v & Hr' & ?); try (simpl; lia); [done|].
        exists r', o', s', v. split; [by right|done].
Qed.

(** The offset a row gets is the cursor moved by the rows before it. *)
Lemma flatten_pass_offset (pre post : list nat) (r : nat) :
  forall st st' : FlattenState,
    NoDup (pre ++ r :: post) ->
    (forall r', r' ∈ pre ++ r :: post -> ready r') ->
    (forall r', r' ∈ pre ++ r :: post ->
       (r' < length (rawNewSizes st))%nat /\ (r' < length (rawNewOffsets st))%nat) ->
    0 <= elementIndex st ->
    elementIndex st + total (pre ++ r :: post)
      <= Z.of_nat (length (rawElementIndices st)) ->
    elementIndex st + total (pre ++ r :: post) <= INT32_MAX ->
    pass (pre ++ r :: post) st = Some st' ->
    rowNull nulls (Z.of_nat r) = Some false ->
    buf_read (rawNewOffsets st') (Z.of_nat r) = Some (elementIndex st + total pre).
Proof.
  intros st st' Hnodup Hready Hslots Hk Hlen Hint Hrun Hnn.
  apply NoDup_app in Hnodup as (Hpre & Hdisj & Hrest).
  apply NoDup_cons in Hrest as [Hfresh Hpost].
  assert (Hready_pre : forall r', r' ∈ pre -> ready r')
    by (intros r' Hr'; apply Hready, elem_of_app; by left).
  assert (Hready_post : forall r', r' ∈ post -> ready r').
  { intros r' Hr'. apply Hready, elem_of_app. right. by right. }
  assert (Hready_r : ready r).
  { apply Hready, elem_of_app. right. by left. }
  pose proof (totalCount_nonneg _ _ _ _ pre Hready_pre) as Hnn_pre.
  pose proof (totalCount_nonneg _ _ _ _ post Hready_post) as Hnn_post.
  rewrite totalCount_app in Hlen, Hint. simpl in Hlen, Hint.
  destruct Hready_r as [Hnull|(_ & offset & size & Hos & Ho & Hs & Hmax)];
    [congruence|].
  rewrite (rowCount_size _ _ _ _ r offset size Hnn Hos) in Hlen, Hint.
  destruct (flatten_pass _ _ _ _ pre st Hpre Hready_pre)
    as (st1 & Hrun1 & Hcursor & Hl1 & Hl2 & Hl3 & _); try lia.
  { intros r' Hr'. apply Hslots, elem_of_app. by left. }
  rewrite forEachRow_app, Hrun1 in Hrun. simpl in Hrun.
  destruct (Hslots r ltac:(apply elem_of_app; right; by left)) as [Hns Hno].
  destruct (flattenRow_not_null _ _ _ _ r st1 offset size Hnn Hos Ho Hs Hmax
              ltac:(lia) ltac:(lia) ltac:(lia) ltac:(lia) ltac:(lia))
    as (ei2 & Hrow & _).
  rewrite Hrow in Hrun. simpl in Hrun.
  destruct (flatten_pass_untouched post _ st' r Hrun ltac:(by left)) as [_ Hoff].
  rewrite buf_read_nat, Hoff. simpl.
  rewrite list_lookup_insert_eq by lia. simpl. by rewrite Hcursor.
Qed.

End FlattenPasses.

Section FlattenLayout.

Import LambdaFunctionUtil.

(** The run of the two passes on a well-formed input, with the state the
    second pass ends in. *)
Lemma flattenBuffers_run (T : VectorKind) (h : Heap) (rows : SelectivityVector)
    (d : DecodedVector) (sz off : Buffer Z) :
  rawSizesOffsets T h (base d) = Some (sz, off) ->
  (forall r, r ∈ selectedRows rows ->
     rowReady (decodedNulls d) (indices d) sz off r) ->
  totalCount (decodedNulls d) (indices d) sz off (selectedRows rows)
    <= INT32_MAX ->
  let n := totalCount (decodedNulls d) (indices d) sz off (selectedRows rows) in
  exists nn st',
    flattenNulls rows d = Some nn
    /\ (forall r, r ∈ selectedRows rows ->
          rowNull nn (Z.of_nat r) = isNullAt d (Z.of_nat r))
    /\ (forall rs, rs ⊆ selectedRows rows ->
          totalCount nn (indices d) sz off rs
          = totalCount (decodedNulls d) (indices d) sz off rs)
    /\ forEachRow (flattenRow nn (indices d) sz off) (selectedRows rows)
         (mkFlattenState (allocate (Z.to_nat n))
            (allocate (rows_end rows)) (allocate (rows_end rows)) 0)
       = Some st'
    /\ countElements T h rows d = Some n
    /\ flattenBuffers T h rows n d
       = Some (mkFlattenedBuffers nn (rawElementIndices st')
                 (rawNewSizes st') (rawNewOffsets st'))
    /\ 0 <= n.
Proof.
  intros Hbase Hready Hmax n.
  destruct (flattenBuffers_spec T h rows d sz off Hbase Hready Hmax)
    as (b & Hcount & Hbuf & Hnonneg & _).
  fold n in Hcount, Hbuf, Hnonneg.
  destruct (flattenNulls_spec rows d) as (nn & Hnn & Hsame).
  { intros r Hr. by eapply rowReady_is_Some, Hready. }
  exists nn. unfold flattenBuffers in Hbuf. rewrite Hnn in Hbuf. simpl in Hbuf.
  rewrite decide_False in Hbuf by lia. rewrite Hbase in Hbuf. simpl in Hbuf.
  unfold applyToSelected in Hbuf.
  destruct (forEachRow _ (selectedRows rows) _) as [st'|] eqn:Hrun; [|done].
  exists st'. split; [done|]. split; [done|]. split.
  { intros rs Hrs. apply totalCount_ext. intros r Hr. rewrite Hsame; [done|].
    by apply Hrs. }
  split; [done|]. split; [done|]. split; [|done].
  unfold flattenBuffers. rewrite Hnn. simpl.
  rewrite decide_False by lia. rewrite Hbase. simpl.
  unfold applyToSelected. by rewrite Hrun.
Qed.

(** The offsets are running totals: what [flattenBuffers] writes as the
    offset of a selected row that is not null is the number of elements of
    the selected rows before it, so the ranges of the rows follow one
    another in the order of the selection, the first one at 0. *)
Theorem flattenBuffers_offsets_are_running_totals (T : VectorKind) (h : Heap)
    (rows : SelectivityVector) (d : DecodedVector) (sz off : Buffer Z)
    (pre post : list nat) (r : nat) :
  rawSizesOffsets T h (base d) = Some (sz, off) ->
  (forall r, r ∈ selectedRows rows ->
     rowReady (decodedNulls d) (indices d) sz off r) ->
  totalCount (decodedNulls d) (indices d) sz off (selectedRows rows)
    <= INT32_MAX ->
  selectedRows rows = pre ++ r :: post ->
  isNullAt d (Z.of_nat r) = Some false ->
  exists n b,
    countElements T h rows d = Some n
    /\ flattenBuffers T h rows n d = Some b
    /\ buf_read (newOffsets b) (Z.of_nat r)
       = Some (totalCount (decodedNulls d) (indices d) sz off pre).
Proof.
  intros Hbase Hready Hmax Hsplit Hnull.
  destruct (flattenBuffers_run T h rows d sz off Hbase Hready Hmax)
    as (nn & st' & Hnn & Hsame & Htotal & Hrun & Hcount & Hbuf & Hnonneg).
  eexists _, _. split; [done|]. split; [done|]. simpl.
  assert (Hr : r ∈ selectedRows rows).
  { rewrite Hsplit. apply elem_of_app. right. by left. }
  rewrite <- (Htotal pre)
    by (intros x Hx; rewrite Hsplit; apply elem_of_app; by left).
  pose proof (selectedRows_NoDup rows) as Hnodup.
  set (st0 := mkFlattenState _ _ _ _) in Hrun.
  rewrite Hsplit in Hrun, Hnodup.
  rewrite (flatten_pass_offset nn (indices d) sz off pre post r st0 st' Hnodup);
    try done; subst st0; simpl.
  - intros r' Hr'. rewrite <- Hsplit in Hr'.
    eapply rowReady_ext; [|by apply Hready]. by rewrite Hsame.
  - intros r' Hr'. rewrite <- Hsplit in Hr'. unfold allocate.
    rewrite !length_replicate. split; by apply selectedRows_end.
  - rewrite <- Hsplit, (Htotal (selectedRows rows)) by done.
    unfold allocate. rewrite length_replicate. lia.
  - by rewrite <- Hsplit, (Htotal (selectedRows rows)) by done.
  - by rewrite Hsame.
Qed.

(** Every slot of the buffer of element indices is written, and what it
    holds is the position of an element of a selected row that is not null:
    the dictionary over the elements has no index left undefined and none
    that points outside the ranges of the rows flattened. *)
Theorem flattenBuffers_fills_element_indices (T : VectorKind) (h : Heap)
    (rows : SelectivityVector) (d : DecodedVector) (sz off : Buffer Z) (j : Z) :
  rawSizesOffsets T h (base d) = Some (sz, off) ->
  (forall r, r ∈ selectedRows rows ->
     rowReady (decodedNulls d) (indices d) sz off r) ->
  totalCount (decodedNulls d) (indices d) sz off (selectedRows rows)
    <= INT32_MAX ->
  0 <= j < totalCount (decodedNulls d) (indices d) sz off (selectedRows rows) ->
  exists n b r offset size v,
    countElements T h rows d = Some n
    /\ flattenBuffers T h rows n d = Some b
    /\ r ∈ selectedRows rows
    /\ isNullAt d (Z.of_nat r) = Some false
    /\ rowOffsetSize (indices d) sz off (Z.of_nat r) = Some (offset, size)
    /\ buf_read (elementIndices b) j = Some v
    /\ offset <= v < offset + size.
Proof.
  intros Hbase Hready Hmax Hj.
  destruct (flattenBuffers_run T h rows d sz off Hbase Hready Hmax)
    as (nn & st' & Hnn & Hsame & Htotal & Hrun & Hcount & Hbuf & Hnonneg).
  set (st0 := mkFlattenState _ _ _ _) in Hrun.
  destruct (flatten_pass_fills nn (indices d) sz off (selectedRows rows) st0
              (selectedRows_NoDup rows)) with (st' := st') (j := j)
    as (r & offset & size & v & Hr & Hnull & Hos & Hread & Hv);
    try done; subst st0; simpl.
  - intros r' Hr'. eapply rowReady_ext; [|by apply Hready]. by rewrite Hsame.
  - intros r' Hr'. unfold allocate.
    rewrite !length_replicate. split; by apply selectedRows_end.
  - rewrite (Htotal (selectedRows rows)) by done.
    unfold allocate. rewrite length_replicate. lia.
  - by rewrite (Htotal (selectedRows rows)) by done.
  - by rewrite (Htotal (selectedRows rows)) by done.
  - eexists _, _, r, offset, size, v. split; [done|]. split; [done|].
    split; [done|]. split; [by rewrite <- Hsame|]. done.
Qed.

(** The slots of a row that is not selected, or is selected and null, are
    never written: its size and its offset in the result are whatever the
    allocation left there. *)
Theorem flattenBuffers_leaves_other_rows_unwritten (T : VectorKind) (h : Heap)
    (rows : SelectivityVector) (d : DecodedVector) (sz off : Buffer Z) (r : nat) :
  rawSizesOffsets T h (base d) = Some (sz, off) ->
  (forall r, r ∈ selectedRows rows ->
     rowReady (decodedNulls d) (indices d) sz off r) ->
  totalCount (decodedNulls d) (indices d) sz off (selectedRows rows)
    <= INT32_MAX ->
  r ∉ selectedRows rows \/ isNullAt d (Z.of_nat r) = Some true ->
  exists n b,
    countElements T h rows d = Some n
    /\ flattenBuffers T h rows n d = Some b
    /\ buf_read (newSizes b) (Z.of_nat r) = None
    /\ buf_read (newOffsets b) (Z.of_nat r) = None.
Proof.
  intros Hbase Hready Hmax Hr.
  destruct (flattenBuffers_run T h rows d sz off Hbase Hready Hmax)
    as (nn & st' & Hnn & Hsame & Htotal & Hrun & Hcount & Hbuf & Hnonneg).
  eexists _, _. split; [done|]. split; [done|]. simpl.
  destruct (flatten_pass_untouched nn (indices d) sz off _ _ st' r Hrun)
    as [Hsz Hof].
  { destruct (decide (r ∈ selectedRows rows)) as [Hin|Hout]; [|by left].
    right. destruct Hr as [Hr|Hr]; [done|]. by rewrite Hsame. }
  rewrite !buf_read_nat, Hsz, Hof. simpl.
  rewrite <- !buf_read_nat. by rewrite !buf_read_allocate.
Qed.

(** The rows of the small input are ready and few. *)
Lemma example_rows_ready :
  (forall r, r ∈ selectedRows exampleRows ->
     rowReady (decodedNulls exampleDecoded) (indices exampleDecoded)
       [Some 2; Some 3; Some 1] [Some 0; Some 2; Some 5] r)
  /\ totalCount (decodedNulls exampleDecoded) (indices exampleDecoded)
       [Some 2; Some 3; Some 1] [Some 0; Some 2; Some 5]
       (selectedRows exampleRows)
     <= INT32_MAX.
Proof.
  split; [|vm_compute; discriminate].
  intros r Hr. change (selectedRows exampleRows) with [0; 1; 3]%nat in Hr.
  repeat (apply elem_of_cons in Hr as [->|Hr]).
  - right. split; [reflexivity|]. exists 5, 1. vm_compute. repeat split; discriminate.
  - left. reflexivity.
  - right. split; [reflexivity|]. exists 2, 3. vm_compute. repeat split; discriminate.
  - by apply elem_of_nil in Hr.
Qed.

Lemma flattenBuffers_offsets_are_running_totals_witness :
  (selectedRows exampleRows = [0; 1]%nat ++ 3%nat :: []
   /\ isNullAt exampleDecoded (Z.of_nat 3) = Some false)
  /\ exists n b,
       countElements ArrayKind exampleHeap exampleRows exampleDecoded = Some n
       /\ flattenBuffers ArrayKind exampleHeap exampleRows n exampleDecoded
          = Some b
       /\ buf_read (newOffsets b) (Z.of_nat 3)
          = Some (totalCount (decodedNulls exampleDecoded)
                    (indices exampleDecoded)
                    [Some 2; Some 3; Some 1] [Some 0; Some 2; Some 5]
                    [0; 1]%nat).
Proof.
  split; [split; reflexivity|].
  apply (flattenBuffers_offsets_are_running_totals ArrayKind exampleHeap
           exampleRows exampleDecoded [Some 2; Some 3; Some 1]
           [Some 0; Some 2; Some 5] [0; 1]%nat [] 3%nat);
    [reflexivity|apply example_rows_ready|apply example_rows_ready
    |reflexivity|reflexivity].
Defined.

Lemma flattenBuffers_fills_element_indices_witness :
  0 <= 3 < totalCount (decodedNulls exampleDecoded) (indices exampleDecoded)
             [Some 2; Some 3; Some 1] [Some 0; Some 2; Some 5]
             (selectedRows exampleRows)
  /\ exists n b r offset size v,
       countElements ArrayKind exampleHeap exampleRows exampleDecoded = Some n
       /\ flattenBuffers ArrayKind exampleHeap exampleRows n exampleDecoded
          = Some b
       /\ r ∈ selectedRows exampleRows
       /\ isNullAt exampleDecoded (Z.of_nat r) = Some false
       /\ rowOffsetSize (indices exampleDecoded) [Some 2; Some 3; Some 1]
            [Some 0; Some 2; Some 5] (Z.of_nat r)
          = Some (offset, size)
       /\ buf_read (elementIndices b) 3 = Some v
       /\ offset <= v < offset + size.
Proof.
  split; [vm_compute; split; [discriminate|reflexivity]|].
  apply (flattenBuffers_fills_element_indices ArrayKind exampleHeap
           exampleRows exampleDecoded [Some 2; Some 3; Some 1]
           [Some 0; Some 2; Some 5] 3);
    [reflexivity|apply example_rows_ready|apply example_rows_ready
    |vm_compute; split; [discriminate|reflexivity]].
Defined.

Lemma flattenBuffers_leaves_other_rows_unwritten_witness :
  isNullAt exampleDecoded (Z.of_nat 1) = Some true
  /\ exists n b,
       countElements ArrayKind exampleHeap exampleRows exampleDecoded = Some n
       /\ flattenBuffers ArrayKind exampleHeap exampleRows n exampleDecoded
          = Some b
       /\ buf_read (newSizes b) (Z.of_nat 1) = None
       /\ buf_read (newOffsets b) (Z.of_nat 1) = None.
Proof.
  split; [reflexivity|].
  apply (flattenBuffers_leaves_other_rows_unwritten ArrayKind exampleHeap
           exampleRows exampleDecoded [Some 2; Some 3; Some 1]
           [Some 0; Some 2; Some 5] 1%nat);
    [reflexivity|apply example_rows_ready|apply example_rows_ready
    |right; reflexivity].
Defined.

(** [flattenNulls] gives no buffer when the decoded vector has no nulls.
    When it has, the buffer has a slot per row of the selection vector; the
    slot of a selected row holds the null flag of the decoded row, and the
    slot of any other row is never written. *)
Theorem flattenNulls_copies_selected_rows (rows : SelectivityVector)
    (d : DecodedVector) :
  (forall r, r ∈ selectedRows rows -> is_Some (isNullAt d (Z.of_nat r))) ->
  match decodedNulls d with
  | None => flattenNulls rows d = Some None
  | Some _ =>
      exists raw,
        flattenNulls rows d = Some (Some raw)
        /\ length raw = rows_size rows
        /\ (forall r, r ∈ selectedRows rows ->
              isBitNull raw (Z.of_nat r) = isNullAt d (Z.of_nat r))
        /\ (forall r, r ∉ selectedRows rows -> buf_read raw (Z.of_nat r) = None)
  end.
Proof.
  destruct d as [b ind ident [decoded|]];
    unfold flattenNulls, mayHaveNulls, isNullAt, applyToSelected; simpl;
    intros Hrows; [|done].
  destruct (nulls_pass decoded (selectedRows rows) (allocate (rows_size rows)))
    as (raw' & Hrun & Hlen & Hother & Hsame).
  { apply selectedRows_NoDup. }
  { intros r Hr. split; [|by apply Hrows].
    unfold allocate. rewrite length_replicate. by apply selectedRows_size. }
  rewrite Hrun. simpl. exists raw'. split; [done|].
  split; [by rewrite Hlen; unfold allocate; rewrite length_replicate|].
  split; [done|]. intros r Hr.
  rewrite buf_read_nat, (Hother r Hr), <- buf_read_nat.
  apply buf_read_allocate.
Qed.

Lemma flattenNulls_copies_selected_rows_witness :
  exists raw,
    flattenNulls exampleRows exampleDecoded = Some (Some raw)
    /\ length raw = rows_size exampleRows
    /\ (forall r, r ∈ selectedRows exampleRows ->
          isBitNull raw (Z.of_nat r) = isNullAt exampleDecoded (Z.of_nat r))
    /\ (forall r, r ∉ selectedRows exampleRows ->
          buf_read raw (Z.of_nat r) = None).
Proof.
  apply (flattenNulls_copies_selected_rows exampleRows exampleDecoded).
  intros r Hr. change (selectedRows exampleRows) with [0; 1; 3]%nat in Hr.
  repeat (apply elem_of_cons in Hr as [->|Hr]); [by eexists..|].
  by apply elem_of_nil in Hr.
Defined.

(** Flattening never touches what is there: the vectors of the heap stay
    at their addresses unchanged, the children of the base included, and
    the only vectors made are the dictionaries over the children and the
    result (two for an array, three for a map, none for an identity
    mapping). *)
Theorem flatten_only_appends (T : VectorKind) (h h' : Heap)
    (rows : SelectivityVector) (vector out : VectorPtr) (d : DecodedVector) :
  flatten T h rows vector d = Some (out, h') ->
  exists fresh,
    h' = h ++ fresh
    /\ length fresh
       = (if isIdentityMapping d then 0
          else match T with ArrayKind => 2 | MapKind => 3 end)%nat
    /\ forall a v, h !! a = Some v -> h' !! a = Some v.
Proof.
  intros Hrun.
  assert (Hfresh : exists fresh,
            h' = h ++ fresh
            /\ length fresh
               = (if isIdentityMapping d then 0
                  else match T with ArrayKind => 2 | MapKind => 3 end)%nat).
  { unfold flatten, flattenArray, flattenMap in Hrun.
    destruct T, (isIdentityMapping d).
    - injection Hrun as _ <-. exists []. by rewrite app_nil_r.
    - destruct (countElements _ _ _ _) as [n|]; [|done]. simpl in Hrun.
      destruct (flattenBuffers _ _ _ _ _) as [b|]; [|done]. simpl in Hrun.
      destruct (deref h (base d)) as [[]|]; try done. simpl in Hrun.
      injection Hrun as _ <-. eexists. by rewrite <- app_assoc.
    - injection Hrun as _ <-. exists []. by rewrite app_nil_r.
    - destruct (countElements _ _ _ _) as [n|]; [|done]. simpl in Hrun.
      destruct (flattenBuffers _ _ _ _ _) as [b|]; [|done]. simpl in Hrun.
      destruct (deref h (base d)) as [[]|]; try done. simpl in Hrun.
      injection Hrun as _ <-. eexists. by rewrite <- !app_assoc. }
  destruct Hfresh as (fresh & -> & Hlen). exists fresh.
  split; [done|]. split; [done|].
  intros a v Ha. by apply lookup_app_l_Some.
Qed.

Lemma flatten_only_appends_witness :
  exists fresh,
    exampleHeap
    ++ [ DictionaryVector None [Some 5; Some 2; Some 3; Some 4] 4 (ptr 0);
         ArrayVector (Some [Some true; Some false; None; Some true; None]) 5
           [Some 0; None; None; Some 1] [Some 1; None; None; Some 3] (ptr 3) ]
    = exampleHeap ++ fresh
    /\ length fresh
       = (if isIdentityMapping exampleDecoded then 0 else 2)%nat
    /\ forall a v,
         exampleHeap !! a = Some v ->
         (exampleHeap
          ++ [ DictionaryVector None [Some 5; Some 2; Some 3; Some 4] 4 (ptr 0);
               ArrayVector (Some [Some true; Some false; None; Some true; None])
                 5 [Some 0; None; None; Some 1] [Some 1; None; None; Some 3]
                 (ptr 3) ]) !! a = Some v.
Proof.
  apply (flatten_only_appends ArrayKind exampleHeap _ exampleRows (ptr 2)
           (ptr 4) exampleDecoded).
  reflexivity.
Defined.

(** An empty selection gives an empty result: no element is counted, the
    buffer of element indices and the buffers of sizes and offsets have no
    slot, and the vector returned still has as many rows as the selection
    vector. *)
Theorem flatten_empty_selection (T : VectorKind) (h : Heap)
    (rows : SelectivityVector) (vector : VectorPtr) (d : DecodedVector)
    (sz off : Buffer Z) :
  selectedRows rows = [] ->
  isIdentityMapping d = false ->
  rawSizesOffsets T h (base d) = Some (sz, off) ->
  exists out h' nulls',
    countElements T h rows d = Some 0
    /\ flatten T h rows vector d = Some (out, h')
    /\ outputBuffers h' out = Some (nulls', Z.of_nat (rows_size rows), [], [])
    /\ children h' out <> []
    /\ Forall2
         (fun c orig => deref h' c = Some (DictionaryVector None [] 0 orig))
         (children h' out) (children h (base d)).
Proof.
  intros Hempty Hdict Hbase.
  assert (Hcount : countElements T h rows d = Some 0).
  { unfold countElements, applyToSelected. rewrite Hbase, Hempty. done. }
  assert (Hbuf : exists nn,
            flattenBuffers T h rows 0 d = Some (mkFlattenedBuffers nn [] [] [])).
  { unfold flattenBuffers, flattenNulls, applyToSelected, rows_end.
    rewrite Hempty, Hbase. simpl.
    destruct (mayHaveNulls d); simpl; by eexists. }
  destruct Hbuf as (nn & Hbuf).
  destruct (flatten_result T h rows vector d sz off 0 _ Hdict Hbase Hcount Hbuf)
    as (out & h' & Hrun & Hout & Hkids & Hwrapped).
  by exists out, h', nn.
Qed.

Lemma flatten_empty_selection_witness :
  selectedRows (mkSelectivityVector [false; false]) = []
  /\ exists out h' nulls',
       countElements ArrayKind exampleHeap (mkSelectivityVector [false; false])
         exampleDecoded = Some 0
       /\ flatten ArrayKind exampleHeap (mkSelectivityVector [false; false])
            (ptr 2) exampleDecoded = Some (out, h')
       /\ outputBuffers h' out
          = Some (nulls',
                  Z.of_nat (rows_size (mkSelectivityVector [false; false])),
                  [], [])
       /\ children h' out <> []
       /\ Forall2
            (fun c orig => deref h' c = Some (DictionaryVector None [] 0 orig))
            (children h' out) (children exampleHeap (base exampleDecoded)).
Proof.
  split; [reflexivity|].
  apply (flatten_empty_selection ArrayKind exampleHeap
           (mkSelectivityVector [false; false]) (ptr 2) exampleDecoded
           [Some 2; Some 3; Some 1] [Some 0; Some 2; Some 5]);
    reflexivity.
Defined.

End FlattenLayout.

(** * The set of the elements of a row *)

Section GenerateSet.

Import LambdaFunctionUtil.

Lemma generateSetLoop_spec (nulls : BufferPtr bool) (values : Buffer Z)
    (n : nat) :
  forall (i : Z) (s0 s' : SetWithNull),
    generateSetLoop n i nulls values s0 = Some s' ->
    (hasNull s' = true
     <-> hasNull s0 = true
         \/ exists k, i <= k < i + Z.of_nat n /\ rowNull nulls k = Some true)
    /\ (forall v,
          v ∈ set s'
          <-> v ∈ set s0
              \/ exists k, i <= k < i + Z.of_nat n
                           /\ rowNull nulls k = Some false
                           /\ buf_read values k = Some v).
Proof.
  induction n as [|n IH]; intros i s0 s' Hrun.
  - injection Hrun as <-. split; [|intros v]; split; auto;
      intros [?|(k & ? & _)]; [done|lia|done|lia].
  - simpl in Hrun.
    destruct (rowNull nulls i) as [isNull|] eqn:Hnull; [|done]. simpl in Hrun.
    destruct isNull; simpl in Hrun.
    + apply IH in Hrun as [Hhas Hset]. simpl in *. split.
      * rewrite Hhas. split.
        -- intros [_|(k & Hk & Hkn)]; right; [exists i|exists k];
             (split; [lia|done]).
        -- intros _. by left.
      * intros v. rewrite Hset. split.
        -- intros [?|(k & Hk & ?)]; [by left|right]. exists k. split; [lia|done].
        -- intros [?|(k & Hk & Hkn & Hkv)]; [by left|right].
           exists k. split; [|done].
           destruct (decide (k = i)) as [->|]; [congruence|lia].
    + destruct (buf_read values i) as [x|] eqn:Hx; [|done]. simpl in Hrun.
      apply IH in Hrun as [Hhas Hset]. simpl in *. split.
      * rewrite Hhas. split.
        -- intros [?|(k & Hk & ?)]; [by left|right]. exists k. split; [lia|done].
        -- intros [?|(k & Hk & Hkn)]; [by left|right].
           exists k. split; [|done].
           destruct (decide (k = i)) as [->|]; [congruence|lia].
      * intros v. rewrite Hset, elem_of_union, elem_of_singleton. split.
        -- intros [[->|?]|(k & Hk & ?)]; [right|by left|right].
           ++ exists i. split; [lia|done].
           ++ exists k. split; [lia|done].
        -- intros [?|(k & Hk & Hkn & Hkv)]; [by left; right|].
           destruct (decide (k = i)) as [->|].
           ++ left; left. congruence.
           ++ right. exists k. split; [lia|done].
Qed.

(** After [generateSet] on row [idx] of an array, the set holds, besides
    what [reset] leaves in it, exactly the values of the elements of the row
    that are not null, and [hasNull] tells, besides what [reset] leaves,
    exactly whether an element of the row is null. *)
Theorem generateSet_collects_row (reset : SetWithNull -> SetWithNull)
    (h : Heap) (arrayVector arrayElements : VectorPtr) (idx : Z)
    (rightSet s' : SetWithNull)
    (arrayNulls elementNulls : BufferPtr bool) (n m : Z)
    (offsets sizes values : Buffer Z) (elements : VectorPtr)
    (offset size : Z) :
  deref h arrayVector = Some (ArrayVector arrayNulls n offsets sizes elements) ->
  deref h arrayElements = Some (FlatVector elementNulls m values) ->
  buf_read offsets idx = Some offset ->
  buf_read sizes idx = Some size ->
  generateSet reset h arrayVector arrayElements idx rightSet = Some s' ->
  (hasNull s' = true
   <-> hasNull (reset rightSet) = true
       \/ exists k, offset <= k < offset + size
                    /\ rowNull elementNulls k = Some true)
  /\ (forall v,
        v ∈ set s'
        <-> v ∈ set (reset rightSet)
            \/ exists k, offset <= k < offset + size
                         /\ rowNull elementNulls k = Some false
                         /\ buf_read values k = Some v).
Proof.
  intros Harray Helems Hoff Hsize Hrun. unfold generateSet in Hrun.
  rewrite Harray in Hrun. simpl in Hrun. rewrite Hsize in Hrun. simpl in Hrun.
  rewrite Hoff in Hrun. simpl in Hrun. rewrite Helems in Hrun. simpl in Hrun.
  destruct (int32_add offset size); [|done]. simpl in Hrun.
  apply generateSetLoop_spec in Hrun as [Hhas Hset].
  destruct (decide (0 <= size)) as [Hpos|Hneg].
  - rewrite Z2Nat.id in Hhas, Hset by done. done.
  - replace (Z.to_nat size) with 0%nat in Hhas, Hset by lia.
    split; [rewrite Hhas|intros v; rewrite Hset];
      (split; (intros [?|(k & Hk & _)]; [by left|lia])).
Qed.

Lemma generateSet_collects_row_witness :
  generateSet (fun _ => mkSetWithNull ∅ false) exampleHeap (ptr 1) (ptr 0) 1
    (mkSetWithNull {[42]} true)
  = Some (mkSetWithNull ({[5]} ∪ ({[4]} ∪ ({[3]} ∪ ∅))) false)
  /\ ((hasNull (mkSetWithNull ({[5]} ∪ ({[4]} ∪ ({[3]} ∪ ∅))) false) = true
       <-> hasNull (mkSetWithNull ∅ false) = true
           \/ exists k, 2 <= k < 2 + 3 /\ rowNull None k = Some true)
      /\ (forall v,
            v ∈ set (mkSetWithNull ({[5]} ∪ ({[4]} ∪ ({[3]} ∪ ∅))) false)
            <-> v ∈ set (mkSetWithNull ∅ false)
                \/ exists k, 2 <= k < 2 + 3
                             /\ rowNull None k = Some false
                             /\ buf_read [Some 1; Some 2; Some 3; Some 4;
                                           Some 5; Some 6] k = Some v)).
Proof.
  split; [reflexivity|].
  apply (generateSet_collects_row (fun _ => mkSetWithNull ∅ false) exampleHeap
           (ptr 1) (ptr 0) 1 (mkSetWithNull {[42]} true) _
           None None 3 6 [Some 0; Some 2; Some 5] [Some 2; Some 3; Some 1]
           [Some 1; Some 2; Some 3; Some 4; Some 5; Some 6] (ptr 0) 2 3);
    reflexivity.
Defined.

End GenerateSet.

(** * Further properties of the DuckDB conversion *)

Section ConversionContent.

Import DuckWrapper.

Context {DuckValue VeloxValue : Type}.
Variable inPlace : DuckValue -> VeloxValue.
Variable zero : VeloxValue.
Variable OP : Conversion DuckValue VeloxValue.

Local Abbreviation convert' := (convert DuckValue VeloxValue inPlace zero OP).
Local Abbreviation valueAt' := (valueAt VeloxValue).
Local Abbreviation expected := (expectedAt DuckValue VeloxValue inPlace zero OP).
Local Abbreviation expectedNull := (expectedNullAt DuckValue).
Local Abbreviation nullAt := (isNullAt VeloxValue).

Local Abbreviation usedOk' := (usedOk DuckValue).

Lemma convert_content (v : DuckVector DuckValue) (veloxType : TypePtr) :
  forall (size : nat) (validity : option (list bool)),
    wellSelected DuckValue v size ->
    exists converted,
      convert' v veloxType size validity = Returns converted
      /\ vectorSize VeloxValue converted = size
      /\ forall i, (i < size)%nat ->
           nullAt converted i = expectedNull v i
           /\ (usedOk' v validity i -> valueAt' converted i = expected v i).
Proof.
  induction v as [type duckValidity data|child IH selection|vt type];
    intros size validity Hwell; [| |done].
  - assert (Hnulls : forall i, (i < size)%nat ->
              match
                match duckValidity with
                | Some mask => Some (take size mask)
                | None => None
                end
              with
              | Some bitmap => Some (negb (default false (bitmap !! i)))
              | None => Some false
              end = Some (negb (RowIsValid duckValidity i))).
    { intros i Hi. destruct duckValidity as [mask|]; simpl; [|done].
      by rewrite lookup_take_lt by done. }
    simpl. destruct (needsCopy type) eqn:Hcopy; eexists; (split; [done|]);
      (split; [done|]); intros i Hi; simpl;
      destruct (Nat.ltb_spec i size); try lia; (split; [by apply Hnulls|]).
    + intros Hused. rewrite list_lookup_fmap, lookup_seq_lt by done. simpl.
      destruct validity as [bm|]; simpl in *; [rewrite Hused|];
        by rewrite andb_true_r.
    + intros _. by rewrite list_lookup_fmap, lookup_seq_lt by done.
  - destruct Hwell as [Hsel Hchild]. simpl convert.
    set (n := Z.to_nat (maxIndexOf selection size + 1)) in *.
    set (validity' := if needsCopy (GetType DuckValue child)
                      then Some (usedValues selection size
                                   (maxIndexOf selection size))
                      else None).
    destruct (IH n validity' Hchild) as (base & Hbase & Hsize & Hrows).
    assert (Hconv : (if needsCopy (GetType DuckValue child)
                     then convert' child veloxType n
                            (Some (usedValues selection size
                                     (maxIndexOf selection size)))
                     else convert' child veloxType n None) = Returns base).
    { subst validity'. by destruct (needsCopy (GetType DuckValue child)). }
    rewrite Hconv. eexists. split; [done|]. split; [done|].
    intros i Hi. simpl.
    destruct (Nat.ltb_spec i size); [|lia].
    rewrite lookup_take_lt by done.
    destruct (Hsel i Hi) as (idx & Hidx & Hpos). rewrite Hidx. simpl.
    rewrite !decide_True by done.
    destruct (maxIndexOf_bound selection size i Hi) as [Hmax Hle].
    assert (Hget : get_index selection i = idx)
      by (unfold get_index; by rewrite Hidx).
    rewrite Hget in Hle.
    destruct (Hrows (Z.to_nat idx) ltac:(lia)) as [Hnull Hvalue].
    split; [done|]. intros _. apply Hvalue.
    subst validity'. unfold usedOk.
    destruct child as [t dv dt| |]; [|done..]. simpl.
    destruct (needsCopy t); [|done].
    rewrite <- Hget. apply usedValues_marks_selected; [done|lia].
Qed.

(** A column of flat and dictionary encodings, nested to any depth, is
    converted: the vector returned has the rows of the chunk, and reading
    its row [i] gives the value DuckDB holds for that row. *)
Theorem convert_preserves_values (v : DuckVector DuckValue)
    (veloxType : TypePtr) (size : nat) :
  wellSelected DuckValue v size ->
  exists converted,
    convert' v veloxType size None = Returns converted
    /\ vectorSize VeloxValue converted = size
    /\ forall i, (i < size)%nat -> valueAt' converted i = expected v i.
Proof.
  intros Hwell.
  destruct (convert_content v veloxType size None Hwell)
    as (converted & Hconv & Hsize & Hrows).
  exists converted. split; [done|]. split; [done|].
  intros i Hi. apply Hrows; [done|]. by destruct v.
Qed.

(** The nulls come across too: row [i] of the vector returned is null
    exactly when the row DuckDB holds there is not valid. *)
Theorem convert_preserves_nulls (v : DuckVector DuckValue)
    (veloxType : TypePtr) (size : nat) :
  wellSelected DuckValue v size ->
  exists converted,
    convert' v veloxType size None = Returns converted
    /\ forall i, (i < size)%nat -> nullAt converted i = expectedNull v i.
Proof.
  intros Hwell.
  destruct (convert_content v veloxType size None Hwell)
    as (converted & Hconv & Hsize & Hrows).
  exists converted. split; [done|]. intros i Hi. by apply Hrows.
Qed.

(** The conversion fails in one case only: when the vector under the
    selections has an encoding that is neither flat nor dictionary, and
    then with the unsupported-encoding error that names it. *)
Theorem convert_unsupported_encoding (v : DuckVector DuckValue)
    (veloxType : TypePtr) (size : nat) (validity : option (list bool)) :
  match innermost DuckValue v with
  | DuckOther _ vt _ =>
      convert' v veloxType size validity
      = Throws (VeloxUnsupported
                  ("Unsupported DuckDB vector encoding: "
                   ++ VectorTypeToString vt))
  | _ => exists converted, convert' v veloxType size validity = Returns converted
  end.
Proof.
  revert size validity.
  induction v as [type duckValidity data|child IH selection|vt type];
    intros size validity.
  - simpl. destruct (needsCopy type); by eexists.
  - simpl.
    set (n := Z.to_nat (maxIndexOf selection size + 1)).
    pose proof (IH n (Some (usedValues selection size (maxIndexOf selection size))))
      as IH1.
    pose proof (IH n None) as IH2.
    destruct (innermost DuckValue child) as [t dv dt|c sel|vt t].
    + destruct IH1 as [c1 ->], IH2 as [c2 ->].
      destruct (needsCopy (GetType DuckValue child)); by eexists.
    + destruct IH1 as [c1 ->], IH2 as [c2 ->].
      destruct (needsCopy (GetType DuckValue child)); by eexists.
    + rewrite IH1, IH2. by destruct (needsCopy (GetType DuckValue child)).
  - done.
Qed.



(** The bitmap of used values marks nothing but selected indices. *)
Lemma usedValues_only_selected (selection : list Z) (size : nat) (k : nat) :
  isBitSet (usedValues selection size (maxIndexOf selection size)) k = true ->
  exists i, (i < size)%nat /\ Z.to_nat (get_index selection i) = k.
Proof.
  unfold usedValues, isBitSet.
  assert (Hgen : forall (l : list nat) (bitmap : list bool),
    default false
      (foldl (fun bitmap i => <[Z.to_nat (get_index selection i) := true]> bitmap)
         bitmap l !! k) = true ->
    default false (bitmap !! k) = true
    \/ exists j, j ∈ l /\ Z.to_nat (get_index selection j) = k).
  { induction l as [|j l IH]; intros bitmap Hset; simpl in Hset; [by left|].
    apply IH in Hset as [Hset|(j' & Hj' & Hk)].
    - destruct (decide (Z.to_nat (get_index selection j) = k)) as [Heq|Hne].
      + right. exists j. split; [by left|done].
      + left. by rewrite list_lookup_insert_ne in Hset.
    - right. exists j'. split; [by right|done]. }
  intros Hset. apply Hgen in Hset as [Hset|(j & Hj & Hk)].
  - destruct (replicate _ false !! k) as [b|] eqn:Hl; [|done].
    apply lookup_replicate in Hl as [-> _]. done.
  - exists j. apply elem_of_seq in Hj. split; [lia|done].
Qed.

(** Where values are copied, only the slots the selection refers to are
    read: two children that agree on those slots convert to the same
    vector, whatever their other slots hold. *)
Theorem convert_reads_only_selected_slots (type : LogicalType)
    (duckValidity : ValidityMask) (data data' : list (option DuckValue))
    (selection : list Z) (veloxType : TypePtr) (size : nat)
    (validity : option (list bool)) :
  needsCopy type = true ->
  (forall i, (i < size)%nat ->
     data !! Z.to_nat (get_index selection i)
     = data' !! Z.to_nat (get_index selection i)) ->
  convert' (DuckDictionary DuckValue
              (DuckFlat DuckValue type duckValidity data) selection)
    veloxType size validity
  = convert' (DuckDictionary DuckValue
                (DuckFlat DuckValue type duckValidity data') selection)
      veloxType size validity.
Proof.
  intros Hcopy Hagree. simpl. rewrite Hcopy. simpl. do 2 f_equal.
  unfold copyRows. f_equal. apply list_fmap_ext. intros _ j _.
  destruct (RowIsValid duckValidity j); simpl; [|done].
  destruct (isBitSet _ j) eqn:Hused; [|done].
  apply usedValues_only_selected in Hused as (i & Hi & <-).
  by rewrite Hagree.
Qed.

End ConversionContent.

Section ConversionExamples.

Import DuckWrapper.

Lemma nestedColumn_wellSelected : wellSelected Z nestedColumn 4.
Proof.
  split; [|split; [|done]].
  - intros i Hi. destruct i as [|[|[|[|i]]]]; [by eexists..|lia].
  - intros i Hi. change (Z.to_nat _) with 3%nat in Hi.
    destruct i as [|[|[|i]]]; [by eexists..|lia].
Qed.

Lemma convert_preserves_values_witness :
  wellSelected Z nestedColumn 4
  /\ exists converted,
       convert Z Z (fun x => x) 0 identityConversion nestedColumn
         (toVeloxType hugeintType) 4 None
       = Returns converted
       /\ vectorSize Z converted = 4%nat
       /\ forall i, (i < 4)%nat ->
            valueAt Z converted i
            = expectedAt Z Z (fun x => x) 0 identityConversion nestedColumn i.
Proof.
  split; [exact nestedColumn_wellSelected|].
  apply (convert_preserves_values (fun x => x) 0 identityConversion
           nestedColumn (toVeloxType hugeintType) 4).
  exact nestedColumn_wellSelected.
Defined.

Lemma convert_preserves_nulls_witness :
  wellSelected Z nestedColumn 4
  /\ exists converted,
       convert Z Z (fun x => x) 0 identityConversion nestedColumn
         (toVeloxType hugeintType) 4 None
       = Returns converted
       /\ forall i, (i < 4)%nat ->
            isNullAt Z converted i = expectedNullAt Z nestedColumn i.
Proof.
  split; [exact nestedColumn_wellSelected|].
  apply (convert_preserves_nulls (fun x => x) 0 identityConversion
           nestedColumn (toVeloxType hugeintType) 4).
  exact nestedColumn_wellSelected.
Defined.

(** The nested column read row by row: 10, then the row that is not valid
    (the zero of a fresh vector), then 10 and 30. *)
Example nestedColumn_rows :
  rowsOf (toVeloxVectorZ 4 nestedColumn (toVeloxType hugeintType))
  = Some [Some 10; Some 0; Some 10; Some 30].
Proof. reflexivity. Qed.


Lemma convert_reads_only_selected_slots_witness :
  convert Z Z (fun x => x) 0 identityConversion
    (DuckDictionary Z
       (DuckFlat Z hugeintType None [Some 10; None; Some 30]) [2; 0])
    (toVeloxType hugeintType) 2 None
  = convert Z Z (fun x => x) 0 identityConversion
      (DuckDictionary Z
         (DuckFlat Z hugeintType None [Some 10; Some 77; Some 30]) [2; 0])
      (toVeloxType hugeintType) 2 None.
Proof.
  apply (convert_reads_only_selected_slots (fun x => x) 0 identityConversion
           hugeintType None [Some 10; None; Some 30] [Some 10; Some 77; Some 30]
           [2; 0] (toVeloxType hugeintType) 2 None).
  - reflexivity.
  - intros i Hi. destruct i as [|[|i]]; [reflexivity..|lia].
Defined.

End ConversionExamples.

Section FlatDecimals.

Import DuckWrapper.

Context {DuckValue VeloxValue : Type}.
Variable inPlace : DuckValue -> VeloxValue.
Variable zero : VeloxValue.
Variable ToString : LogicalType -> string.
Variables Numeric Hugeint Varchar Date Timestamp ShortDecimal LongDecimal
  : Conversion DuckValue VeloxValue.

Local Abbreviation toVeloxVector' :=
  (toVeloxVector DuckValue VeloxValue inPlace zero ToString Numeric Hugeint Varchar
     Date Timestamp ShortDecimal LongDecimal).

(** A flat decimal column stored on 16, 32, 64 or 128 bits is converted
    to a flat vector of the rows of the chunk, typed with the width and the
    scale DuckDB declares and not with the type asked for; its nulls are
    DuckDB's, and a valid row reads the value DuckDB holds, converted when
    it is stored on 16 or 32 bits and in place otherwise. *)
Theorem toVeloxVector_flat_decimal (type : LogicalType)
    (duckValidity : ValidityMask) (data : list (option DuckValue))
    (veloxType : TypePtr) (size : nat) :
  id type = DECIMAL ->
  InternalType type = INT16 \/ InternalType type = INT32
  \/ InternalType type = INT64 \/ InternalType type = INT128 ->
  exists nulls values,
    toVeloxVector' size (DuckFlat DuckValue type duckValidity data) veloxType
    = Returns (FlatVector VeloxValue
                 (Some (DECIMAL_TYPE (decimalWidth type) (decimalScale type)))
                 nulls size values)
    /\ forall i, (i < size)%nat ->
         isNullAt VeloxValue
           (FlatVector VeloxValue
              (Some (DECIMAL_TYPE (decimalWidth type) (decimalScale type)))
              nulls size values) i
         = Some (negb (RowIsValid duckValidity i))
         /\ (RowIsValid duckValidity i = true ->
             valueAt VeloxValue
               (FlatVector VeloxValue
                  (Some (DECIMAL_TYPE (decimalWidth type) (decimalScale type)))
                  nulls size values) i
             = match InternalType type with
               | INT16 | INT32 =>
                   toVelox DuckValue VeloxValue ShortDecimal <$> mjoin (data !! i)
               | _ => inPlace <$> mjoin (data !! i)
               end).
Proof.
  intros Hid Hwidth. unfold toVeloxVector. simpl GetType. rewrite Hid.
  assert (Hnulls : forall i, (i < size)%nat ->
            match
              match duckValidity with
              | Some mask => Some (take size mask)
              | None => None
              end
            with
            | Some bitmap => Some (negb (default false (bitmap !! i)))
            | None => Some false
            end = Some (negb (RowIsValid duckValidity i))).
  { intros i Hi. destruct duckValidity as [mask|]; simpl; [|done].
    by rewrite lookup_take_lt by done. }
  destruct Hwidth as [Hw|[Hw|[Hw|Hw]]]; rewrite Hw; simpl; rewrite Hw;
    eexists _, _; (split; [reflexivity|]); intros i Hi; simpl;
    (split; [by apply Hnulls|]); intros Hvalid;
    destruct (Nat.ltb_spec i size); try lia;
    rewrite list_lookup_fmap, lookup_seq_lt by done; simpl;
    by rewrite ?Hvalid.
Qed.

End FlatDecimals.

Section FlatDecimalExample.

Import DuckWrapper.

Lemma toVeloxVector_flat_decimal_witness :
  (id (decimalType INT32) = DECIMAL /\ InternalType (decimalType INT32) = INT32)
  /\ exists nulls values,
       toVeloxVector Z Z (fun x => x) 0 idName
         identityConversion identityConversion identityConversion
         identityConversion identityConversion identityConversion
         identityConversion 3
         (DuckFlat Z (decimalType INT32) (Some [true; false; true])
            [Some 10; Some 20; Some 30])
         (toVeloxType integerType)
       = Returns (FlatVector Z
                    (Some (DECIMAL_TYPE (decimalWidth (decimalType INT32))
                             (decimalScale (decimalType INT32))))
                    nulls 3 values)
       /\ forall i, (i < 3)%nat ->
            isNullAt Z
              (FlatVector Z
                 (Some (DECIMAL_TYPE (decimalWidth (decimalType INT32))
                          (decimalScale (decimalType INT32))))
                 nulls 3 values) i
            = Some (negb (RowIsValid (Some [true; false; true]) i))
            /\ (RowIsValid (Some [true; false; true]) i = true ->
                valueAt Z
                  (FlatVector Z
                     (Some (DECIMAL_TYPE (decimalWidth (decimalType INT32))
                              (decimalScale (decimalType INT32))))
                     nulls 3 values) i
                = match InternalType (decimalType INT32) with
                  | INT16 | INT32 =>
                      toVelox Z Z identityConversion
                      <$> mjoin ([Some 10; Some 20; Some 30] !! i)
                  | _ => (fun x => x) <$> mjoin ([Some 10; Some 20; Some 30] !! i)
                  end).
Proof.
  split; [split; reflexivity|].
  apply (toVeloxVector_flat_decimal (fun x => x) 0 idName
           identityConversion identityConversion identityConversion
           identityConversion identityConversion identityConversion
           identityConversion (decimalType INT32) (Some [true; false; true])
           [Some 10; Some 20; Some 30] (toVeloxType integerType) 3);
    [reflexivity|right; left; reflexivity].
Defined.

End FlatDecimalExample.

Section ParserTermination.

Import DecimalH.

Local Open Scope string_scope.

Lemma parseStringToDecimal_terminates_witness :
  ((String.length "12x" < 256)%nat /\ (String.length "12x" < 4)%nat)
  /\ parseStringToDecimal 4 "12x" <> OutOfFuel.
Proof.
  split; [simpl; lia|].
  apply (parseStringToDecimal_terminates 4 "12x"); simpl; lia.
Defined.

End ParserTermination.
